(** * uBlock-to-Stylus converter: the filter parser and the document generators

    A shallow embedding of the core of [ublocktoCSS_pro.py]
    ([parse_filters], [dedupe_rules], [generate_usercss],
    [generate_stylus_json], [create_stylus_style_entry],
    [sanitize_filename]) together with the properties the specification
    states about them.

    Python [str] values are modelled as [string]; a character is a code
    point, and the model covers the code points below 256 (Latin-1), for
    which the character classes of Python ([str.isspace], [str.isalpha],
    [str.isdigit], the line boundaries of [str.splitlines]) are written
    out in full. *)

From Stdlib Require Import Bool Arith List Ascii String ZArith Lia.
From Stdlib Require Import Permutation Sorted.
From Stdlib Require OrderedTypeEx.
Import ListNotations.

Local Open Scope list_scope.
Local Open Scope string_scope.

(* ------------------------------------------------------------------ *)
(** ** Python string primitives *)
(* ------------------------------------------------------------------ *)

Module PyStr.

(** Code point of a character. *)
Definition ord (c : ascii) : nat := nat_of_ascii c.

(** [c.isspace()]: U+0009..U+000D, U+001C..U+001F, U+0020, U+0085, U+00A0. *)
Definition isspace (c : ascii) : bool :=
  let n := ord c in
  (((9 <=? n) && (n <=? 13)) || ((28 <=? n) && (n <=? 32))
  || (n =? 133) || (n =? 160))%nat.

(** Line boundaries of [str.splitlines]: LF, VT, FF, CR, FS, GS, RS, NEL. *)
Definition islinebreak (c : ascii) : bool :=
  let n := ord c in
  (((10 <=? n) && (n <=? 13)) || ((28 <=? n) && (n <=? 30)) || (n =? 133))%nat.

(** [c.isalpha()] below U+0100. *)
Definition isalpha (c : ascii) : bool :=
  let n := ord c in
  (((65 <=? n) && (n <=? 90)) || ((97 <=? n) && (n <=? 122))
  || (n =? 170) || (n =? 181) || (n =? 186)
  || ((192 <=? n) && (n <=? 214)) || ((216 <=? n) && (n <=? 246))
  || ((248 <=? n) && (n <=? 255)))%nat.

(** [c.isdigit()] below U+0100: the ASCII digits and the superscripts
    one, two and three. *)
Definition isdigit (c : ascii) : bool :=
  let n := ord c in
  (((48 <=? n) && (n <=? 57)) || (n =? 178) || (n =? 179) || (n =? 185))%nat.

Definition LF : ascii := ascii_of_nat 10.
Definition CR : ascii := ascii_of_nat 13.
Definition DQUOTE : ascii := ascii_of_nat 34.

(** [s.startswith(p)] *)
Definition startswith (p s : string) : bool := prefix p s.

(** [s[n:]] *)
Fixpoint drop (n : nat) (s : string) : string :=
  match n, s with
  | O, _ => s
  | S _, EmptyString => EmptyString
  | S k, String _ r => drop k r
  end.

(** [p in s] *)
Fixpoint contains (p s : string) : bool :=
  if startswith p s then true
  else match s with
       | EmptyString => false
       | String _ r => contains p r
       end.

(** [s.partition(sep)] when [sep] occurs: the text before the first
    occurrence and the text after it. *)
Fixpoint partition (sep s : string) : option (string * string) :=
  if startswith sep s then Some (EmptyString, drop (length sep) s)
  else match s with
       | EmptyString => None
       | String c r =>
           match partition sep r with
           | Some (a, b) => Some (String c a, b)
           | None => None
           end
       end.

(** [s.lstrip()] *)
Fixpoint lstrip (s : string) : string :=
  match s with
  | EmptyString => EmptyString
  | String c r => if isspace c then lstrip r else s
  end.

(** [s.rstrip()] *)
Fixpoint rstrip (s : string) : string :=
  match s with
  | EmptyString => EmptyString
  | String c r =>
      match rstrip r with
      | EmptyString => if isspace c then EmptyString else String c EmptyString
      | r' => String c r'
      end
  end.

(** [s.strip()] *)
Definition strip (s : string) : string := rstrip (lstrip s).

(** [s.splitlines()]: CR LF counts as one boundary, and a boundary at the
    very end opens no further line. *)
Fixpoint splitlines (s : string) : list string :=
  match s with
  | EmptyString => []
  | String c r =>
      if islinebreak c then
        EmptyString ::
          match r with
          | String d r' =>
              if Ascii.eqb c CR && Ascii.eqb d LF then splitlines r'
              else splitlines r
          | EmptyString => []
          end
      else
        match splitlines r with
        | [] => [String c EmptyString]
        | l :: ls => String c l :: ls
        end
  end.

(** [s.split(sep, maxsplit)] for a non-empty [sep]. *)
Fixpoint split_n (sep : string) (maxsplit : nat) (s : string) : list string :=
  match maxsplit with
  | O => [s]
  | S k =>
      match partition sep s with
      | None => [s]
      | Some (a, b) => a :: split_n sep k b
      end
  end.

(** [sep.join(xs)] *)
Fixpoint join (sep : string) (xs : list string) : string :=
  match xs with
  | [] => EmptyString
  | [x] => x
  | x :: r => x ++ sep ++ join sep r
  end.

(** [s.replace(old, new, count)] for a non-empty [old]: occurrences are
    found left to right, each search resuming after the previous
    occurrence, and at most [count] of them are replaced. *)
Fixpoint replace_n (old new : string) (count : nat) (s : string) : string :=
  match count with
  | O => s
  | S k =>
      match partition old s with
      | None => s
      | Some (a, b) => a ++ new ++ replace_n old new k b
      end
  end.

(** [s.replace(old, new)]: no bound on the number of replacements; a
    string of length [n] holds at most [n] occurrences of a non-empty
    [old]. *)
Definition replace (old new s : string) : string :=
  replace_n old new (length s) s.

(** [s.split(sep)] for a non-empty [sep]: no bound on the number of
    splits. *)
Definition split (sep s : string) : list string :=
  split_n sep (length s) s.

(** Keep the characters that satisfy [f]. *)
Fixpoint filter (f : ascii -> bool) (s : string) : string :=
  match s with
  | EmptyString => EmptyString
  | String c r => if f c then String c (filter f r) else filter f r
  end.

End PyStr.

(* ------------------------------------------------------------------ *)
(** ** The pattern of the [:style()] clause *)
(* ------------------------------------------------------------------ *)

(** [re.match(r'^(.+?):style\((.+)\)$', s)] as a backtracking matcher in
    continuation-passing style.  Each combinator takes the rest of the
    pattern as its continuation and tries its alternatives in the order
    of the regular-expression engine: the lazy quantifier the shortest
    repetition first, the greedy one the longest first. *)
Module StyleRegex.
Import PyStr.

(** [.] matches every character but the line feed. *)
Definition dot (c : ascii) : bool := negb (Ascii.eqb c LF).

(** [(.+?)]: one character, then as few more as the continuation needs. *)
Fixpoint dot_plus_lazy {R} (s : string) (k : string -> string -> option R)
  : option R :=
  match s with
  | EmptyString => None
  | String c r =>
      if dot c then
        match k (String c EmptyString) r with
        | Some x => Some x
        | None => dot_plus_lazy r (fun g rest => k (String c g) rest)
        end
      else None
  end.

(** [(.+)]: as many characters as possible, giving them back one at a
    time while the continuation fails. *)
Fixpoint dot_plus_greedy {R} (s : string) (k : string -> string -> option R)
  : option R :=
  match s with
  | EmptyString => None
  | String c r =>
      if dot c then
        match dot_plus_greedy r (fun g rest => k (String c g) rest) with
        | Some x => Some x
        | None => k (String c EmptyString) r
        end
      else None
  end.

(** A literal piece of the pattern. *)
Definition lit {R} (p s : string) (k : string -> option R) : option R :=
  if startswith p s then k (drop (length p) s) else None.

(** [$]: the end of the string, or just before a line feed that ends it. *)
Definition at_end (s : string) : bool :=
  match s with
  | EmptyString => true
  | String c EmptyString => Ascii.eqb c LF
  | _ => false
  end.

(** The pattern after the second group: [\)$]. *)
Definition k_tail (g1 g2 r3 : string) : option (string * string) :=
  lit ")" r3 (fun r4 => if at_end r4 then Some (g1, g2) else None).

(** The pattern after the first group: [:style\((.+)\)$]. *)
Definition k_mid (g1 r1 : string) : option (string * string) :=
  lit ":style(" r1 (fun r2 => dot_plus_greedy r2 (k_tail g1)).

(** The whole pattern; the match object is reduced to its two groups. *)
Definition style_match (s : string) : option (string * string) :=
  dot_plus_lazy s k_mid.

End StyleRegex.

(* ------------------------------------------------------------------ *)
(** ** The filter parser *)
(* ------------------------------------------------------------------ *)

Module Parser.
Import PyStr StyleRegex.

(** A rule is the tuple [(selector, css_properties)]. *)
Definition Rule : Type := string * string.

(** An entry of [invalid_lines] or [skipped_lines]:
    [(line_num, line, reason)]. *)
Definition Diag : Type := nat * string * string.

(** A [defaultdict(list)]: keys in insertion order, [d[k].append(v)]
    extends the list of an existing key in place and otherwise adds the
    key at the end. *)
Definition ListDict (V : Type) : Type := list (string * list V).

Fixpoint dict_append {V} (k : string) (v : V) (d : ListDict V) : ListDict V :=
  match d with
  | [] => [(k, [v])]
  | (k', vs) :: d' =>
      if String.eqb k' k then (k', (vs ++ [v])%list) :: d'
      else (k', vs) :: dict_append k v d'
  end.

(** The four collections [parse_filters] fills and returns. *)
Record ParseState : Type := mkState {
  domain_map : ListDict Rule;
  global_selectors : list Rule;
  invalid_lines : list Diag;
  skipped_lines : list Diag
}.

Definition empty_state : ParseState := mkState [] [] [] [].

(** Exceptions the string and list operations of the loop can raise. *)
Inductive Exn : Type :=
| IndexError
| ValueError.

(** [str(e)] *)
Definition str_exn (e : Exn) : string :=
  match e with
  | IndexError => "list index out of range"
  | ValueError => "empty separator"
  end.

(** Computations over the parser state that may raise; the state reached
    when the exception is raised is kept, as the lists are mutated in
    place. *)
Definition M (A : Type) : Type := ParseState -> (Exn + A) * ParseState.

Definition ret {A} (a : A) : M A := fun st => (inr a, st).

Definition raise {A} (e : Exn) : M A := fun st => (inl e, st).

Definition bind {A B} (m : M A) (f : A -> M B) : M B :=
  fun st =>
    match m st with
    | (inl e, st') => (inl e, st')
    | (inr a, st') => f a st'
    end.

(** [try: body except Exception as e: handler(e)] *)
Definition try_except {A} (body : M A) (handler : Exn -> M A) : M A :=
  fun st =>
    match body st with
    | (inl e, st') => handler e st'
    | (inr a, st') => (inr a, st')
    end.

Definition modify (f : ParseState -> ParseState) : M unit :=
  fun st => (inr tt, f st).

Declare Scope parse_scope.
Delimit Scope parse_scope with parse.
Notation "x <- m ;; k" := (bind m (fun x => k))
  (at level 61, m at next level, right associativity) : parse_scope.
Notation "m ;; k" := (bind m (fun _ => k))
  (at level 61, right associativity) : parse_scope.

(** [for x in xs: body(x)] *)
Fixpoint for_each {X} (body : X -> M unit) (xs : list X) : M unit :=
  match xs with
  | [] => ret tt
  | x :: r => bind (body x) (fun _ => for_each body r)
  end.

(** [xs[i]] *)
Definition index {A} (xs : list A) (i : nat) : M A :=
  match nth_error xs i with
  | Some x => ret x
  | None => raise IndexError
  end.

(** [s.split(sep)] and [s.split(sep, n)]; an empty separator is a
    [ValueError]. *)
Definition py_split (sep s : string) (maxsplit : option nat) : M (list string) :=
  match sep with
  | EmptyString => raise ValueError
  | _ =>
      ret (match maxsplit with
           | Some n => split_n sep n s
           | None => split sep s
           end)
  end.

Definition append_global (r : Rule) : M unit :=
  modify (fun st => mkState (domain_map st) (global_selectors st ++ [r])%list
                            (invalid_lines st) (skipped_lines st)).

Definition append_domain (d : string) (r : Rule) : M unit :=
  modify (fun st => mkState (dict_append d r (domain_map st))
                            (global_selectors st)
                            (invalid_lines st) (skipped_lines st)).

Definition append_invalid (x : Diag) : M unit :=
  modify (fun st => mkState (domain_map st) (global_selectors st)
                            (invalid_lines st ++ [x])%list (skipped_lines st)).

Definition append_skipped (x : Diag) : M unit :=
  modify (fun st => mkState (domain_map st) (global_selectors st)
                            (invalid_lines st) (skipped_lines st ++ [x])%list).

Definition HIDE : string := "display: none !important".

Local Open Scope parse_scope.

(** The last statement of the [try] block: the rule goes to the global
    list when no domain is given, and otherwise to the list of every
    domain of the comma-separated [domains_part]. *)
Definition store_rule (domains_part : string) (rule : Rule) : M unit :=
  if String.eqb domains_part "" then append_global rule
  else
    domains <- py_split "," domains_part None ;;
    for_each (fun domain => append_domain (strip domain) rule) domains.

(** The body of the [try] block, for a stripped [line]. *)
Definition cosmetic_rule (line_num : nat) (line : string) : M unit :=
  parts <- py_split "##" line (Some 1) ;;
  p0 <- index parts 0 ;;
  p1 <- index parts 1 ;;
  let domains_part := strip p0 in
  let selector_part := strip p1 in
  if String.eqb selector_part "" then
    append_invalid (line_num, line, "Empty selector")
  else if contains ":style(" selector_part then
    match style_match selector_part with
    | Some (g1, g2) => store_rule domains_part (strip g1, strip g2)
    | None => append_invalid (line_num, line, "Invalid :style() syntax")
    end
  else store_rule domains_part (selector_part, HIDE).

(** The [try] statement: an exception of the body makes the line an
    invalid one, with the text of the exception as the reason. *)
Definition guarded_rule (line_num : nat) (line : string) : M unit :=
  try_except (cosmetic_rule line_num line)
             (fun e => append_invalid (line_num, line, str_exn e)).

(** One turn of the loop over the numbered lines. *)
Definition process_line (numbered : nat * string) : M unit :=
  let line_num := fst numbered in
  let line := strip (snd numbered) in
  if String.eqb line "" || startswith "!" line then ret tt
  else if startswith "||" line || startswith "@@" line || startswith "/" line
  then append_skipped (line_num, line, "Network filter")
  else
    proceed <-
      (if contains "##" line then
         parts <- py_split "##" line None ;;
         pre_hash <- index parts 0 ;;
         if contains "$" pre_hash then
           append_skipped (line_num, line, "Network filter with options") ;;
           ret false
         else ret true
       else
         if contains "$" line || startswith "|" line then
           append_skipped (line_num, line, "Network filter") ;; ret false
         else
           append_invalid (line_num, line, "Missing ## separator") ;;
           ret false) ;;
    if proceed : bool then
      guarded_rule line_num line
    else ret tt.

(** [enumerate(xs, start)] *)
Fixpoint enumerate {A} (xs : list A) (start : nat) : list (nat * A) :=
  match xs with
  | [] => []
  | x :: r => (start, x) :: enumerate r (S start)
  end.

(** The loop of [parse_filters] over already split lines. *)
Definition scan (lines : list string) : M unit :=
  for_each process_line (enumerate lines 1).

(** [parse_filters], with the content of the input widget as argument:
    the exception that escapes, or the four collections. *)
Definition parse_filters (widget_text : string) : Exn + ParseState :=
  let raw_text := strip widget_text in
  match scan (splitlines raw_text) empty_state with
  | (inl e, _) => inl e
  | (inr _, st) => inr st
  end.

End Parser.

(* ------------------------------------------------------------------ *)
(** ** Rule deduplication *)
(* ------------------------------------------------------------------ *)

Module Dedupe.
Import PyStr Parser.

Definition rule_eqb (a b : Rule) : bool :=
  String.eqb (fst a) (fst b) && String.eqb (snd a) (snd b).

(** [rule in seen] *)
Definition mem (r : Rule) (seen : list Rule) : bool :=
  existsb (rule_eqb r) seen.

(** The loop of [dedupe_rules]: the pair [(seen, unique)] after each
    rule. *)
Definition dedupe_step (acc : list Rule * list Rule) (rule : Rule)
  : list Rule * list Rule :=
  let (seen, unique) := acc in
  if negb (mem rule seen) then (rule :: seen, (unique ++ [rule])%list)
  else (seen, unique).

Definition dedupe_loop (rules : list Rule) : list Rule * list Rule :=
  fold_left dedupe_step rules ([], []).

(** The sort key [(x[1] != "display: none !important", x[0])]. *)
Definition sort_key (x : Rule) : bool * string :=
  (negb (String.eqb (snd x) HIDE), fst x).

(** [<] on the key tuples: the first components that differ decide, and
    [False < True]. *)
Definition key_ltb (a b : bool * string) : bool :=
  if Bool.eqb (fst a) (fst b) then String.ltb (snd a) (snd b)
  else negb (fst a) && fst b.

(** [sorted(xs, key=sort_key)] is a stable sort that compares keys with
    [<] only.  The result of a stable sort does not depend on the method;
    here each element is inserted in front of the sorted rest, after the
    elements of strictly smaller key. *)
Fixpoint insert_by_key (x : Rule) (l : list Rule) : list Rule :=
  match l with
  | [] => [x]
  | y :: l' =>
      if key_ltb (sort_key y) (sort_key x) then y :: insert_by_key x l'
      else x :: l
  end.

Fixpoint sorted_by_key (l : list Rule) : list Rule :=
  match l with
  | [] => []
  | x :: l' => insert_by_key x (sorted_by_key l')
  end.

Definition dedupe_rules (rules : list Rule) : list Rule :=
  let (_, unique) := dedupe_loop rules in
  sorted_by_key unique.

End Dedupe.

(* ------------------------------------------------------------------ *)
(** ** UserCSS generation *)
(* ------------------------------------------------------------------ *)

Module UserCSS.
Import PyStr Parser.

Definition NL : string := String LF EmptyString.
Definition QUOTE : string := String DQUOTE EmptyString.

(** [css_groups]: the selectors of each declaration, the declarations in
    the order in which they are first met. *)
Definition css_groups (rules : list Rule) : ListDict string :=
  fold_left (fun groups r => dict_append (snd r) (fst r) groups) rules [].

(** One CSS block of [css_blocks]. *)
Definition css_block (group : string * list string) : string :=
  let (css_props, selectors) := group in
  let selector_block := join ("," ++ NL ++ "    ") selectors in
  "    " ++ selector_block ++ " {" ++ NL ++
  "        " ++ css_props ++ ";" ++ NL ++
  "    }".

Definition css_blocks (rules : list Rule) : list string :=
  map css_block (css_groups rules).

Definition all_rules (rules : list Rule) : string :=
  join (NL ++ NL) (css_blocks rules).

Definition header (name : string) : string :=
  "/* ==UserStyle==" ++ NL ++
  "@name           " ++ name ++ " - Cleanup" ++ NL ++
  "@namespace      ublock-to-stylus-converter" ++ NL ++
  "@version        1.0.0" ++ NL ++
  "@description    Converted from uBlock Origin cosmetic filters" ++ NL ++
  "@author         uBlock Converter" ++ NL ++
  "@license        MIT" ++ NL ++
  "==/UserStyle== */" ++ NL ++
  NL.

Definition generate_usercss (name : string) (rules : list Rule)
  (is_global : bool) : string :=
  let css_body :=
    if is_global then all_rules rules
    else "@-moz-document domain(" ++ QUOTE ++ name ++ QUOTE ++ ") {" ++ NL ++
         all_rules rules ++ NL ++
         "}"
  in
  header name ++ css_body.

End UserCSS.

(* ------------------------------------------------------------------ *)
(** ** Stylus JSON generation *)
(* ------------------------------------------------------------------ *)

Module StylusJson.
Import PyStr Parser Dedupe UserCSS.

(** The values [json.dump] accepts, as far as the export builds them; an
    object keeps its keys in insertion order. *)
#[local] Unset Elimination Schemes.
Inductive Json : Type :=
| JBool (b : bool)
| JInt (z : Z)
| JStr (s : string)
| JList (items : list Json)
| JObj (fields : list (string * Json)).
#[local] Set Elimination Schemes.

(** What the generator reads from outside: the successive values of
    [int(time.time() * 1000)] and of [str(uuid.uuid4())], by call
    number. *)
Record Env : Type := mkEnv {
  now_ms : nat -> Z;
  uuid4 : nat -> string
}.

(** How many times the clock and the identifier source were read. *)
Record Calls : Type := mkCalls {
  time_calls : nat;
  uuid_calls : nat
}.

Definition settings_obj : Json :=
  JObj [("settings",
         JObj [("disableAll", JBool false);
               ("exposeIframes", JBool false);
               ("newStyleAsUsercss", JBool false);
               ("openEditInWindow", JBool false);
               ("show-badge", JBool true);
               ("styleViaASS", JBool false);
               ("urlInstaller", JBool true);
               ("sync.enabled", JStr "none");
               ("updateInterval", JInt 24)]);
        ("order", JObj [("main", JList []); ("prio", JList [])])].

Definition GLOBAL_NAME : string := "Global Rules - uBlock Converted".

Definition create_stylus_style_entry (env : Env) (name : string)
  (rules : list Rule) (domains : option (list string)) (style_id : Z)
  (is_global : bool) (c : Calls) : Json * Calls :=
  let now := now_ms env (time_calls c) in
  let c1 := mkCalls (S (time_calls c)) (uuid_calls c) in
  let css_code :=
    if is_global then
      "/* Rules converted from uBlock Origin */" ++ NL ++ NL ++ all_rules rules
    else
      "/* Rules for " ++ name ++ " */" ++ NL ++ NL ++ all_rules rules in
  let id := uuid4 env (uuid_calls c1) in
  let c2 := mkCalls (time_calls c1) (S (uuid_calls c1)) in
  let section :=
    match is_global, domains with
    | false, Some (d :: ds) =>
        [("code", JStr css_code);
         ("domains", JList (map JStr (d :: ds)))]
    | _, _ => [("code", JStr css_code)]
    end in
  (JObj [("enabled", JBool true);
         ("installDate", JInt now);
         ("name", JStr name);
         ("sections", JList [JObj section]);
         ("updateDate", JInt now);
         ("_id", JStr id);
         ("_rev", JInt now);
         ("id", JInt style_id)],
   c2).

(** The loop over [enumerate(domain_map.items())]. *)
Fixpoint domain_entries (env : Env) (base_id : Z)
  (items : list (nat * (string * list Rule))) (c : Calls)
  : list Json * Calls :=
  match items with
  | [] => ([], c)
  | (idx, (domain, rules)) :: rest =>
      let unique_rules := dedupe_rules rules in
      let domains :=
        if negb (startswith "www." domain) then [domain; "www." ++ domain]
        else [domain] in
      let (entry, c') :=
        create_stylus_style_entry env domain unique_rules (Some domains)
          (base_id + Z.of_nat idx) false c in
      let (entries, c'') := domain_entries env base_id rest c' in
      (entry :: entries, c'')
  end.

Definition generate_stylus_json (env : Env) (domain_map : ListDict Rule)
  (global_selectors : list Rule) (c : Calls) : list Json * Calls :=
  let base_id := (now_ms env (time_calls c) mod 1000000)%Z in
  let c0 := mkCalls (S (time_calls c)) (uuid_calls c) in
  let (entries, c1) :=
    domain_entries env base_id (enumerate domain_map 0) c0 in
  match global_selectors with
  | [] => ((settings_obj :: entries)%list, c1)
  | _ :: _ =>
      let unique_global := dedupe_rules global_selectors in
      let (global_style, c2) :=
        create_stylus_style_entry env GLOBAL_NAME unique_global None
          (base_id + Z.of_nat (List.length domain_map)) true c1 in
      ((settings_obj :: entries ++ [global_style])%list, c2)
  end.

End StylusJson.

(* ------------------------------------------------------------------ *)
(** ** File name sanitizer *)
(* ------------------------------------------------------------------ *)

Module Sanitize.
Import PyStr.

(** [c in (' ', '.', '_', '-')] *)
Definition is_safe_punct (c : ascii) : bool :=
  Ascii.eqb c " " || Ascii.eqb c "." || Ascii.eqb c "_" || Ascii.eqb c "-".

Definition keep (c : ascii) : bool :=
  isalpha c || isdigit c || is_safe_punct c.

Definition sanitize_filename (filename : string) : string :=
  let filename :=
    replace "http://" "" (replace "https://" "" (replace "www." "" filename)) in
  rstrip (PyStr.filter keep filename).

End Sanitize.

(* ------------------------------------------------------------------ *)
(** ** Vocabulary of the specification *)
(* ------------------------------------------------------------------ *)

(** The notions the specification uses to speak about the functions
    above.  None of them is used by the functions themselves. *)
Module Spec.
Import PyStr StyleRegex Parser Dedupe UserCSS StylusJson Sanitize.

(** *** Lines *)

(** A line that is neither empty nor a comment once trimmed. *)
Definition significant (raw : string) : bool :=
  let line := strip raw in
  negb (String.eqb line "" || startswith "!" line).

(** Number of values held under all the keys. *)
Definition dict_total {V} (d : ListDict V) : nat :=
  list_sum (map (fun kv => List.length (snd kv)) d).

(** Number of (domain, rule) and (global, rule) associations held. *)
Definition rule_total (st : ParseState) : nat :=
  (List.length (global_selectors st) + dict_total (domain_map st))%nat.

(** Every rule held, global or of some domain. *)
Definition held_rules (st : ParseState) : list Rule :=
  (global_selectors st ++ List.concat (map snd (domain_map st)))%list.

(** The line adds at least one rule association when it is processed. *)
Definition contributes_rule (raw : string) : bool :=
  (0 <? rule_total (snd (process_line (0, raw) empty_state)))%nat.

(** The three ways a significant line is accounted for, as the change
    from the state before the line to the state after it. *)
Definition to_rules (st st' : ParseState) : Prop :=
  (rule_total st < rule_total st')%nat
  /\ invalid_lines st' = invalid_lines st
  /\ skipped_lines st' = skipped_lines st.

Definition to_invalid (n : nat) (line : string) (st st' : ParseState) : Prop :=
  (exists reason, invalid_lines st' = (invalid_lines st ++ [(n, line, reason)])%list)
  /\ domain_map st' = domain_map st
  /\ global_selectors st' = global_selectors st
  /\ skipped_lines st' = skipped_lines st.

Definition to_skipped (n : nat) (line : string) (st st' : ParseState) : Prop :=
  (exists reason, skipped_lines st' = (skipped_lines st ++ [(n, line, reason)])%list)
  /\ domain_map st' = domain_map st
  /\ global_selectors st' = global_selectors st
  /\ invalid_lines st' = invalid_lines st.

Definition exactly_one (A B C : Prop) : Prop :=
  (A /\ ~ B /\ ~ C) \/ (~ A /\ B /\ ~ C) \/ (~ A /\ ~ B /\ C).

(** *** Strings without outer whitespace *)

Definition first_char (s : string) : option ascii :=
  match s with
  | EmptyString => None
  | String c _ => Some c
  end.

Fixpoint last_char (s : string) : option ascii :=
  match s with
  | EmptyString => None
  | String c EmptyString => Some c
  | String _ r => last_char r
  end.

Definition is_space_opt (c : option ascii) : bool :=
  match c with
  | Some c => isspace c
  | None => false
  end.

(** Non-empty, and neither the first nor the last character is
    whitespace. *)
Definition trimmed_nonempty (s : string) : Prop :=
  s <> "" /\ is_space_opt (first_char s) = false
  /\ is_space_opt (last_char s) = false.

(** No character of [s] is a line feed. *)
Fixpoint no_line_feed (s : string) : bool :=
  match s with
  | EmptyString => true
  | String c r => dot c && no_line_feed r
  end.

(** *** The [:style()] wrapper *)

(** [s] reads: a selector, [:style(], a declaration, and [)] at the very
    end, selector and declaration of one character or more. *)
Definition StyleSplit (s g1 g2 : string) : Prop :=
  s = g1 ++ ":style(" ++ g2 ++ ")" /\ g1 <> "" /\ g2 <> "".

(** The split at the first [:style(] that allows one. *)
Definition FirstStyleSplit (s g1 g2 : string) : Prop :=
  StyleSplit s g1 g2
  /\ forall h1 h2, StyleSplit s h1 h2 -> (length g1 <= length h1)%nat.

(** The split at the last [:style(] that allows one. *)
Definition LastStyleSplit (s g1 g2 : string) : Prop :=
  StyleSplit s g1 g2
  /\ forall h1 h2, StyleSplit s h1 h2 -> (length h1 <= length g1)%nat.

(** *** Deduplication *)

(** First occurrences: an element is kept and its later copies are
    dropped. *)
Fixpoint first_occurrences {A} (eqb : A -> A -> bool) (l : list A) : list A :=
  match l with
  | [] => []
  | x :: r => x :: List.filter (fun y => negb (eqb x y)) (first_occurrences eqb r)
  end.

Definition is_hide (r : Rule) : bool := String.eqb (snd r) HIDE.

(** Ascending selector text. *)
Definition selector_le (a b : Rule) : Prop := String.leb (fst a) (fst b) = true.

(** [a] may stand before [b] in the sorted list: the key of [b] is not
    below the key of [a]. *)
Definition key_le (a b : Rule) : Prop :=
  key_ltb (sort_key b) (sort_key a) = false.

(** *** Grouping by declaration *)

(** The groups as the specification words them: one group per distinct
    declaration, in the order in which the declarations are first seen,
    holding the selectors of the rules with that declaration. *)
Definition group_by_declaration (rules : list Rule) : ListDict string :=
  map (fun d => (d, map fst (List.filter (fun r => String.eqb (snd r) d) rules)))
      (first_occurrences String.eqb (map snd rules)).

(** The CSS rule of a group, written out. *)
Definition css_rule_text (declaration : string) (selectors : list string) : string :=
  "    " ++ join ("," ++ NL ++ "    ") selectors ++ " {" ++ NL ++
  "        " ++ declaration ++ ";" ++ NL ++
  "    }".

(** Number of times [selector] stands in the selector list of the block
    of [declaration], and in the selector lists of all blocks. *)
Definition times_in_block (selector declaration : string)
  (groups : ListDict string) : nat :=
  list_sum (map (fun g => if String.eqb (fst g) declaration
                          then count_occ string_dec (snd g) selector else O)
                groups).

Definition times_in_blocks (selector : string) (groups : ListDict string) : nat :=
  list_sum (map (fun g => count_occ string_dec (snd g) selector) groups).

(** Number of blocks whose selector list holds [selector]. *)
Definition blocks_holding (selector : string) (groups : ListDict string) : nat :=
  List.length (List.filter (fun g => existsb (String.eqb selector) (snd g)) groups).

Definition rule_dec (a b : Rule) : {a = b} + {a <> b}.
Proof. decide equality; apply string_dec. Defined.

(** Two rules are equal: the same selector and the same declaration. *)
Definition same_rule (a b : Rule) : bool :=
  if rule_dec a b then true else false.

(** *** The sanitizer as the specification words it *)

(** Only the first occurrence of each of the three substrings is
    removed. *)
Definition sanitize_first_only (filename : string) : string :=
  let filename :=
    replace_n "http://" "" 1
      (replace_n "https://" "" 1 (replace_n "www." "" 1 filename)) in
  rstrip (PyStr.filter keep filename).

(** [t] is [s] without the occurrences of [old] that a scan from left to
    right meets, the scan resuming after each occurrence. *)
Inductive RemovedAll (old : string) : string -> string -> Prop :=
| removed_none s :
    contains old s = false -> RemovedAll old s s
| removed_first a b t :
    (forall a' b', a ++ old ++ b = a' ++ old ++ b' -> (length a <= length a')%nat) ->
    RemovedAll old b t ->
    RemovedAll old (a ++ old ++ b) (a ++ t).

Fixpoint all_chars (f : ascii -> bool) (s : string) : bool :=
  match s with
  | EmptyString => true
  | String c r => f c && all_chars f r
  end.

(** *** Reading the export *)

Definition get_field (k : string) (j : Json) : option Json :=
  match j with
  | JObj fields =>
      match List.find (fun kv => String.eqb (fst kv) k) fields with
      | Some kv => Some (snd kv)
      | None => None
      end
  | _ => None
  end.

Definition entry_name (j : Json) : option string :=
  match get_field "name" j with
  | Some (JStr s) => Some s
  | _ => None
  end.

Definition entry_id (j : Json) : option Z :=
  match get_field "id" j with
  | Some (JInt z) => Some z
  | _ => None
  end.

(** Whether some section of the entry has a [domains] field. *)
Definition has_domains_field (j : Json) : bool :=
  match get_field "sections" j with
  | Some (JList sections) =>
      existsb (fun s => match get_field "domains" s with
                        | Some _ => true
                        | None => false
                        end) sections
  | _ => false
  end.

(** The base of the identifiers of one export. *)
Definition base_id (env : Env) (c : Calls) : Z :=
  (now_ms env (time_calls c) mod 1000000)%Z.

End Spec.

(* ------------------------------------------------------------------ *)
(** ** State and exceptions, for any state *)
(* ------------------------------------------------------------------ *)

(** The computations of [Parser.M] over a state of any type, for the
    other loops of the program. *)
Module StateExn.
Import PyStr.

Section Monad.
Context {S : Type}.

Definition ST (A : Type) : Type := S -> (Parser.Exn + A) * S.

Definition st_ret {A} (a : A) : ST A := fun st => (inr a, st).

Definition st_raise {A} (e : Parser.Exn) : ST A := fun st => (inl e, st).

Definition st_bind {A B} (m : ST A) (f : A -> ST B) : ST B :=
  fun st =>
    match m st with
    | (inl e, st') => (inl e, st')
    | (inr a, st') => f a st'
    end.

(** [try: body except: handler] *)
Definition st_try_except {A} (body : ST A) (handler : Parser.Exn -> ST A) : ST A :=
  fun st =>
    match body st with
    | (inl e, st') => handler e st'
    | (inr a, st') => (inr a, st')
    end.

Definition st_modify (f : S -> S) : ST unit := fun st => (inr tt, f st).

(** [for x in xs: body(x)] *)
Fixpoint st_for_each {X} (body : X -> ST unit) (xs : list X) : ST unit :=
  match xs with
  | [] => st_ret tt
  | x :: r => st_bind (body x) (fun _ => st_for_each body r)
  end.

(** [xs[i]] *)
Definition st_index {A} (xs : list A) (i : nat) : ST A :=
  match nth_error xs i with
  | Some x => st_ret x
  | None => st_raise Parser.IndexError
  end.

(** [s.split(sep)] and [s.split(sep, n)] *)
Definition st_split (sep s : string) (maxsplit : option nat) : ST (list string) :=
  match sep with
  | EmptyString => st_raise Parser.ValueError
  | _ =>
      st_ret (match maxsplit with
           | Some n => split_n sep n s
           | None => split sep s
           end)
  end.

End Monad.

Declare Scope st_scope.
Delimit Scope st_scope with st.
Notation "x <- m ;; k" := (st_bind m (fun x => k))
  (at level 61, m at next level, right associativity) : st_scope.
Notation "m ;; k" := (st_bind m (fun _ => k))
  (at level 61, right associativity) : st_scope.

End StateExn.

(* ------------------------------------------------------------------ *)
(** ** The live statistics *)
(* ------------------------------------------------------------------ *)

Module LiveStats.
Import PyStr StateExn.

(** The local variables of [update_live_stats]; the set [domains] is
    kept as a list without repetition. *)
Record Stats : Type := mkStats {
  domains : list string;
  global_count : nat;
  total_valid : nat;
  style_count : nat;
  skipped_count : nat;
  invalid_count : nat
}.

Definition zero_stats : Stats := mkStats [] 0 0 0 0 0.

(** [domains.add(x)] *)
Definition set_add (x : string) (s : list string) : list string :=
  if existsb (String.eqb x) s then s else (s ++ [x])%list.

Definition add_domain (d : string) : ST unit :=
  st_modify (fun st => mkStats (set_add d (domains st)) (global_count st)
                            (total_valid st) (style_count st)
                            (skipped_count st) (invalid_count st)).

Definition incr_global : ST unit :=
  st_modify (fun st => mkStats (domains st) (S (global_count st))
                            (total_valid st) (style_count st)
                            (skipped_count st) (invalid_count st)).

Definition incr_total : ST unit :=
  st_modify (fun st => mkStats (domains st) (global_count st)
                            (S (total_valid st)) (style_count st)
                            (skipped_count st) (invalid_count st)).

Definition incr_style : ST unit :=
  st_modify (fun st => mkStats (domains st) (global_count st)
                            (total_valid st) (S (style_count st))
                            (skipped_count st) (invalid_count st)).

Definition incr_skipped : ST unit :=
  st_modify (fun st => mkStats (domains st) (global_count st)
                            (total_valid st) (style_count st)
                            (S (skipped_count st)) (invalid_count st)).

Definition incr_invalid : ST unit :=
  st_modify (fun st => mkStats (domains st) (global_count st)
                            (total_valid st) (style_count st)
                            (skipped_count st) (S (invalid_count st))).

Local Open Scope st_scope.

(** The body of the [try] block, for a stripped [line]. *)
Definition count_rule (line : string) : ST unit :=
  parts <- st_split "##" line (Some 1) ;;
  p0 <- st_index parts 0 ;;
  p1 <- st_index parts 1 ;;
  let domain_part := strip p0 in
  let selector := strip p1 in
  if String.eqb selector "" then incr_invalid
  else
    (if contains ":style(" selector then incr_style else st_ret tt) ;;
    (if String.eqb domain_part "" then incr_global
     else
       ds <- st_split "," domain_part None ;;
       st_for_each (fun d => add_domain (strip d)) ds) ;;
    incr_total.

(** One turn of the loop over the lines. *)
Definition count_line (raw : string) : ST unit :=
  let line := strip raw in
  if String.eqb line "" || startswith "!" line then st_ret tt
  else
    network <-
      (if startswith "||" line || startswith "@@" line || startswith "/" line
       then st_ret true
       else
         parts <- st_split "##" line None ;;
         pre_hash <- st_index parts 0 ;;
         st_ret (contains "$" pre_hash)) ;;
    if network : bool then incr_skipped
    else if contains "##" line then
      st_try_except (count_rule line) (fun _ => incr_invalid)
    else if negb (String.eqb line "") && negb (startswith "!" line) then
      incr_invalid
    else st_ret tt.

(** The numbers shown by the six labels, in the order [total],
    [domains], [global], [styles], [skipped], [invalid]; the labels show
    them through [str]. *)
Record Labels : Type := mkLabels {
  lbl_total : nat;
  lbl_domains : nat;
  lbl_global : nat;
  lbl_styles : nat;
  lbl_skipped : nat;
  lbl_invalid : nat
}.

Definition labels_of (st : Stats) : Labels :=
  mkLabels (total_valid st) (List.length (domains st)) (global_count st)
           (style_count st) (skipped_count st) (invalid_count st).

(** [update_live_stats], with the content of the input widget as
    argument: the exception that escapes, or what the labels show. *)
Definition update_live_stats (widget_text : string) : Parser.Exn + Labels :=
  let raw_text := strip widget_text in
  if String.eqb raw_text "" then inr (mkLabels 0 0 0 0 0 0)
  else
    match st_for_each count_line (splitlines raw_text) zero_stats with
    | (inl e, _) => inl e
    | (inr _, st) => inr (labels_of st)
    end.

End LiveStats.

(* ------------------------------------------------------------------ *)
(** ** The files of an export *)
(* ------------------------------------------------------------------ *)

Module Files.
Import PyStr Parser Dedupe UserCSS Sanitize.

(** An archive or a directory: named contents.  [ZipFile.writestr] adds
    a member at the end, also when the name is already there. *)
Definition Archive : Type := list (string * string).

Definition writestr (name content : string) (zf : Archive) : Archive :=
  (zf ++ [(name, content)])%list.

(** The members [export_as_zip] writes: one per domain, in the order of
    the domain map, then the global file when there are global rules. *)
Definition zip_members (domain_map : ListDict Rule)
  (global_selectors : list Rule) : Archive :=
  let zf :=
    fold_left
      (fun zf kv =>
         let unique_rules := dedupe_rules (snd kv) in
         let filename := sanitize_filename (fst kv) ++ ".user.css" in
         let content := generate_usercss (fst kv) unique_rules false in
         writestr filename content zf)
      domain_map [] in
  match global_selectors with
  | [] => zf
  | _ :: _ =>
      let unique_global := dedupe_rules global_selectors in
      let content := generate_usercss "Global Rules" unique_global true in
      writestr "Global_Rules.user.css" content zf
  end.

(** [file_count] of [export_as_zip] *)
Definition file_count (domain_map : ListDict Rule)
  (global_selectors : list Rule) : nat :=
  (List.length domain_map
   + match global_selectors with [] => 0 | _ :: _ => 1 end)%nat.

(** The output folder of [convert_and_save]: file names with their
    contents.  Opening a file for writing replaces the file of that
    name. *)
Fixpoint write_file (name content : string) (dir : Archive) : Archive :=
  match dir with
  | [] => [(name, content)]
  | (n, c) :: dir' =>
      if String.eqb n name then (n, content) :: dir'
      else (n, c) :: write_file name content dir'
  end.

(** What happens in one [try] block of [convert_and_save] at
    [with open(path, "w") as f: f.write(content)]: the file is written;
    or [open] raises and the folder is as before; or [open] has created
    or emptied the file and [f.write] or the closing of the file raises,
    which leaves the file with whatever reached it. *)
Inductive WriteResult : Type :=
| Written
| OpenFailed
| WriteFailed (kept : string).

(** What [convert_and_save] keeps while it writes: the folder, its two
    counters, and the number of [try] blocks entered so far (the
    outcomes of the writes are given by that number). *)
Record SaveState : Type := mkSave {
  folder : Archive;
  attempts : nat;
  files_created : nat;
  total_rules : nat
}.

(** One [try] block of [convert_and_save].  The counters move only
    after the [with] statement has ended normally; any exception is
    caught, and what [open] has done to the file stays. *)
Definition save_file (io : nat -> WriteResult) (name content : string)
  (n_rules : nat) (st : SaveState) : SaveState :=
  match io (attempts st) with
  | Written =>
      mkSave (write_file name content (folder st)) (S (attempts st))
             (S (files_created st)) (total_rules st + n_rules)
  | OpenFailed =>
      mkSave (folder st) (S (attempts st)) (files_created st) (total_rules st)
  | WriteFailed kept =>
      mkSave (write_file name kept (folder st)) (S (attempts st))
             (files_created st) (total_rules st)
  end.

(** The two writing steps of [convert_and_save]. *)
Definition save_all (io : nat -> WriteResult) (domain_map : ListDict Rule)
  (global_selectors : list Rule) (dir : Archive) : SaveState :=
  let st :=
    fold_left
      (fun st kv =>
         let unique_rules := dedupe_rules (snd kv) in
         let filename := sanitize_filename (fst kv) ++ ".user.css" in
         let css_content := generate_usercss (fst kv) unique_rules false in
         save_file io filename css_content (List.length unique_rules) st)
      domain_map (mkSave dir 0 0 0) in
  match global_selectors with
  | [] => st
  | _ :: _ =>
      let unique_global := dedupe_rules global_selectors in
      let css_content := generate_usercss "Global Rules" unique_global true in
      save_file io "Global_Rules.user.css" css_content
                (List.length unique_global) st
  end.

End Files.

(* ------------------------------------------------------------------ *)
(** ** Vocabulary for the further properties *)
(* ------------------------------------------------------------------ *)

Module SpecMore.
Import PyStr StyleRegex Parser Dedupe UserCSS StylusJson Sanitize Spec.
Import LiveStats.

(** [d[k]] when the key is there. *)
Fixpoint dict_get {V} (k : string) (d : ListDict V) : option (list V) :=
  match d with
  | [] => None
  | (k', vs) :: d' => if String.eqb k' k then Some vs else dict_get k d'
  end.

(** The character [c] does not occur in [s]. *)
Definition lacks (c : ascii) (s : string) : bool :=
  all_chars (fun x => negb (Ascii.eqb x c)) s.

(** A key of the domain map: no whitespace at either end, no comma and
    no dollar sign. *)
Definition domain_key_ok (k : string) : Prop :=
  is_space_opt (first_char k) = false
  /\ is_space_opt (last_char k) = false
  /\ lacks "," k = true
  /\ lacks "$" k = true.

(** The keys are distinct and well formed, and no key has an empty
    list. *)
Definition dm_ok (dm : ListDict Rule) : Prop :=
  NoDup (map fst dm)
  /\ Forall (fun kv => snd kv <> [] /\ domain_key_ok (fst kv)) dm.

(** The domain map after the loop over the domains of one line. *)
Definition store_domains (rule : Rule) (ds : list string) (dm : ListDict Rule)
  : ListDict Rule :=
  fold_left (fun dm d => dict_append (strip d) rule dm) ds dm.

(** Equal sort keys. *)
Definition same_key (k : bool * string) (r : Rule) : bool :=
  Bool.eqb (fst (sort_key r)) (fst k) && String.eqb (snd (sort_key r)) (snd k).

(** The reasons [parse_filters] writes itself. *)
Definition invalid_reasons : list string :=
  ["Missing ## separator"; "Empty selector"; "Invalid :style() syntax"].

Definition skipped_reasons : list string :=
  ["Network filter"; "Network filter with options"].

(** The line numbers go up. *)
Definition numbers_increase (ds : list Diag) : Prop :=
  StronglySorted (fun a b => (fst (fst a) < fst (fst b))%nat) ds.

(** What the state holds, counted. *)
Definition state_size (st : ParseState) : nat :=
  (rule_total st + List.length (invalid_lines st)
   + List.length (skipped_lines st))%nat.

(** A string of the export read as a field of an entry. *)
Definition entry_string (k : string) (j : Json) : option string :=
  match get_field k j with
  | Some (JStr s) => Some s
  | _ => None
  end.

Definition entry_int (k : string) (j : Json) : option Z :=
  match get_field k j with
  | Some (JInt z) => Some z
  | _ => None
  end.

(** The last content written under a name. *)
Fixpoint last_written (name : string) (zf : list (string * string))
  : option string :=
  match zf with
  | [] => None
  | (n, c) :: zf' =>
      match last_written name zf' with
      | Some c' => Some c'
      | None => if String.eqb n name then Some c else None
      end
  end.

(** The content of the file of that name, when there is one. *)
Fixpoint read_file (name : string) (dir : list (string * string))
  : option string :=
  match dir with
  | [] => None
  | (n, c) :: dir' => if String.eqb n name then Some c else read_file name dir'
  end.


(** The line is a malformed [:style()] rule for the parser. *)
Definition style_invalid (d : Diag) : bool :=
  String.eqb (snd d) "Invalid :style() syntax".

(** A line the parser skips as a network filter for the one reason
    that it starts with [|]: it starts with none of [||], [@@] and [/],
    and holds neither [##] nor [$]. *)
Definition pipe_only (raw : string) : bool :=
  let line := strip raw in
  significant raw
  && negb (startswith "||" line || startswith "@@" line || startswith "/" line)
  && negb (contains "##" line) && negb (contains "$" line)
  && startswith "|" line.

(** Number of entries of [invalid_lines] that are malformed [:style()]
    rules. *)
Definition style_invalid_count (st : ParseState) : nat :=
  List.length (List.filter style_invalid (invalid_lines st)).

(** The domains counted after the loop over the domains of one line. *)
Definition count_domains (ds : list string) (seen : list string) : list string :=
  fold_left (fun acc d => set_add (strip d) acc) ds seen.

(** The counters after a line the statistics take for a rule, with
    domain part [dp] and selector [sel], both trimmed. *)
Definition count_valid (dp sel : string) (s : Stats) : Stats :=
  mkStats (if String.eqb dp "" then domains s
           else count_domains (split "," dp) (domains s))
          (if String.eqb dp "" then S (global_count s) else global_count s)
          (S (total_valid s))
          (if contains ":style(" sel then S (style_count s) else style_count s)
          (skipped_count s) (invalid_count s).

End SpecMore.

(* ------------------------------------------------------------------ *)
(** ** Facts about the string primitives *)
(* ------------------------------------------------------------------ *)

Module PyStrFacts.
Import PyStr.

#[local] Arguments startswith : simpl never.

Lemma str_app_nil_r (s : string) : s ++ "" = s.
Proof. induction s; simpl; congruence. Qed.

Lemma str_app_assoc (a b c : string) : (a ++ b) ++ c = a ++ b ++ c.
Proof. induction a; simpl; congruence. Qed.

Lemma str_length_app (a b : string) : length (a ++ b) = (length a + length b)%nat.
Proof. induction a; simpl; congruence. Qed.

Lemma str_app_inv_head (a b c : string) : a ++ b = a ++ c -> b = c.
Proof. induction a; simpl; intros H; [assumption | injection H; auto]. Qed.

Lemma startswith_app (p r : string) : startswith p (p ++ r) = true.
Proof.
  unfold startswith. induction p as [|c p IH]; simpl.
  - destruct r; reflexivity.
  - destruct (ascii_dec c c); [assumption | contradiction].
Qed.

Lemma startswith_inv (p s : string) :
  startswith p s = true -> s = p ++ drop (length p) s.
Proof.
  unfold startswith. revert s.
  induction p as [|c p IH]; intros s H; simpl.
  - reflexivity.
  - destruct s as [|d s]; simpl in H; [discriminate|].
    destruct (ascii_dec c d); [|discriminate].
    subst d. f_equal. apply IH, H.
Qed.

Lemma startswith_iff (p s : string) :
  startswith p s = true <-> exists r, s = p ++ r.
Proof.
  split.
  - intros H. eexists. apply startswith_inv, H.
  - intros [r ->]. apply startswith_app.
Qed.

Lemma drop_app (p r : string) : drop (length p) (p ++ r) = r.
Proof. induction p; simpl; [destruct r; reflexivity | assumption]. Qed.

Lemma length_drop (n : nat) (s : string) :
  length (drop n s) = (length s - n)%nat.
Proof.
  revert s. induction n; intros [|c s]; simpl; auto.
Qed.

(** *** [partition]: the first occurrence *)

Lemma partition_some (sep s a b : string) :
  partition sep s = Some (a, b) -> s = a ++ sep ++ b.
Proof.
  revert a b. induction s as [|c s IH]; intros a b; simpl.
  - destruct (startswith sep "") eqn:E; [|discriminate].
    intros [= <- <-]. apply startswith_inv in E. exact E.
  - destruct (startswith sep (String c s)) eqn:E.
    + intros [= <- <-]. apply startswith_inv in E. exact E.
    + destruct (partition sep s) as [[a' b']|]; [|discriminate].
      intros [= <- <-]. simpl. f_equal. apply IH. reflexivity.
Qed.

Lemma partition_first (sep s a b : string) :
  partition sep s = Some (a, b) ->
  forall a' b', s = a' ++ sep ++ b' -> (length a <= length a')%nat.
Proof.
  revert a b. induction s as [|c s IH]; intros a b; simpl.
  - destruct (startswith sep ""); [|discriminate].
    intros [= <- <-] a' b' _. simpl. lia.
  - destruct (startswith sep (String c s)) eqn:E.
    + intros [= <- <-] a' b' _. simpl. lia.
    + destruct (partition sep s) as [[a0 b0]|] eqn:P; [|discriminate].
      intros [= <- <-] a' b' H.
      destruct a' as [|d a'].
      * simpl in H. rewrite H, startswith_app in E. discriminate.
      * simpl in H. injection H as _ H. simpl.
        apply le_n_S. eapply IH; eauto.
Qed.

Lemma partition_none (sep s : string) :
  partition sep s = None <-> contains sep s = false.
Proof.
  induction s as [|c s IH]; simpl.
  - destruct (startswith sep ""); split; congruence.
  - destruct (startswith sep (String c s)); [split; congruence|].
    destruct (partition sep s) as [[a b]|].
    + split; [discriminate|]. intros H. apply IH in H. discriminate.
    + split; [|reflexivity]. intros _. apply IH. reflexivity.
Qed.

Lemma contains_partition (sep s : string) :
  contains sep s = true -> exists a b, partition sep s = Some (a, b).
Proof.
  intros H. destruct (partition sep s) as [[a b]|] eqn:P; eauto.
  apply partition_none in P. congruence.
Qed.

Lemma contains_startswith (p s : string) :
  startswith p s = true -> contains p s = true.
Proof. intros H. destruct s; simpl; rewrite H; reflexivity. Qed.

Lemma contains_app (sep a b : string) : contains sep (a ++ sep ++ b) = true.
Proof.
  induction a as [|c a IH]; simpl.
  - apply contains_startswith, startswith_app.
  - rewrite IH. destruct (startswith sep _); reflexivity.
Qed.

Lemma partition_shrinks (sep s a b : string) :
  sep <> "" -> partition sep s = Some (a, b) -> (length b < length s)%nat.
Proof.
  intros Hsep H. apply partition_some in H. subst s.
  rewrite !str_length_app. destruct sep; [congruence|]. simpl. lia.
Qed.

(** *** [split] *)

Lemma split_n_not_nil (sep : string) (n : nat) (s : string) :
  split_n sep n s <> [].
Proof.
  destruct n; simpl; [discriminate|].
  destruct (partition sep s) as [[a b]|]; discriminate.
Qed.

(** *** [strip] *)

Lemma lstrip_first (s : string) :
  Spec.is_space_opt (Spec.first_char (lstrip s)) = false.
Proof.
  induction s as [|c s IH]; simpl; [reflexivity|].
  destruct (isspace c) eqn:E; [assumption|]. simpl. exact E.
Qed.

Lemma rstrip_last (s : string) :
  Spec.is_space_opt (Spec.last_char (rstrip s)) = false.
Proof.
  induction s as [|c s IH]; simpl; [reflexivity|].
  destruct (rstrip s) as [|d r] eqn:E.
  - destruct (isspace c) eqn:Ec; simpl; [reflexivity | exact Ec].
  - exact IH.
Qed.

Lemma rstrip_first (s : string) :
  Spec.is_space_opt (Spec.first_char s) = false ->
  Spec.is_space_opt (Spec.first_char (rstrip s)) = false.
Proof.
  destruct s as [|c s]; simpl; [auto|]. intros H.
  destruct (rstrip s); [rewrite H|]; simpl; exact H.
Qed.

Lemma rstrip_nonspace_head (c : ascii) (s : string) :
  isspace c = false -> exists r, rstrip (String c s) = String c r.
Proof.
  intros H. simpl. destruct (rstrip s); [rewrite H|]; eauto.
Qed.

Lemma strip_first (s : string) :
  Spec.is_space_opt (Spec.first_char (strip s)) = false.
Proof. apply rstrip_first, lstrip_first. Qed.

Lemma strip_last (s : string) :
  Spec.is_space_opt (Spec.last_char (strip s)) = false.
Proof. apply rstrip_last. Qed.

Lemma strip_trimmed (s : string) :
  strip s <> "" -> Spec.trimmed_nonempty (strip s).
Proof.
  intros H. split; [exact H|]. split; [apply strip_first | apply strip_last].
Qed.

(** A string that starts with a character other than whitespace does not
    strip to the empty string. *)
Lemma strip_nonspace_head (c : ascii) (s : string) :
  isspace c = false -> strip (String c s) <> "".
Proof.
  intros H. unfold strip. simpl lstrip. rewrite H.
  destruct (rstrip_nonspace_head c s H) as [r ->]. discriminate.
Qed.

End PyStrFacts.

(* ------------------------------------------------------------------ *)
(** ** Facts about the pattern of the [:style()] clause *)
(* ------------------------------------------------------------------ *)

Module StyleRegexFacts.
Import PyStr StyleRegex PyStrFacts Spec.

#[local] Arguments startswith : simpl never.

Lemma no_line_feed_app (a b : string) :
  no_line_feed (a ++ b) = no_line_feed a && no_line_feed b.
Proof.
  induction a as [|c a IH]; simpl; [reflexivity|].
  rewrite IH, andb_assoc. reflexivity.
Qed.

(** The lazy group hands the continuation the shortest prefix it accepts. *)
Lemma dot_plus_lazy_some {R} (s : string) (k : string -> string -> option R) (x : R) :
  dot_plus_lazy s k = Some x ->
  exists g rest,
    s = g ++ rest /\ g <> "" /\ k g rest = Some x
    /\ forall g' rest', s = g' ++ rest' -> g' <> "" ->
         (length g' < length g)%nat -> k g' rest' = None.
Proof.
  revert k. induction s as [|c s IH]; intros k; simpl; [discriminate|].
  destruct (dot c); [|discriminate].
  destruct (k (String c "") s) eqn:E.
  - intros [= ->]. exists (String c ""), s. repeat split; try easy.
    intros [|d [|e g']] rest' _ Hne Hlen; simpl in Hlen; try lia. congruence.
  - intros H. apply IH in H. destruct H as (g & rest & -> & Hg & Hk & Hmin).
    exists (String c g), rest. repeat split; try easy.
    intros [|d g'] rest' Heq Hne Hlen; [congruence|].
    simpl in Heq. injection Heq as <- Heq. simpl in Hlen.
    destruct g' as [|e g'].
    + simpl in Heq. subst rest'. exact E.
    + apply (Hmin (String e g') rest' Heq); [discriminate | lia].
Qed.

Lemma dot_plus_lazy_none {R} (s : string) (k : string -> string -> option R) :
  dot_plus_lazy s k = None ->
  forall g rest, s = g ++ rest -> g <> "" -> no_line_feed g = true ->
    k g rest = None.
Proof.
  revert k. induction s as [|c s IH]; intros k; simpl.
  - intros _ [|d g] rest Heq Hne; [congruence | discriminate].
  - intros H [|d g] rest Heq Hne Hnl; [congruence|].
    simpl in Heq. injection Heq as <- Heq. simpl in Hnl.
    apply andb_true_iff in Hnl. destruct Hnl as [Hc Hg].
    rewrite Hc in H.
    destruct (k (String c "") s) eqn:E; [discriminate|].
    destruct g as [|e g].
    + simpl in Heq. subst rest. exact E.
    + apply (IH _ H (String e g) rest Heq); [discriminate | exact Hg].
Qed.

Lemma dot_plus_greedy_some {R} (s : string) (k : string -> string -> option R) (x : R) :
  dot_plus_greedy s k = Some x ->
  exists g rest, s = g ++ rest /\ g <> "" /\ k g rest = Some x.
Proof.
  revert k. induction s as [|c s IH]; intros k; simpl; [discriminate|].
  destruct (dot c); [|discriminate].
  destruct (dot_plus_greedy s _) eqn:E.
  - intros [= ->]. apply IH in E. destruct E as (g & rest & -> & Hg & Hk).
    exists (String c g), rest. repeat split; easy.
  - intros H. exists (String c ""), s. repeat split; easy.
Qed.

Lemma dot_plus_greedy_none {R} (s : string) (k : string -> string -> option R) :
  dot_plus_greedy s k = None ->
  forall g rest, s = g ++ rest -> g <> "" -> no_line_feed g = true ->
    k g rest = None.
Proof.
  revert k. induction s as [|c s IH]; intros k; simpl.
  - intros _ [|d g] rest Heq Hne; [congruence | discriminate].
  - intros H [|d g] rest Heq Hne Hnl; [congruence|].
    simpl in Heq. injection Heq as <- Heq. simpl in Hnl.
    apply andb_true_iff in Hnl. destruct Hnl as [Hc Hg].
    rewrite Hc in H.
    destruct (dot_plus_greedy s _) eqn:E; [discriminate|].
    destruct g as [|e g].
    + simpl in Heq. subst rest. exact H.
    + apply (IH _ E (String e g) rest Heq); [discriminate | exact Hg].
Qed.

Lemma style_match_unfold (s : string) : style_match s = dot_plus_lazy s k_mid.
Proof. reflexivity. Qed.

Lemma lit_some {R} (p s : string) (k : string -> option R) (x : R) :
  lit p s k = Some x -> exists r, s = p ++ r /\ k r = Some x.
Proof.
  unfold lit. destruct (startswith p s) eqn:E; [|discriminate].
  intros H. exists (drop (length p) s). split; [apply startswith_inv, E | exact H].
Qed.

Lemma lit_app {R} (p r : string) (k : string -> option R) :
  lit p (p ++ r) k = k r.
Proof. unfold lit. rewrite startswith_app, drop_app. reflexivity. Qed.

Lemma at_end_no_line_feed (r : string) :
  no_line_feed r = true -> at_end r = true -> r = "".
Proof.
  destruct r as [|c [|d r]]; simpl; try easy.
  unfold dot. destruct (Ascii.eqb c LF); simpl; congruence.
Qed.

Lemma k_mid_first (g r1 a b : string) : k_mid g r1 = Some (a, b) -> a = g.
Proof.
  unfold k_mid. intros H. apply lit_some in H. destruct H as (r2 & -> & H).
  apply dot_plus_greedy_some in H. destruct H as (g2 & r3 & -> & _ & H).
  unfold k_tail in H. apply lit_some in H. destruct H as (r4 & -> & H).
  destruct (at_end r4); congruence.
Qed.

Lemma k_mid_some (g r1 a b : string) :
  no_line_feed r1 = true ->
  k_mid g r1 = Some (a, b) ->
  a = g /\ r1 = ":style(" ++ b ++ ")" /\ b <> "".
Proof.
  unfold k_mid. intros Hnl H. apply lit_some in H. destruct H as (r2 & -> & H).
  apply dot_plus_greedy_some in H. destruct H as (g2 & r3 & -> & Hg2 & H).
  unfold k_tail in H. apply lit_some in H. destruct H as (r4 & -> & H).
  destruct (at_end r4) eqn:E; [|discriminate]. injection H as <- <-.
  rewrite !no_line_feed_app in Hnl.
  repeat (apply andb_true_iff in Hnl; destruct Hnl as [? Hnl]).
  apply at_end_no_line_feed in E; [|assumption]. subst r4. auto.
Qed.

Lemma k_mid_none (g b : string) :
  b <> "" -> no_line_feed b = true ->
  k_mid g (":style(" ++ b ++ ")") <> None.
Proof.
  intros Hb Hnl H. unfold k_mid in H. rewrite lit_app in H.
  pose proof (dot_plus_greedy_none _ _ H b ")" eq_refl Hb Hnl) as H'.
  unfold k_tail in H'. change ")" with (")" ++ "") in H'.
  rewrite lit_app in H'. discriminate.
Qed.

(** On a subject without line feed the match is the split at the first
    [:style(] that leaves a selector before it and a declaration between
    it and the closing parenthesis that ends the subject. *)
Lemma style_match_some (s g1 g2 : string) :
  no_line_feed s = true ->
  style_match s = Some (g1, g2) -> FirstStyleSplit s g1 g2.
Proof.
  intros Hnl H. rewrite style_match_unfold in H.
  apply dot_plus_lazy_some in H.
  destruct H as (g & rest & -> & Hg & Hk & Hmin).
  rewrite no_line_feed_app in Hnl. apply andb_true_iff in Hnl.
  destruct Hnl as [Hnl1 Hnl2].
  apply k_mid_some in Hk; [|assumption]. destruct Hk as (-> & -> & Hb).
  split; [split; auto|].
  intros h1 h2 (Heq & Hh1 & Hh2).
  destruct (Nat.le_gt_cases (length g) (length h1)) as [|Hlt]; [assumption|].
  exfalso. pose proof (Hmin h1 _ Heq Hh1 Hlt) as Hn.
  apply (k_mid_none h1 h2 Hh2); [|exact Hn].
  assert (E : no_line_feed (h1 ++ ":style(" ++ h2 ++ ")") = true).
  { rewrite <- Heq, no_line_feed_app, Hnl1, Hnl2. reflexivity. }
  rewrite !no_line_feed_app in E.
  repeat (apply andb_true_iff in E; destruct E as [? E]). assumption.
Qed.

Lemma style_match_none (s : string) :
  no_line_feed s = true ->
  style_match s = None -> forall g1 g2, ~ StyleSplit s g1 g2.
Proof.
  intros Hnl H g1 g2 (Heq & Hg1 & Hg2). rewrite style_match_unfold in H.
  subst s. rewrite !no_line_feed_app in Hnl.
  repeat (apply andb_true_iff in Hnl; destruct Hnl as [? Hnl]).
  apply (k_mid_none g1 g2 Hg2); [assumption|].
  eapply dot_plus_lazy_none; eauto.
Qed.

(** Whatever the subject, the first group starts where the subject
    starts. *)
Lemma style_match_head (s g1 g2 : string) :
  style_match s = Some (g1, g2) ->
  exists c g r, g1 = String c g /\ s = String c r.
Proof.
  rewrite style_match_unfold. intros H. apply dot_plus_lazy_some in H.
  destruct H as (g & rest & -> & Hg & Hk & _).
  apply k_mid_first in Hk. subst g1.
  destruct g as [|c g]; [congruence|]. exists c, g, (g ++ rest). auto.
Qed.

End StyleRegexFacts.

(* ------------------------------------------------------------------ *)
(** ** Facts about the parser *)
(* ------------------------------------------------------------------ *)

Module ParserFacts.
Import PyStr StyleRegex Parser PyStrFacts StyleRegexFacts Spec.

#[local] Arguments startswith : simpl never.
#[local] Arguments strip : simpl never.
#[local] Arguments contains : simpl never.
#[local] Arguments style_match : simpl never.

Ltac run_monad :=
  cbv [bind ret raise modify try_except guarded_rule
       append_invalid append_skipped append_global append_domain].

(** *** The loops *)

Lemma for_each_app {X} (body : X -> M unit) (xs ys : list X) (st : ParseState) :
  for_each body (xs ++ ys)%list st =
  match for_each body xs st with
  | (inl e, st') => (inl e, st')
  | (inr _, st') => for_each body ys st'
  end.
Proof.
  revert st. induction xs as [|x xs IH]; intros st; simpl; [reflexivity|].
  unfold bind. destruct (body x st) as [[e|[]] st1]; [reflexivity | apply IH].
Qed.

Lemma dict_append_total {V} (k : string) (v : V) (d : ListDict V) :
  dict_total (dict_append k v d) = S (dict_total d).
Proof.
  unfold dict_total. induction d as [|[k' vs] d IH]; simpl; [reflexivity|].
  destruct (String.eqb k' k); simpl.
  - rewrite List.length_app. simpl. lia.
  - rewrite IH. lia.
Qed.

Lemma dict_append_values {V} (k : string) (v x : V) (d : ListDict V) :
  In x (List.concat (map snd (dict_append k v d))) ->
  In x (List.concat (map snd d)) \/ x = v.
Proof.
  induction d as [|[k' vs] d IH]; simpl.
  - intros [H|[]]; auto.
  - destruct (String.eqb k' k); simpl; rewrite !in_app_iff.
    + simpl. intuition.
    + intuition.
Qed.

Lemma domain_loop (rule : Rule) (domains : list string) (st : ParseState) :
  exists st',
    for_each (fun domain => append_domain (strip domain) rule) domains st
      = (inr tt, st')
    /\ global_selectors st' = global_selectors st
    /\ invalid_lines st' = invalid_lines st
    /\ skipped_lines st' = skipped_lines st
    /\ dict_total (domain_map st') = (List.length domains + dict_total (domain_map st))%nat
    /\ forall x, In x (List.concat (map snd (domain_map st'))) ->
         In x (List.concat (map snd (domain_map st))) \/ x = rule.
Proof.
  revert st. induction domains as [|d ds IH]; intros st; simpl.
  - exists st. unfold ret. repeat split; auto.
  - destruct (IH (mkState (dict_append (strip d) rule (domain_map st))
                    (global_selectors st) (invalid_lines st) (skipped_lines st)))
      as (st' & Hrun & Hg & Hi & Hs & Ht & Hin).
    exists st'. split; [exact Hrun|]. simpl in *.
    rewrite Hg, Hi, Hs, Ht, dict_append_total.
    repeat split; auto; try lia.
    intros x Hx. apply Hin in Hx. destruct Hx as [Hx|Hx]; auto.
    apply dict_append_values in Hx. exact Hx.
Qed.

Lemma store_rule_ok (domains_part : string) (rule : Rule) (st : ParseState) :
  exists st',
    store_rule domains_part rule st = (inr tt, st')
    /\ (rule_total st < rule_total st')%nat
    /\ invalid_lines st' = invalid_lines st
    /\ skipped_lines st' = skipped_lines st
    /\ forall x, In x (held_rules st') -> In x (held_rules st) \/ x = rule.
Proof.
  unfold store_rule, rule_total, held_rules.
  destruct (String.eqb domains_part "") eqn:E.
  - run_monad. eexists. split; [reflexivity|]. simpl.
    rewrite List.length_app. simpl. repeat split; auto; [lia|].
    intros x. rewrite !in_app_iff. simpl. intuition.
  - unfold py_split. apply String.eqb_neq in E.
    destruct domains_part as [|c dp]; [congruence|].
    unfold bind at 1, ret at 1.
    destruct (domain_loop rule (split "," (String c dp)) st)
      as (st' & Hrun & Hg & Hi & Hs & Ht & Hin).
    exists st'. rewrite Hrun, Hg, Hi, Hs, Ht.
    repeat split; auto.
    + pose proof (split_n_not_nil "," (length (String c dp)) (String c dp)) as Hn.
      unfold split. destruct (split_n _ _ _); [congruence|]. simpl. lia.
    + intros x. rewrite !in_app_iff. intros [Hx|Hx]; auto.
      apply Hin in Hx. intuition.
Qed.

(** *** The body of the [try] block *)

Lemma split_once (line p0 p1 : string) :
  partition "##" line = Some (p0, p1) -> split_n "##" 1 line = [p0; p1].
Proof. intros H. simpl. rewrite H. reflexivity. Qed.

Lemma split_head (sep line p0 p1 : string) :
  sep <> "" -> partition sep line = Some (p0, p1) ->
  exists rest, split sep line = p0 :: rest.
Proof.
  intros Hsep H. unfold split.
  pose proof (partition_shrinks _ _ _ _ Hsep H) as Hlen.
  destruct (length line) as [|n] eqn:E; [lia|].
  simpl. rewrite H. eauto.
Qed.

Lemma cosmetic_rule_unfold (n : nat) (line p0 p1 : string) (st : ParseState) :
  partition "##" line = Some (p0, p1) ->
  cosmetic_rule n line st =
  if String.eqb (strip p1) "" then append_invalid (n, line, "Empty selector") st
  else if contains ":style(" (strip p1) then
    match style_match (strip p1) with
    | Some (g1, g2) => store_rule (strip p0) (strip g1, strip g2) st
    | None => append_invalid (n, line, "Invalid :style() syntax") st
    end
  else store_rule (strip p0) (strip p1, HIDE) st.
Proof.
  intros H. unfold cosmetic_rule, py_split, bind, ret, index.
  rewrite (split_once _ _ _ H). simpl.
  destruct (String.eqb (strip p1) ""); [reflexivity|].
  destruct (contains ":style(" (strip p1)); [|reflexivity].
  destruct (style_match (strip p1)) as [[g1 g2]|]; reflexivity.
Qed.

(** A line that holds [##] never raises in the [try] block: it becomes
    an invalid line, or a rule whose selector is trimmed and not empty.
    Which of the two does not depend on the line number or the state. *)
Lemma cosmetic_rule_shape (line p0 p1 : string) :
  partition "##" line = Some (p0, p1) ->
  (exists reason, forall n st,
      cosmetic_rule n line st = append_invalid (n, line, reason) st)
  \/ (exists dp rule,
        trimmed_nonempty (fst rule)
        /\ forall n st, cosmetic_rule n line st = store_rule dp rule st).
Proof.
  intros H.
  destruct (String.eqb (strip p1) "") eqn:E.
  { left. eexists. intros n st.
    rewrite (cosmetic_rule_unfold _ _ _ _ _ H), E. reflexivity. }
  pose proof E as E'. apply String.eqb_neq in E'.
  destruct (contains ":style(" (strip p1)) eqn:Ec.
  - destruct (style_match (strip p1)) as [[g1 g2]|] eqn:Em.
    + right. exists (strip p0), (strip g1, strip g2). split.
      * simpl. apply strip_trimmed.
        apply style_match_head in Em. destruct Em as (c & g & r & -> & Hs).
        apply strip_nonspace_head.
        pose proof (strip_first p1) as Hf. rewrite Hs in Hf. exact Hf.
      * intros n st.
        rewrite (cosmetic_rule_unfold _ _ _ _ _ H), E, Ec, Em. reflexivity.
    + left. eexists. intros n st.
      rewrite (cosmetic_rule_unfold _ _ _ _ _ H), E, Ec, Em. reflexivity.
  - right. exists (strip p0), (strip p1, HIDE). split.
    + simpl. apply strip_trimmed, E'.
    + intros n st.
      rewrite (cosmetic_rule_unfold _ _ _ _ _ H), E, Ec. reflexivity.
Qed.

(** *** One line *)

(** What the turn of the loop does with a line, whatever its number and
    the state: nothing, one entry of [invalid_lines], one entry of
    [skipped_lines], or one rule stored. *)
Lemma process_line_shape (raw : string) :
  if significant raw then
    (exists reason, forall n st,
        process_line (n, raw) st = append_invalid (n, strip raw, reason) st)
    \/ (exists reason, forall n st,
          process_line (n, raw) st = append_skipped (n, strip raw, reason) st)
    \/ (exists dp rule,
          trimmed_nonempty (fst rule)
          /\ forall n st, process_line (n, raw) st = store_rule dp rule st)
  else forall n st, process_line (n, raw) st = (inr tt, st).
Proof.
  unfold process_line, significant. cbn [fst snd].
  set (line := strip raw).
  destruct (String.eqb line "" || startswith "!" line).
  { intros n st. reflexivity. }
  simpl negb. cbv iota.
  destruct (startswith "||" line || startswith "@@" line || startswith "/" line).
  { right. left. eexists. intros n st. reflexivity. }
  destruct (contains "##" line) eqn:Eh.
  - destruct (contains_partition _ _ Eh) as (p0 & p1 & Hp).
    destruct (split_head "##" line p0 p1 ltac:(discriminate) Hp) as (rest & Hs).
    unfold py_split, index. rewrite Hs. cbv [bind ret nth_error].
    destruct (contains "$" p0).
    + right. left. eexists. intros n st. reflexivity.
    + destruct (cosmetic_rule_shape line p0 p1 Hp)
        as [(reason & Hc)|(dp & rule & Ht & Hc)].
      * left. exists reason. intros n st.
        unfold bind, ret, guarded_rule, try_except. rewrite Hc. reflexivity.
      * right. right. exists dp, rule. split; [exact Ht|]. intros n st.
        unfold bind, ret, guarded_rule, try_except. rewrite Hc.
        destruct (store_rule_ok dp rule st) as (st' & -> & _). reflexivity.
  - destruct (contains "$" line || startswith "|" line).
    + right. left. eexists. intros n st. reflexivity.
    + left. eexists. intros n st. reflexivity.
Qed.

Lemma snoc_neq {A} (l : list A) (x : A) : (l ++ [x])%list <> l.
Proof.
  intros H. apply (f_equal (@List.length A)) in H.
  rewrite List.length_app in H. simpl in H. lia.
Qed.

Lemma contributes_rule_spec (raw : string) :
  contributes_rule raw = true <->
  exists dp rule, trimmed_nonempty (fst rule)
    /\ forall n st, process_line (n, raw) st = store_rule dp rule st.
Proof.
  unfold contributes_rule. pose proof (process_line_shape raw) as H.
  destruct (significant raw).
  - destruct H as [(reason & H)|[(reason & H)|(dp & rule & Ht & H)]].
    + rewrite H. simpl. split; [discriminate|].
      intros (dp & rule & _ & H'). specialize (H 0%nat empty_state).
      rewrite H' in H. destruct (store_rule_ok dp rule empty_state) as (st' & Hr & Hlt & Hi & _).
      rewrite Hr in H. injection H as ->. simpl in Hi. discriminate.
    + rewrite H. simpl. split; [discriminate|].
      intros (dp & rule & _ & H'). specialize (H 0%nat empty_state).
      rewrite H' in H. destruct (store_rule_ok dp rule empty_state) as (st' & Hr & Hlt & _ & Hs & _).
      rewrite Hr in H. injection H as ->. simpl in Hs. discriminate.
    + split; [eauto|]. intros _. rewrite H.
      destruct (store_rule_ok dp rule empty_state) as (st' & -> & Hlt & _).
      simpl. apply Nat.ltb_lt. lia.
  - rewrite H. simpl. split; [discriminate|].
    intros (dp & rule & _ & H'). specialize (H 0%nat empty_state).
    rewrite H' in H. destruct (store_rule_ok dp rule empty_state) as (st' & Hr & Hlt & _).
    rewrite Hr in H. injection H as ->. unfold rule_total in Hlt. simpl in Hlt. lia.
Qed.

(** Every line is accounted for exactly once. *)
Lemma line_accounted (n : nat) (raw : string) (st : ParseState) :
  exists st',
    process_line (n, raw) st = (inr tt, st')
    /\ if significant raw then
         exactly_one (to_rules st st')
                     (to_invalid n (strip raw) st st')
                     (to_skipped n (strip raw) st st')
         /\ (contributes_rule raw = true <-> to_rules st st')
       else st' = st /\ contributes_rule raw = false.
Proof.
  pose proof (process_line_shape raw) as H.
  pose proof (contributes_rule_spec raw) as Hc.
  destruct (significant raw).
  - destruct H as [(reason & H)|[(reason & H)|(dp & rule & Ht & H)]].
    + eexists. split; [apply H|]. cbn.
      assert (A : ~ to_rules st (mkState (domain_map st) (global_selectors st)
                    (invalid_lines st ++ [(n, strip raw, reason)]) (skipped_lines st))).
      { intros (_ & Hi & _). simpl in Hi. apply snoc_neq in Hi. exact Hi. }
      split.
      * right. left. split; [exact A|]. split.
        -- unfold to_invalid. simpl. eauto 6.
        -- intros ((r & Hs) & _). simpl in Hs. symmetry in Hs. apply snoc_neq in Hs. exact Hs.
      * split; [|tauto]. intros Hcr. apply Hc in Hcr.
        destruct Hcr as (dp & rule & _ & H').
        specialize (H n st). rewrite H' in H.
        destruct (store_rule_ok dp rule st) as (st' & Hr & Hlt & Hi & _).
        rewrite Hr in H. injection H as ->. simpl in Hi. apply snoc_neq in Hi. tauto.
    + eexists. split; [apply H|]. cbn.
      assert (A : ~ to_rules st (mkState (domain_map st) (global_selectors st)
                    (invalid_lines st) (skipped_lines st ++ [(n, strip raw, reason)]))).
      { intros (_ & _ & Hs). simpl in Hs. apply snoc_neq in Hs. exact Hs. }
      split.
      * right. right. split; [exact A|]. split.
        -- intros ((r & Hs) & _). simpl in Hs. symmetry in Hs. apply snoc_neq in Hs. exact Hs.
        -- unfold to_skipped. simpl. eauto 6.
      * split; [|tauto]. intros Hcr. apply Hc in Hcr.
        destruct Hcr as (dp & rule & _ & H').
        specialize (H n st). rewrite H' in H.
        destruct (store_rule_ok dp rule st) as (st' & Hr & Hlt & _ & Hs & _).
        rewrite Hr in H. injection H as ->. simpl in Hs. apply snoc_neq in Hs. tauto.
    + destruct (store_rule_ok dp rule st) as (st' & Hr & Hlt & Hi & Hs & _).
      exists st'. split; [rewrite H; exact Hr|].
      assert (A : to_rules st st') by (unfold to_rules; auto).
      split.
      * left. split; [exact A|]. split.
        -- intros ((r & Hi') & _). rewrite Hi in Hi'. symmetry in Hi'.
           apply snoc_neq in Hi'. exact Hi'.
        -- intros ((r & Hs') & _). rewrite Hs in Hs'. symmetry in Hs'.
           apply snoc_neq in Hs'. exact Hs'.
      * split; [tauto|]. intros _. apply Hc. eauto.
  - exists st. split; [apply H|]. split; [reflexivity|].
    destruct (contributes_rule raw); [|reflexivity].
    destruct (proj1 Hc eq_refl) as (dp & rule & _ & H').
    specialize (H 0%nat empty_state). rewrite H' in H.
    destruct (store_rule_ok dp rule empty_state) as (st' & Hr & Hlt & _).
    rewrite Hr in H. injection H as ->. unfold rule_total in Hlt. simpl in Hlt. lia.
Qed.

(** *** The whole scan *)

Lemma scan_counts (lines : list string) (start : nat) (st : ParseState) :
  exists st',
    for_each process_line (enumerate lines start) st = (inr tt, st')
    /\ (List.length (List.filter contributes_rule lines)
        + List.length (invalid_lines st') + List.length (skipped_lines st')
        = List.length (List.filter significant lines)
          + List.length (invalid_lines st) + List.length (skipped_lines st))%nat.
Proof.
  revert start st. induction lines as [|raw lines IH]; intros start st.
  - exists st. split; reflexivity.
  - destruct (line_accounted start raw st) as (st1 & Hrun & Hacc).
    destruct (IH (S start) st1) as (st' & Hrest & Hcount).
    exists st'. split.
    { simpl. unfold bind. rewrite Hrun. exact Hrest. }
    simpl. destruct (significant raw).
    + destruct Hacc as [Hone Hc].
      destruct Hone as [(A & _)|[(_ & B & _)|(_ & _ & C)]].
      * apply Hc in A as E. rewrite E. destruct A as (_ & Hi & Hs).
        rewrite Hi, Hs in Hcount. simpl. lia.
      * destruct (contributes_rule raw).
        { destruct (proj1 Hc eq_refl) as (_ & Hi & _).
          destruct B as ((r & Hi') & _). rewrite Hi in Hi'. symmetry in Hi'.
          apply snoc_neq in Hi'. contradiction. }
        destruct B as ((r & Hi) & _ & _ & Hs). rewrite Hi, Hs in Hcount.
        rewrite List.length_app in Hcount. simpl in *. lia.
      * destruct (contributes_rule raw).
        { destruct (proj1 Hc eq_refl) as (_ & _ & Hs).
          destruct C as ((r & Hs') & _). rewrite Hs in Hs'. symmetry in Hs'.
          apply snoc_neq in Hs'. contradiction. }
        destruct C as ((r & Hs) & _ & _ & Hi). rewrite Hi, Hs in Hcount.
        rewrite List.length_app in Hcount. simpl in *. lia.
    + destruct Hacc as [-> ->]. exact Hcount.
Qed.

Lemma scan_total (items : list (nat * string)) (st : ParseState) :
  exists st', for_each process_line items st = (inr tt, st').
Proof.
  revert st. induction items as [|[n raw] items IH]; intros st.
  - exists st. reflexivity.
  - destruct (line_accounted n raw st) as (st1 & Hrun & _).
    destruct (IH st1) as (st' & Hrest).
    exists st'. simpl. unfold bind. rewrite Hrun. exact Hrest.
Qed.

Lemma scan_rules (P : Rule -> Prop) (items : list (nat * string))
  (st st' : ParseState) :
  (forall r, trimmed_nonempty (fst r) -> P r) ->
  for_each process_line items st = (inr tt, st') ->
  (forall r, In r (held_rules st) -> P r) ->
  forall r, In r (held_rules st') -> P r.
Proof.
  intros HP. revert st. induction items as [|[n raw] items IH]; intros st.
  - simpl. unfold ret. intros [= <-]. auto.
  - simpl. unfold bind.
    pose proof (process_line_shape raw) as H.
    destruct (significant raw).
    + destruct H as [(reason & H)|[(reason & H)|(dp & rule & Ht & H)]];
        rewrite H.
      * cbn. intros Hrun Hst. eapply IH; [exact Hrun|]. exact Hst.
      * cbn. intros Hrun Hst. eapply IH; [exact Hrun|]. exact Hst.
      * destruct (store_rule_ok dp rule st) as (st1 & -> & _ & _ & _ & Hin).
        intros Hrun Hst. eapply IH; [exact Hrun|].
        intros r Hr. apply Hin in Hr. destruct Hr as [Hr| ->]; auto.
    + rewrite H. intros Hrun Hst. eapply IH; eauto.
Qed.

End ParserFacts.

(* ------------------------------------------------------------------ *)
(** ** Facts about the lines of the input *)
(* ------------------------------------------------------------------ *)

Module LineFacts.
Import PyStr StyleRegex Parser PyStrFacts StyleRegexFacts Spec.

Lemma linebreak_not_dot (c : ascii) : islinebreak c = false -> dot c = true.
Proof.
  intros H. unfold dot. destruct (Ascii.eqb_spec c LF) as [->|]; [|reflexivity].
  vm_compute in H. discriminate.
Qed.

(** No line of [splitlines] holds a line feed. *)
Lemma splitlines_no_line_feed (s : string) :
  Forall (fun l => no_line_feed l = true) (splitlines s).
Proof.
  remember (length s) as n eqn:Hn.
  assert (Hle : (length s <= n)%nat) by lia. clear Hn.
  revert s Hle. induction n as [|n IH]; intros s Hle.
  - destruct s; simpl in *; [constructor | lia].
  - destruct s as [|c r]; [constructor|]. simpl in Hle.
    assert (Hr : Forall (fun l => no_line_feed l = true) (splitlines r))
      by (apply IH; lia).
    simpl. destruct (islinebreak c) eqn:Ec.
    + constructor; [reflexivity|].
      destruct r as [|d r']; [constructor|].
      destruct (Ascii.eqb c CR && Ascii.eqb d LF); [|exact Hr].
      apply IH. simpl in Hle. lia.
    + destruct (splitlines r) as [|l ls]; constructor.
      * simpl. rewrite (linebreak_not_dot _ Ec). reflexivity.
      * constructor.
      * simpl. rewrite (linebreak_not_dot _ Ec). inversion Hr; assumption.
      * inversion Hr; assumption.
Qed.

Lemma in_enumerate {A} (xs : list A) (start n : nat) (x : A) :
  In (n, x) (enumerate xs start) -> In x xs.
Proof.
  revert start. induction xs as [|y xs IH]; intros start; simpl; [tauto|].
  intros [[= _ ->]|H]; eauto.
Qed.

Lemma lstrip_suffix (s : string) : exists a, s = a ++ lstrip s.
Proof.
  induction s as [|c s [a IH]]; simpl.
  - exists "". reflexivity.
  - destruct (isspace c).
    + exists (String c a). simpl. congruence.
    + exists "". reflexivity.
Qed.

Lemma rstrip_prefix (s : string) : exists b, s = rstrip s ++ b.
Proof.
  induction s as [|c s [b IH]]; simpl.
  - exists "". reflexivity.
  - destruct (rstrip s) as [|d r] eqn:E.
    + destruct (isspace c).
      * exists (String c s). reflexivity.
      * exists b. simpl in *. congruence.
    + exists b. simpl in *. congruence.
Qed.

Lemma strip_no_line_feed (s : string) :
  no_line_feed s = true -> no_line_feed (strip s) = true.
Proof.
  intros H. unfold strip.
  assert (Hl : no_line_feed (lstrip s) = true).
  { destruct (lstrip_suffix s) as [a Ha]. rewrite Ha, no_line_feed_app in H.
    apply andb_true_iff in H. tauto. }
  destruct (rstrip_prefix (lstrip s)) as [b Hb].
  rewrite Hb, no_line_feed_app in Hl. apply andb_true_iff in Hl. tauto.
Qed.

Lemma partition_no_line_feed (sep s a b : string) :
  partition sep s = Some (a, b) -> no_line_feed s = true ->
  no_line_feed b = true.
Proof.
  intros H Hs. apply partition_some in H. subst s.
  rewrite !no_line_feed_app in Hs.
  repeat (apply andb_true_iff in Hs; destruct Hs as [? Hs]). exact Hs.
Qed.

Lemma app_same_length (a b x y : string) :
  a ++ x = b ++ y -> length a = length b -> a = b /\ x = y.
Proof.
  revert b. induction a as [|c a IH]; intros [|d b]; simpl; try discriminate.
  - auto.
  - intros [= -> H] [= Hl]. destruct (IH b H Hl) as [-> ->]. auto.
Qed.

Lemma first_style_split_unique (s g1 g2 h1 h2 : string) :
  FirstStyleSplit s g1 g2 -> FirstStyleSplit s h1 h2 -> g1 = h1 /\ g2 = h2.
Proof.
  intros [Hg Hgmin] [Hh Hhmin].
  pose proof (Hgmin _ _ Hh). pose proof (Hhmin _ _ Hg).
  destruct Hg as (Hg & _). destruct Hh as (Hh & _).
  rewrite Hg in Hh. apply app_same_length in Hh; [|lia].
  destruct Hh as [-> Hh]. split; [reflexivity|].
  apply str_app_inv_head in Hh.
  assert (L : length g2 = length h2).
  { apply (f_equal length) in Hh. rewrite !str_length_app in Hh. simpl in Hh. lia. }
  apply app_same_length in Hh; tauto.
Qed.

End LineFacts.

(* ------------------------------------------------------------------ *)
(** ** Facts about deduplication and the sort *)
(* ------------------------------------------------------------------ *)

Module DedupeFacts.
Import PyStr Parser Dedupe Spec.

Lemma rule_eqb_spec (a b : Rule) : reflect (a = b) (rule_eqb a b).
Proof.
  unfold rule_eqb. destruct a as [s d], b as [s' d']. simpl.
  destruct (String.eqb_spec s s'), (String.eqb_spec d d'); simpl;
    constructor; congruence.
Qed.

Lemma mem_In (r : Rule) (seen : list Rule) : mem r seen = true <-> In r seen.
Proof.
  unfold mem. rewrite existsb_exists. split.
  - intros (x & Hx & E). destruct (rule_eqb_spec r x); [subst; assumption | discriminate].
  - intros H. exists r. split; [assumption|]. destruct (rule_eqb_spec r r); congruence.
Qed.

(** *** First occurrences *)

Section FirstOccurrences.
Context {A : Type} (eqb : A -> A -> bool).
Hypothesis eqb_spec : forall a b, reflect (a = b) (eqb a b).

Lemma first_occurrences_In (l : list A) (y : A) :
  In y (first_occurrences eqb l) <-> In y l.
Proof.
  induction l as [|x l IH]; simpl; [tauto|].
  rewrite filter_In, IH. destruct (eqb_spec x y); simpl; intuition congruence.
Qed.

Lemma first_occurrences_NoDup (l : list A) : NoDup (first_occurrences eqb l).
Proof.
  induction l as [|x l IH]; simpl; constructor.
  - rewrite filter_In. intros [_ H]. destruct (eqb_spec x x); [discriminate | congruence].
  - apply NoDup_filter, IH.
Qed.

Lemma filter_all {B} (f : B -> bool) (l : list B) :
  (forall y, In y l -> f y = true) -> List.filter f l = l.
Proof.
  induction l as [|x l IH]; simpl; intros H; [reflexivity|].
  rewrite (H x (or_introl eq_refl)), IH; auto.
Qed.

Lemma first_occurrences_fixed (l : list A) :
  NoDup l -> first_occurrences eqb l = l.
Proof.
  induction 1 as [|x l Hx Hl IH]; simpl; [reflexivity|].
  rewrite IH. f_equal. apply filter_all.
  intros y Hy. destruct (eqb_spec x y); [congruence | reflexivity].
Qed.

End FirstOccurrences.

Lemma filter_twice {B} (f g : B -> bool) (l : list B) :
  List.filter f (List.filter g l) = List.filter (fun y => g y && f y) l.
Proof.
  induction l as [|x l IH]; simpl; [reflexivity|].
  destruct (g x); simpl; [destruct (f x)|]; rewrite IH; reflexivity.
Qed.

(** The loop keeps, after [unique], the first occurrences of the rules
    that are not in [seen]. *)
Lemma dedupe_loop_from (rules seen unique : list Rule) :
  snd (fold_left dedupe_step rules (seen, unique))
  = (unique ++ List.filter (fun y => negb (mem y seen))
                           (first_occurrences rule_eqb rules))%list.
Proof.
  revert seen unique. induction rules as [|r rules IH]; intros seen unique.
  - simpl. rewrite List.app_nil_r. reflexivity.
  - simpl. destruct (mem r seen) eqn:E; simpl.
    + rewrite IH. f_equal. rewrite filter_twice. apply filter_ext_in.
      intros y _. destruct (rule_eqb_spec r y) as [<-|]; simpl; [|reflexivity].
      rewrite E. reflexivity.
    + rewrite IH, <- List.app_assoc. simpl. do 2 f_equal.
      rewrite filter_twice. apply filter_ext_in.
      intros y _. unfold mem. simpl.
      destruct (rule_eqb_spec y r), (rule_eqb_spec r y); simpl; congruence.
Qed.

Lemma dedupe_loop_unique (rules : list Rule) :
  snd (dedupe_loop rules) = first_occurrences rule_eqb rules.
Proof.
  unfold dedupe_loop. rewrite dedupe_loop_from. simpl.
  apply (filter_all (fun _ => true)). reflexivity.
Qed.

Lemma dedupe_rules_unfold (rules : list Rule) :
  dedupe_rules rules = sorted_by_key (first_occurrences rule_eqb rules).
Proof.
  unfold dedupe_rules. rewrite <- dedupe_loop_unique.
  destruct (dedupe_loop rules). reflexivity.
Qed.

(** *** The order of the keys *)

Lemma ltb_asym (a b : string) : String.ltb a b = true -> String.ltb b a = false.
Proof.
  unfold String.ltb. rewrite (String.compare_antisym a b).
  destruct (String.compare b a); simpl; congruence.
Qed.

Lemma ltb_false_leb (a b : string) : String.ltb b a = false <-> String.leb a b = true.
Proof.
  unfold String.ltb, String.leb. rewrite (String.compare_antisym a b).
  destruct (String.compare b a); simpl; split; congruence.
Qed.

Lemma compare_lt_trans (a b c : string) :
  String.compare a b = Lt -> String.compare b c = Lt -> String.compare a c = Lt.
Proof.
  intros H1 H2.
  apply OrderedTypeEx.String_as_OT.cmp_lt in H1, H2.
  apply OrderedTypeEx.String_as_OT.cmp_lt.
  eapply OrderedTypeEx.String_as_OT.lt_trans; eassumption.
Qed.

Lemma leb_trans (a b c : string) :
  String.leb a b = true -> String.leb b c = true -> String.leb a c = true.
Proof.
  unfold String.leb. intros H1 H2.
  destruct (String.compare a b) eqn:E1; try discriminate.
  - apply String.compare_eq_iff in E1. subst b. exact H2.
  - destruct (String.compare b c) eqn:E2; try discriminate.
    + apply String.compare_eq_iff in E2. subst c. rewrite E1. reflexivity.
    + rewrite (compare_lt_trans _ _ _ E1 E2). reflexivity.
Qed.

Lemma key_ltb_asym (a b : bool * string) :
  key_ltb a b = true -> key_ltb b a = false.
Proof.
  unfold key_ltb. destruct a as [[] s], b as [[] s']; simpl; try congruence;
    apply ltb_asym.
Qed.

Lemma key_le_cases (a b : Rule) :
  key_le a b <->
  (is_hide a = true /\ is_hide b = false)
  \/ (is_hide a = is_hide b /\ selector_le a b).
Proof.
  unfold key_le, key_ltb, sort_key, selector_le, is_hide. simpl.
  destruct (String.eqb (snd a) HIDE), (String.eqb (snd b) HIDE); simpl;
    rewrite ?ltb_false_leb; intuition congruence.
Qed.

Lemma key_le_trans : Relations_1.Transitive key_le.
Proof.
  intros a b c. rewrite !key_le_cases. unfold selector_le.
  intros [[H1 H2]|[H1 H2]] [[H3 H4]|[H3 H4]]; try congruence.
  - left. split; congruence.
  - left. split; congruence.
  - right. split; [congruence|]. eapply leb_trans; eassumption.
Qed.

(** *** The sort *)

Lemma insert_by_key_perm (x : Rule) (l : list Rule) :
  Permutation (insert_by_key x l) (x :: l).
Proof.
  induction l as [|y l IH]; simpl; [reflexivity|].
  destruct (key_ltb (sort_key y) (sort_key x)); [|reflexivity].
  rewrite IH. apply perm_swap.
Qed.

Lemma sorted_by_key_perm (l : list Rule) : Permutation (sorted_by_key l) l.
Proof.
  induction l as [|x l IH]; simpl; [reflexivity|].
  rewrite insert_by_key_perm, IH. reflexivity.
Qed.

Lemma insert_by_key_sorted (x : Rule) (l : list Rule) :
  Sorted key_le l -> Sorted key_le (insert_by_key x l).
Proof.
  induction 1 as [|y l Hl IH Hy]; simpl.
  - repeat constructor.
  - destruct (key_ltb (sort_key y) (sort_key x)) eqn:E.
    + constructor; [exact IH|].
      destruct l as [|z l]; simpl.
      * constructor. unfold key_le. apply key_ltb_asym, E.
      * destruct (key_ltb (sort_key z) (sort_key x)).
        -- constructor. inversion Hy; assumption.
        -- constructor. unfold key_le. apply key_ltb_asym, E.
    + constructor; [constructor; assumption|]. constructor. exact E.
Qed.

Lemma sorted_by_key_sorted (l : list Rule) : Sorted key_le (sorted_by_key l).
Proof.
  induction l as [|x l IH]; simpl; [constructor|].
  apply insert_by_key_sorted, IH.
Qed.

(** Sorting a sorted list changes nothing. *)
Lemma sorted_by_key_fixed (l : list Rule) :
  Sorted key_le l -> sorted_by_key l = l.
Proof.
  induction 1 as [|x l Hl IH Hx]; simpl; [reflexivity|].
  rewrite IH. destruct Hx as [|y l' Hxy]; simpl; [reflexivity|].
  unfold key_le in Hxy. rewrite Hxy. reflexivity.
Qed.

Lemma sorted_by_key_strongly (l : list Rule) :
  StronglySorted key_le (sorted_by_key l).
Proof. apply Sorted_StronglySorted; [exact key_le_trans | apply sorted_by_key_sorted]. Qed.

(** In a sorted list the hide rules stand before the others. *)
Lemma sorted_hides_first (l : list Rule) :
  StronglySorted key_le l ->
  l = (List.filter is_hide l ++ List.filter (fun r => negb (is_hide r)) l)%list.
Proof.
  induction 1 as [|x l Hl IH Hx]; simpl; [reflexivity|].
  destruct (is_hide x) eqn:E; simpl.
  - f_equal. exact IH.
  - assert (Hnone : forall y, In y l -> is_hide y = false).
    { intros y Hy. rewrite Forall_forall in Hx. specialize (Hx y Hy).
      apply key_le_cases in Hx. destruct Hx as [[? ?]|[? _]]; congruence. }
    assert (E1 : List.filter is_hide l = []).
    { clear -Hnone. induction l as [|y l IH]; simpl; [reflexivity|].
      rewrite (Hnone y (or_introl eq_refl)). apply IH. intros; apply Hnone; right; assumption. }
    rewrite E1. simpl. f_equal. symmetry. apply filter_all.
    intros y Hy. rewrite (Hnone y Hy). reflexivity.
Qed.

Lemma strongly_sorted_filter {B} (R : B -> B -> Prop) (f : B -> bool) (l : list B) :
  StronglySorted R l -> StronglySorted R (List.filter f l).
Proof.
  induction 1 as [|x l Hl IH Hx]; simpl; [constructor|].
  destruct (f x); [|exact IH]. constructor; [exact IH|].
  rewrite Forall_forall in *. intros y Hy. apply filter_In in Hy. apply Hx, Hy.
Qed.

Lemma strongly_sorted_weaken {B} (R R' : B -> B -> Prop) (l : list B) :
  (forall a b, In a l -> In b l -> R a b -> R' a b) ->
  StronglySorted R l -> StronglySorted R' l.
Proof.
  intros HR. induction 1 as [|x l Hl IH Hx]; [constructor|].
  constructor.
  - apply IH. intros a b Ha Hb. apply HR; right; assumption.
  - rewrite Forall_forall in *. intros y Hy.
    apply HR; [left; reflexivity | right; assumption | apply Hx, Hy].
Qed.

Lemma sorted_group_by_selector (b : bool) (l : list Rule) :
  StronglySorted key_le l ->
  StronglySorted selector_le (List.filter (fun r => Bool.eqb (is_hide r) b) l).
Proof.
  intros H. apply (strongly_sorted_filter _ (fun r => Bool.eqb (is_hide r) b)) in H.
  revert H. apply strongly_sorted_weaken.
  intros x y Hx Hy Hxy. apply filter_In in Hx, Hy.
  destruct Hx as [_ Hx], Hy as [_ Hy]. apply Bool.eqb_prop in Hx, Hy.
  apply key_le_cases in Hxy. destruct Hxy as [[? ?]|[_ ?]]; [congruence | assumption].
Qed.

End DedupeFacts.

(* ------------------------------------------------------------------ *)
(** ** Facts about the grouping by declaration *)
(* ------------------------------------------------------------------ *)

Module GroupFacts.
Import PyStr Parser UserCSS Spec DedupeFacts.

Lemma css_groups_snoc (rules : list Rule) (r : Rule) :
  css_groups (rules ++ [r])%list
  = dict_append (snd r) (fst r) (css_groups rules).
Proof. unfold css_groups. rewrite fold_left_app. reflexivity. Qed.

(** *** Counting selectors in the blocks *)

Lemma times_in_blocks_append (s d s' : string) (G : ListDict string) :
  times_in_blocks s (dict_append d s' G)
  = (times_in_blocks s G + if string_dec s' s then 1 else 0)%nat.
Proof.
  unfold times_in_blocks. induction G as [|[k vs] G IH]; simpl.
  - destruct (string_dec s' s); reflexivity.
  - destruct (String.eqb k d); simpl.
    + rewrite count_occ_app. simpl. destruct (string_dec s' s); lia.
    + rewrite IH. lia.
Qed.

Lemma rule_indicator (s d s' d' : string) :
  (if String.eqb d' d then (if string_dec s' s then 1 else 0) else 0)%nat
  = (if rule_dec (s', d') (s, d) then 1 else 0)%nat.
Proof.
  destruct (rule_dec (s', d') (s, d)) as [E|E].
  - injection E as -> ->. rewrite String.eqb_refl.
    destruct (string_dec s s); congruence.
  - destruct (String.eqb_spec d' d) as [->|]; [|reflexivity].
    destruct (string_dec s' s) as [->|]; congruence.
Qed.

Lemma times_in_block_append (s d d' s' : string) (G : ListDict string) :
  times_in_block s d (dict_append d' s' G)
  = (times_in_block s d G
     + if rule_dec (s', d') (s, d) then 1 else 0)%nat.
Proof.
  rewrite <- rule_indicator.
  unfold times_in_block. induction G as [|[k vs] G IH]; simpl.
  - destruct (String.eqb d' d); simpl; [|reflexivity].
    destruct (string_dec s' s); reflexivity.
  - destruct (String.eqb_spec k d'); simpl.
    + subst k. destruct (String.eqb d' d); [|lia].
      rewrite count_occ_app. simpl. destruct (string_dec s' s); lia.
    + rewrite IH. lia.
Qed.

Lemma times_in_blocks_total (s : string) (rules : list Rule) :
  times_in_blocks s (css_groups rules) = count_occ string_dec (map fst rules) s.
Proof.
  induction rules as [|r rules IH] using rev_ind; [reflexivity|].
  rewrite css_groups_snoc, times_in_blocks_append, IH.
  rewrite map_app, count_occ_app. simpl. reflexivity.
Qed.

Lemma times_in_block_total (s d : string) (rules : list Rule) :
  times_in_block s d (css_groups rules) = count_occ rule_dec rules (s, d).
Proof.
  induction rules as [|r rules IH] using rev_ind; [reflexivity|].
  rewrite css_groups_snoc, times_in_block_append, IH, count_occ_app.
  simpl. destruct r as [s' d']. simpl.
  destruct (rule_dec (s', d') (s, d)); reflexivity.
Qed.

Lemma existsb_count (s : string) (l : list string) :
  existsb (String.eqb s) l = (0 <? count_occ string_dec l s)%nat.
Proof.
  induction l as [|x l IH]; simpl; [reflexivity|].
  destruct (String.eqb_spec s x), (string_dec x s); simpl; try congruence.
  reflexivity.
Qed.

Lemma blocks_holding_bounds (s : string) (G : ListDict string) :
  (blocks_holding s G <= times_in_blocks s G)%nat
  /\ (0 < times_in_blocks s G -> 0 < blocks_holding s G)%nat.
Proof.
  unfold blocks_holding, times_in_blocks.
  induction G as [|[k vs] G [IH1 IH2]]; simpl; [lia|].
  rewrite existsb_count.
  destruct (Nat.ltb_spec 0 (count_occ string_dec vs s)); simpl; lia.
Qed.

(** *** The keys of the groups *)

Lemma dict_append_keys {V} (k : string) (v : V) (d : ListDict V) :
  map fst (dict_append k v d)
  = if existsb (String.eqb k) (map fst d) then map fst d
    else (map fst d ++ [k])%list.
Proof.
  induction d as [|[k' vs] d IH]; simpl; [reflexivity|].
  rewrite (String.eqb_sym k k'). destruct (String.eqb k' k); simpl; [reflexivity|].
  rewrite IH. destruct (existsb _ _); reflexivity.
Qed.

Lemma first_occurrences_snoc (l : list string) (d : string) :
  first_occurrences String.eqb (l ++ [d])%list
  = if existsb (String.eqb d) l then first_occurrences String.eqb l
    else (first_occurrences String.eqb l ++ [d])%list.
Proof.
  induction l as [|x l IH]; simpl; [reflexivity|].
  rewrite IH. rewrite (String.eqb_sym d x).
  destruct (String.eqb_spec x d) as [->|Hx]; simpl.
  - destruct (existsb (String.eqb d) l) eqn:E; [reflexivity|].
    rewrite filter_app. simpl. rewrite String.eqb_refl. simpl.
    rewrite List.app_nil_r. reflexivity.
  - destruct (existsb (String.eqb d) l); [reflexivity|].
    rewrite filter_app. simpl.
    destruct (String.eqb_spec x d); [congruence|]. reflexivity.
Qed.

Lemma existsb_first_occurrences (d : string) (l : list string) :
  existsb (String.eqb d) (first_occurrences String.eqb l)
  = existsb (String.eqb d) l.
Proof.
  apply eq_true_iff_eq. rewrite !existsb_exists.
  split; intros (x & Hx & E); exists x; split; auto;
    apply (first_occurrences_In String.eqb String.eqb_spec); assumption.
Qed.

Lemma css_groups_keys (rules : list Rule) :
  map fst (css_groups rules) = first_occurrences String.eqb (map snd rules).
Proof.
  induction rules as [|r rules IH] using rev_ind; [reflexivity|].
  rewrite css_groups_snoc, dict_append_keys, IH, map_app. simpl.
  rewrite first_occurrences_snoc, existsb_first_occurrences. reflexivity.
Qed.

(** *** The selectors of a group *)

(** The selectors under a key, read as [d[k]] of a dictionary with one
    entry per key. *)
Lemma dict_append_lookup {V} (k k' : string) (v : V) (d : ListDict V) :
  NoDup (map fst d) ->
  forall vs, In (k', vs) (dict_append k v d) ->
    (k' = k /\ (exists vs0, vs = (vs0 ++ [v])%list
                  /\ (In (k, vs0) d \/ (vs0 = [] /\ ~ In k (map fst d)))))
    \/ (k' <> k /\ In (k', vs) d).
Proof.
  induction d as [|[k0 vs0] d IH]; simpl; intros Hnd vs.
  - intros [[= <- <-]|[]]. left. split; [reflexivity|]. exists []. auto.
  - inversion Hnd as [|? ? Hk0 Hnd']; subst.
    destruct (String.eqb_spec k0 k) as [->|Hne]; simpl.
    + intros [[= <- <-]|Hin].
      * left. split; [reflexivity|]. exists vs0. auto.
      * right. split; [|auto]. intros ->. apply Hk0.
        apply (in_map fst) in Hin. exact Hin.
    + intros [[= <- <-]|Hin].
      * right. auto.
      * apply IH in Hin; [|exact Hnd'].
        destruct Hin as [(-> & vs1 & -> & Hor)|(Hne' & Hin)].
        -- left. split; [reflexivity|]. exists vs1. split; [reflexivity|].
           destruct Hor as [H|[-> H]]; [auto|]. right. split; [reflexivity|].
           intros [E|E]; [congruence | exact (H E)].
        -- right. auto.
Qed.

Lemma css_groups_NoDup (rules : list Rule) : NoDup (map fst (css_groups rules)).
Proof.
  rewrite css_groups_keys. apply first_occurrences_NoDup, String.eqb_spec.
Qed.

Lemma css_groups_selectors (rules : list Rule) (d : string) (sels : list string) :
  In (d, sels) (css_groups rules) ->
  sels = map fst (List.filter (fun r => String.eqb (snd r) d) rules).
Proof.
  revert d sels. induction rules as [|r rules IH] using rev_ind; intros d sels.
  - simpl. tauto.
  - rewrite css_groups_snoc. intros Hin.
    apply dict_append_lookup in Hin; [|apply css_groups_NoDup].
    rewrite filter_app, map_app. simpl.
    destruct Hin as [(-> & vs0 & -> & Hor)|(Hne & Hin)].
    + rewrite String.eqb_refl. simpl. f_equal.
      destruct Hor as [H|[-> H]]; [apply IH, H|].
      rewrite css_groups_keys in H.
      rewrite (first_occurrences_In String.eqb String.eqb_spec) in H.
      clear -H. induction rules as [|x rules IH]; simpl; [reflexivity|].
      destruct (String.eqb_spec (snd x) (snd r)) as [E|E].
      * exfalso. apply H. simpl. auto.
      * apply IH. intros H'. apply H. simpl. auto.
    + destruct (String.eqb_spec (snd r) d); [congruence|]. simpl.
      rewrite List.app_nil_r. apply IH, Hin.
Qed.

(** The groups the code builds are the groups of the specification. *)
Lemma css_groups_spec (rules : list Rule) :
  css_groups rules = group_by_declaration rules.
Proof.
  unfold group_by_declaration. rewrite <- css_groups_keys.
  pose proof (css_groups_selectors rules) as H.
  induction (css_groups rules) as [|[d sels] G IH]; simpl; [reflexivity|].
  rewrite <- (H d sels (or_introl eq_refl)). f_equal.
  apply IH. intros d' sels' Hin. apply H. right. exact Hin.
Qed.

End GroupFacts.

(* ------------------------------------------------------------------ *)
(** ** Facts about [replace], the sanitizer and the export *)
(* ------------------------------------------------------------------ *)

Module SanitizeFacts.
Import PyStr Sanitize Spec PyStrFacts LineFacts.

#[local] Arguments startswith : simpl never.

Lemma contains_empty (old : string) : old <> "" -> contains old "" = false.
Proof. destruct old; [congruence | reflexivity]. Qed.

(** A count that is at least the length of the string replaces every
    occurrence the scan meets. *)
Lemma replace_n_removes_all (old : string) (n : nat) (s : string) :
  old <> "" -> (length s <= n)%nat -> RemovedAll old s (replace_n old "" n s).
Proof.
  intros Hold. revert s. induction n as [|n IH]; intros s Hlen.
  - destruct s; [|simpl in Hlen; lia]. simpl.
    apply removed_none, contains_empty, Hold.
  - simpl. destruct (partition old s) as [[a b]|] eqn:P.
    + pose proof (partition_shrinks _ _ _ _ Hold P) as Hb.
      pose proof (partition_first _ _ _ _ P) as Hmin.
      apply partition_some in P. subst s. simpl.
      apply removed_first.
      * intros a' b' E. apply (Hmin a' b' E).
      * apply IH. lia.
    + apply removed_none, partition_none, P.
Qed.

Lemma replace_removes_all (old s : string) :
  old <> "" -> RemovedAll old s (replace old "" s).
Proof. intros H. apply replace_n_removes_all; [exact H | lia]. Qed.

Lemma filter_all_chars (f : ascii -> bool) (s : string) :
  all_chars f (PyStr.filter f s) = true.
Proof.
  induction s as [|c s IH]; simpl; [reflexivity|].
  destruct (f c) eqn:E; simpl; [rewrite E|]; exact IH.
Qed.

Lemma all_chars_app (f : ascii -> bool) (a b : string) :
  all_chars f (a ++ b) = all_chars f a && all_chars f b.
Proof.
  induction a as [|c a IH]; simpl; [reflexivity|].
  rewrite IH, andb_assoc. reflexivity.
Qed.

Lemma rstrip_all_chars (f : ascii -> bool) (s : string) :
  all_chars f s = true -> all_chars f (rstrip s) = true.
Proof.
  intros H. destruct (rstrip_prefix s) as [b Hb].
  rewrite Hb, all_chars_app in H. apply andb_true_iff in H. tauto.
Qed.

End SanitizeFacts.

Module StylusJsonFacts.
Import PyStr Parser Dedupe UserCSS StylusJson Spec.

Lemma nth_error_enumerate {A} (xs : list A) (start i : nat) :
  nth_error (enumerate xs start) i
  = option_map (fun x => ((start + i)%nat, x)) (nth_error xs i).
Proof.
  revert start i. induction xs as [|x xs IH]; intros start [|i]; simpl;
    try reflexivity.
  - rewrite Nat.add_0_r. reflexivity.
  - rewrite IH. rewrite Nat.add_succ_r. reflexivity.
Qed.

Lemma length_enumerate {A} (xs : list A) (start : nat) :
  List.length (enumerate xs start) = List.length xs.
Proof.
  revert start. induction xs as [|x xs IH]; intros start; simpl;
    [reflexivity | rewrite IH; reflexivity].
Qed.

Lemma entry_name_created env name rules domains style_id is_global c :
  entry_name (fst (create_stylus_style_entry env name rules domains
                     style_id is_global c)) = Some name.
Proof. reflexivity. Qed.

Lemma entry_id_created env name rules domains style_id is_global c :
  entry_id (fst (create_stylus_style_entry env name rules domains
                   style_id is_global c)) = Some style_id.
Proof. reflexivity. Qed.

Lemma global_entry_no_domains env name rules domains style_id c :
  has_domains_field (fst (create_stylus_style_entry env name rules domains
                            style_id true c)) = false.
Proof. reflexivity. Qed.

Lemma domain_entry_has_domains env name rules d ds style_id c :
  has_domains_field (fst (create_stylus_style_entry env name rules
                            (Some (d :: ds)) style_id false c)) = true.
Proof. reflexivity. Qed.

(** The loop makes one entry per item, in the order of the items, named
    after the domain and numbered from the base by the index. *)
Lemma domain_entries_spec (env : Env) (base : Z)
  (items : list (nat * (string * list Rule))) (c : Calls) :
  List.length (fst (domain_entries env base items c)) = List.length items
  /\ forall i idx domain rules,
       nth_error items i = Some (idx, (domain, rules)) ->
       exists e,
         nth_error (fst (domain_entries env base items c)) i = Some e
         /\ entry_name e = Some domain
         /\ entry_id e = Some (base + Z.of_nat idx)%Z
         /\ has_domains_field e = true.
Proof.
  revert c. induction items as [|[idx0 [d0 rules0]] items IH]; intros c.
  - split; [reflexivity|]. intros [|i]; discriminate.
  - cbn [domain_entries].
    set (doms := if negb (startswith "www." d0) then [d0; "www." ++ d0] else [d0]).
    assert (Hd : exists d ds, doms = d :: ds).
    { unfold doms. destruct (negb (startswith "www." d0)); eauto. }
    destruct Hd as (d & ds & Hd). rewrite Hd. clear doms Hd.
    pose proof (entry_name_created env d0 (dedupe_rules rules0) (Some (d :: ds))
                  (base + Z.of_nat idx0) false c) as Hname.
    pose proof (entry_id_created env d0 (dedupe_rules rules0) (Some (d :: ds))
                  (base + Z.of_nat idx0) false c) as Hid.
    pose proof (domain_entry_has_domains env d0 (dedupe_rules rules0) d ds
                  (base + Z.of_nat idx0) c) as Hdom.
    destruct (create_stylus_style_entry env d0 (dedupe_rules rules0)
                (Some (d :: ds)) (base + Z.of_nat idx0) false c)
      as [entry c'].
    specialize (IH c').
    destruct (domain_entries env base items c') as [entries c''].
    cbn [fst] in *. destruct IH as [IHlen IHnth]. split; [simpl; congruence|].
    intros [|i] idx domain rules; simpl.
    + intros [= -> -> ->]. exists entry. auto.
    + apply IHnth.
Qed.

End StylusJsonFacts.

(* ------------------------------------------------------------------ *)
(** ** The examples of the specification *)
(* ------------------------------------------------------------------ *)

Module Examples.
Import PyStr StyleRegex Parser Dedupe UserCSS Sanitize.

Example hide_rule_of_a_domain :
  parse_filters "domain.com##.ad"
  = inr (mkState [("domain.com", [(".ad", HIDE)])] [] [] []).
Proof. vm_compute. reflexivity. Qed.

Example global_hide_rule :
  parse_filters "##.global-ad" = inr (mkState [] [(".global-ad", HIDE)] [] []).
Proof. vm_compute. reflexivity. Qed.

Example rule_under_each_domain :
  parse_filters "a.com,b.com##.x"
  = inr (mkState [("a.com", [(".x", HIDE)]); ("b.com", [(".x", HIDE)])] [] [] []).
Proof. vm_compute. reflexivity. Qed.

Example style_rule :
  parse_filters "example.com##div:style(color: red !important)"
  = inr (mkState [("example.com", [("div", "color: red !important")])] [] [] []).
Proof. vm_compute. reflexivity. Qed.

Example network_filter_skipped :
  parse_filters "||ads.example.com^"
  = inr (mkState [] [] [] [(1%nat, "||ads.example.com^", "Network filter")]).
Proof. vm_compute. reflexivity. Qed.

Example empty_selector_invalid :
  parse_filters "example.com##"
  = inr (mkState [] [] [(1%nat, "example.com##", "Empty selector")] []).
Proof. vm_compute. reflexivity. Qed.

Example empty_domain_token_is_a_key :
  parse_filters "a.com,##.x"
  = inr (mkState [("a.com", [(".x", HIDE)]); ("", [(".x", HIDE)])] [] [] []).
Proof. vm_compute. reflexivity. Qed.

Example lines_are_numbered_from_one :
  parse_filters ("! list" ++ String LF "foo" ++ String CR (String LF "a$b##c"))
  = inr (mkState [] [] [(2%nat, "foo", "Missing ## separator")]
                 [(3%nat, "a$b##c", "Network filter with options")]).
Proof. vm_compute. reflexivity. Qed.

Example sanitize_collision :
  sanitize_filename "www.example.com" = "example.com"
  /\ sanitize_filename "example.com" = "example.com".
Proof. split; vm_compute; reflexivity. Qed.

Example dedupe_sorts_hide_rules_first :
  dedupe_rules [("b", "x"); ("a", HIDE); ("b", "x"); ("a", "y"); ("a", "x");
                ("c", HIDE); ("B", HIDE)]
  = [("B", HIDE); ("a", HIDE); ("c", HIDE); ("a", "y"); ("a", "x"); ("b", "x")].
Proof. vm_compute. reflexivity. Qed.

Example usercss_of_a_domain :
  generate_usercss "ex.com" [("a", HIDE); ("b", "x"); ("c", HIDE)] false
  = header "ex.com" ++
    "@-moz-document domain(" ++ QUOTE ++ "ex.com" ++ QUOTE ++ ") {" ++ NL ++
    "    a," ++ NL ++
    "    c {" ++ NL ++
    "        display: none !important;" ++ NL ++
    "    }" ++ NL ++
    NL ++
    "    b {" ++ NL ++
    "        x;" ++ NL ++
    "    }" ++ NL ++
    "}".
Proof. vm_compute. reflexivity. Qed.

End Examples.

(* ------------------------------------------------------------------ *)
(** ** The parser: properties of the specification *)
(* ------------------------------------------------------------------ *)

Module ParserTheorems.
Import PyStr StyleRegex Parser Spec.
Import PyStrFacts StyleRegexFacts ParserFacts LineFacts.

#[local] Arguments startswith : simpl never.
#[local] Arguments strip : simpl never.
#[local] Arguments contains : simpl never.
#[local] Arguments style_match : simpl never.

Lemma parse_filters_scan (text : string) (st : ParseState) :
  scan (splitlines (strip text)) empty_state = (inr tt, st) ->
  parse_filters text = inr st.
Proof. unfold parse_filters. intros ->. reflexivity. Qed.

(** C1. Every line that is neither empty nor a comment once trimmed is
    accounted for in exactly one way: it adds rule associations and
    leaves the two diagnostic lists alone, or it adds one entry to
    [invalid_lines] and nothing else, or it adds one entry to
    [skipped_lines] and nothing else; an empty or comment line changes
    nothing.  Hence, for every input text, the number of lines that add
    rules plus the lengths of [invalid_lines] and [skipped_lines] is the
    number of non-empty non-comment lines. *)
Theorem C1_every_line_classified_once (text : string) :
  exists st,
    parse_filters text = inr st
    /\ (List.length (List.filter contributes_rule (splitlines (strip text)))
        + List.length (invalid_lines st) + List.length (skipped_lines st)
        = List.length (List.filter significant (splitlines (strip text))))%nat
    /\ forall n raw st0,
         exists st1,
           process_line (n, raw) st0 = (inr tt, st1)
           /\ if significant raw then
                exactly_one (to_rules st0 st1)
                            (to_invalid n (strip raw) st0 st1)
                            (to_skipped n (strip raw) st0 st1)
                /\ (contributes_rule raw = true <-> to_rules st0 st1)
              else st1 = st0 /\ contributes_rule raw = false.
Proof.
  destruct (scan_counts (splitlines (strip text)) 1 empty_state)
    as (st & Hrun & Hcount).
  exists st. split; [apply parse_filters_scan, Hrun|].
  split; [simpl in Hcount; lia|].
  intros n raw st0. apply line_accounted.
Qed.

(** When a line reaches the [try] block, the turn of the loop is that
    block under its handler. *)
Lemma process_line_reaches (n : nat) (raw p0 p1 : string) (st : ParseState) :
  significant raw = true ->
  startswith "||" (strip raw) || startswith "@@" (strip raw)
    || startswith "/" (strip raw) = false ->
  partition "##" (strip raw) = Some (p0, p1) ->
  contains "$" p0 = false ->
  process_line (n, raw) st = guarded_rule n (strip raw) st.
Proof.
  unfold process_line, significant. cbn [fst snd].
  set (line := strip raw). intros Hsig Hnet Hp Hd.
  apply negb_true_iff in Hsig. rewrite Hsig, Hnet.
  assert (Eh : contains "##" line = true).
  { destruct (contains "##" line) eqn:E; [reflexivity|].
    apply partition_none in E. congruence. }
  rewrite Eh.
  destruct (split_head "##" line p0 p1 ltac:(discriminate) Hp) as (rest & Hs).
  unfold py_split, index. rewrite Hs. cbv [bind ret nth_error].
  rewrite Hd. reflexivity.
Qed.

(** C2, as the code has it.  For a line of the input that reaches the
    [:style()] handling (it is neither blank, comment nor network filter,
    it holds [##] with no [$] before it, and its trimmed selector part is
    not empty and holds [:style(]): the selector part is matched against
    "one or more characters, [:style(], one or more characters, [)] at
    the very end"; when it can be read so, the selector is everything up
    to the FIRST [:style(] that allows such a reading, the declaration
    is everything between that [:style(] and the final [)], and the rule
    stored is the pair of the two, trimmed; when it cannot, the line goes
    to [invalid_lines] with the reason "Invalid :style() syntax". *)
Theorem C2_style_clause_first_split (text : string) (n : nat)
  (raw p0 p1 : string) (st : ParseState) :
  In (n, raw) (enumerate (splitlines (strip text)) 1) ->
  significant raw = true ->
  startswith "||" (strip raw) || startswith "@@" (strip raw)
    || startswith "/" (strip raw) = false ->
  partition "##" (strip raw) = Some (p0, p1) ->
  contains "$" p0 = false ->
  strip p1 <> "" ->
  contains ":style(" (strip p1) = true ->
  (forall g1 g2,
      FirstStyleSplit (strip p1) g1 g2 ->
      process_line (n, raw) st
      = store_rule (strip p0) (strip g1, strip g2) st)
  /\ ((forall g1 g2, ~ StyleSplit (strip p1) g1 g2) ->
      process_line (n, raw) st
      = append_invalid (n, strip raw, "Invalid :style() syntax") st)
  /\ ((exists g1 g2, FirstStyleSplit (strip p1) g1 g2)
      \/ (forall g1 g2, ~ StyleSplit (strip p1) g1 g2)).
Proof.
  intros Hin Hsig Hnet Hp Hd Hne Hst.
  assert (Hnl : no_line_feed (strip p1) = true).
  { apply strip_no_line_feed. eapply partition_no_line_feed; [exact Hp|].
    apply strip_no_line_feed. apply in_enumerate in Hin.
    pose proof (splitlines_no_line_feed (strip text)) as Hall.
    rewrite Forall_forall in Hall. apply Hall, Hin. }
  assert (Hrun : process_line (n, raw) st =
                 match style_match (strip p1) with
                 | Some (g1, g2) => store_rule (strip p0) (strip g1, strip g2) st
                 | None => append_invalid (n, strip raw, "Invalid :style() syntax") st
                 end).
  { rewrite (process_line_reaches n raw p0 p1 st Hsig Hnet Hp Hd).
    unfold guarded_rule, try_except.
    rewrite (cosmetic_rule_unfold _ _ _ _ _ Hp), Hst.
    apply String.eqb_neq in Hne. rewrite Hne.
    destruct (style_match (strip p1)) as [[g1 g2]|]; [|reflexivity].
    destruct (store_rule_ok (strip p0) (strip g1, strip g2) st) as (st' & -> & _).
    reflexivity. }
  destruct (style_match (strip p1)) as [[a b]|] eqn:Em.
  - pose proof (style_match_some _ _ _ Hnl Em) as Hfirst.
    split; [|split].
    + intros g1 g2 Hg.
      destruct (first_style_split_unique _ _ _ _ _ Hg Hfirst) as [-> ->].
      exact Hrun.
    + intros Hno. exfalso. destruct Hfirst as [Hs _]. exact (Hno _ _ Hs).
    + left. eauto.
  - pose proof (style_match_none _ Hnl Em) as Hno.
    split; [|split].
    + intros g1 g2 [Hs _]. exfalso. exact (Hno _ _ Hs).
    + intros _. exact Hrun.
    + right. exact Hno.
Qed.

(** The counterexample line of C2: its selector part holds two
    [:style(] wrappers. *)
Lemma double_style_last_split :
  LastStyleSplit "b:style(c):style(d)" "b:style(c)" "d".
Proof.
  split.
  - repeat split; discriminate.
  - intros h1 h2 (Heq & _ & Hh2).
    apply (f_equal length) in Heq. rewrite !str_length_app in Heq.
    destruct h2; [congruence|]. simpl in *. lia.
Qed.

(** C2 as stated fails: on the line [##b:style(c):style(d)] the split at
    the LAST [:style(] is ("b:style(c)", "d"), while the rule the parser
    stores is ("b", "c):style(d"), the split at the first one. *)
Lemma C2_counterexample :
  exists g1 g2,
    LastStyleSplit "b:style(c):style(d)" g1 g2
    /\ parse_filters "##b:style(c):style(d)"
       = inr (mkState [] [("b", "c):style(d")] [] [])
    /\ parse_filters "##b:style(c):style(d)"
       <> inr (mkState [] [(strip g1, strip g2)] [] []).
Proof.
  exists "b:style(c)", "d". split; [exact double_style_last_split|].
  split; [vm_compute; reflexivity | vm_compute; discriminate].
Qed.

(** The theorem at work on a line whose selector part holds two
    wrappers, under the domain [a.com]. *)
Lemma C2_witness :
  (forall g1 g2,
      FirstStyleSplit (strip "b:style(c):style(d)") g1 g2 ->
      process_line (1%nat, "a.com##b:style(c):style(d)") empty_state
      = store_rule (strip "a.com") (strip g1, strip g2) empty_state)
  /\ ((forall g1 g2, ~ StyleSplit (strip "b:style(c):style(d)") g1 g2) ->
      process_line (1%nat, "a.com##b:style(c):style(d)") empty_state
      = append_invalid (1%nat, strip "a.com##b:style(c):style(d)",
                        "Invalid :style() syntax") empty_state)
  /\ ((exists g1 g2, FirstStyleSplit (strip "b:style(c):style(d)") g1 g2)
      \/ (forall g1 g2, ~ StyleSplit (strip "b:style(c):style(d)") g1 g2)).
Proof.
  apply (C2_style_clause_first_split "a.com##b:style(c):style(d)" 1
           "a.com##b:style(c):style(d)" "a.com" "b:style(c):style(d)"
           empty_state).
  - vm_compute. left. reflexivity.
  - vm_compute. reflexivity.
  - vm_compute. reflexivity.
  - vm_compute. reflexivity.
  - vm_compute. reflexivity.
  - vm_compute. discriminate.
  - vm_compute. reflexivity.
Defined.

(** C9. [parse_filters] never raises.  The [try] statement turns an
    exception of its body into one entry of [invalid_lines] that carries
    the text of the exception, keeps what the body had done before, and
    returns normally; and the scan of a sequence of lines always goes on
    to the lines that follow, whatever the earlier lines were. *)
Theorem C9_parse_never_raises (text : string) :
  (exists st, parse_filters text = inr st)
  /\ (forall n line st,
        match cosmetic_rule n line st with
        | (inl e, st') =>
            guarded_rule n line st
            = (inr tt, mkState (domain_map st') (global_selectors st')
                               (invalid_lines st' ++ [(n, line, str_exn e)])%list
                               (skipped_lines st'))
        | (inr _, st') => guarded_rule n line st = (inr tt, st')
        end)
  /\ guarded_rule 7 "no separator" empty_state
     = (inr tt, mkState [] [] [(7%nat, "no separator", "list index out of range")] [])
  /\ (forall items later st,
        exists st1,
          for_each process_line items st = (inr tt, st1)
          /\ for_each process_line (items ++ later)%list st
             = for_each process_line later st1).
Proof.
  split; [|split; [|split]].
  - destruct (scan_total (enumerate (splitlines (strip text)) 1) empty_state)
      as (st & Hrun).
    exists st. apply parse_filters_scan, Hrun.
  - intros n line st. unfold guarded_rule, try_except.
    destruct (cosmetic_rule n line st) as [[e|[]] st']; reflexivity.
  - vm_compute. reflexivity.
  - intros items later st. destruct (scan_total items st) as (st1 & Hrun).
    exists st1. split; [exact Hrun|]. rewrite for_each_app, Hrun. reflexivity.
Qed.

(** C10. Every rule that [parse_filters] stores, under a domain or among
    the global rules, has a selector that is not empty and has no leading
    or trailing whitespace; the declaration may be empty, as for the line
    [##a:style( )]. *)
Theorem C10_stored_selectors_trimmed (text : string) :
  (exists st,
     parse_filters text = inr st
     /\ Forall (fun rule => trimmed_nonempty (fst rule)) (held_rules st))
  /\ parse_filters "##a:style( )" = inr (mkState [] [("a", "")] [] []).
Proof.
  split; [|vm_compute; reflexivity].
  destruct (scan_total (enumerate (splitlines (strip text)) 1) empty_state)
    as (st & Hrun).
  exists st. split; [apply parse_filters_scan, Hrun|].
  apply Forall_forall.
  apply (scan_rules (fun r => trimmed_nonempty (fst r)) _ _ _ (fun r H => H) Hrun).
  intros r [].
Qed.

End ParserTheorems.

(* ------------------------------------------------------------------ *)
(** ** Deduplication: properties of the specification *)
(* ------------------------------------------------------------------ *)

Module DedupeTheorems.
Import PyStr Parser Dedupe Spec DedupeFacts.

Lemma filter_is_hide (l : list Rule) :
  List.filter (fun r => Bool.eqb (is_hide r) true) l = List.filter is_hide l.
Proof. apply filter_ext. intros r. destruct (is_hide r); reflexivity. Qed.

Lemma filter_not_hide (l : list Rule) :
  List.filter (fun r => Bool.eqb (is_hide r) false) l
  = List.filter (fun r => negb (is_hide r)) l.
Proof. apply filter_ext. intros r. destruct (is_hide r); reflexivity. Qed.

Lemma same_rule_spec (a b : Rule) : reflect (a = b) (same_rule a b).
Proof. unfold same_rule. destruct (rule_dec a b); constructor; assumption. Qed.

Lemma first_occurrences_ext {A} (f g : A -> A -> bool) (l : list A) :
  (forall a b, f a b = g a b) ->
  first_occurrences f l = first_occurrences g l.
Proof.
  intros H. induction l as [|x l IH]; simpl; [reflexivity|].
  rewrite IH. f_equal. apply filter_ext. intros y. rewrite H. reflexivity.
Qed.

Lemma rule_eqb_same_rule (a b : Rule) : rule_eqb a b = same_rule a b.
Proof.
  destruct (rule_eqb_spec a b), (same_rule_spec a b); congruence.
Qed.

(** C6. The loop of [dedupe_rules] removes each rule that is equal (the
    same selector and the same declaration) to an earlier rule and keeps
    the first occurrence: what it keeps holds no rule twice and holds
    exactly the rules of the input.  The result holds the same rules,
    sorted: the rules whose declaration is exactly
    [display: none !important] stand before all the others, and each of
    the two groups is in ascending order of selector text. *)
Theorem C6_dedupe_keeps_first_and_sorts (rules : list Rule) :
  snd (dedupe_loop rules) = first_occurrences same_rule rules
  /\ NoDup (snd (dedupe_loop rules))
  /\ (forall r, In r (snd (dedupe_loop rules)) <-> In r rules)
  /\ Permutation (dedupe_rules rules) (first_occurrences same_rule rules)
  /\ StronglySorted key_le (dedupe_rules rules)
  /\ exists hides others,
       dedupe_rules rules = (hides ++ others)%list
       /\ Forall (fun r => snd r = HIDE) hides
       /\ Forall (fun r => snd r <> HIDE) others
       /\ StronglySorted selector_le hides
       /\ StronglySorted selector_le others.
Proof.
  assert (E : first_occurrences rule_eqb rules = first_occurrences same_rule rules)
    by (apply first_occurrences_ext, rule_eqb_same_rule).
  rewrite dedupe_loop_unique, E.
  split; [reflexivity|].
  split; [apply first_occurrences_NoDup, same_rule_spec|].
  split; [intros r; apply first_occurrences_In, same_rule_spec|].
  rewrite dedupe_rules_unfold, E.
  split; [apply sorted_by_key_perm|].
  pose proof (sorted_by_key_strongly (first_occurrences same_rule rules)) as Hs.
  split; [exact Hs|].
  set (l := sorted_by_key (first_occurrences same_rule rules)) in *.
  exists (List.filter is_hide l), (List.filter (fun r => negb (is_hide r)) l).
  split; [apply sorted_hides_first, Hs|].
  split; [|split; [|split]].
  - apply Forall_forall. intros r Hr. apply filter_In in Hr.
    destruct Hr as [_ Hr]. apply String.eqb_eq, Hr.
  - apply Forall_forall. intros r Hr. apply filter_In in Hr.
    destruct Hr as [_ Hr]. apply negb_true_iff in Hr. apply String.eqb_neq, Hr.
  - rewrite <- filter_is_hide. apply sorted_group_by_selector, Hs.
  - rewrite <- filter_not_hide. apply sorted_group_by_selector, Hs.
Qed.

(** C7. [dedupe_rules] is idempotent; its result holds no rule twice;
    it holds exactly the rules of the input, each once (the input as a
    multiset reduced to a set), and is a rearrangement of the first
    occurrences of the input. *)
Theorem C7_dedupe_idempotent_set (x : list Rule) :
  dedupe_rules (dedupe_rules x) = dedupe_rules x
  /\ NoDup (dedupe_rules x)
  /\ (forall r, In r (dedupe_rules x) <-> In r x)
  /\ (forall r, count_occ rule_dec (dedupe_rules x) r
                = Nat.min 1 (count_occ rule_dec x r))
  /\ Permutation (dedupe_rules x) (first_occurrences rule_eqb x).
Proof.
  assert (Hperm : Permutation (dedupe_rules x) (first_occurrences rule_eqb x)).
  { rewrite dedupe_rules_unfold. apply sorted_by_key_perm. }
  assert (Hnd : NoDup (dedupe_rules x)).
  { eapply Permutation_NoDup; [symmetry; exact Hperm|].
    apply first_occurrences_NoDup, rule_eqb_spec. }
  assert (Hin : forall r, In r (dedupe_rules x) <-> In r x).
  { intros r. rewrite <- (first_occurrences_In rule_eqb rule_eqb_spec x r).
    split; apply Permutation_in; [exact Hperm | symmetry; exact Hperm]. }
  split; [|split; [exact Hnd|split; [exact Hin|split; [|exact Hperm]]]].
  - rewrite (dedupe_rules_unfold (dedupe_rules x)).
    rewrite (first_occurrences_fixed rule_eqb rule_eqb_spec _ Hnd).
    apply sorted_by_key_fixed. rewrite dedupe_rules_unfold.
    apply sorted_by_key_sorted.
  - intros r. pose proof (proj1 (NoDup_count_occ rule_dec _) Hnd r) as Hle.
    destruct (in_dec rule_dec r x) as [Hr|Hr].
    + pose proof (proj1 (count_occ_In rule_dec _ _) Hr).
      pose proof (proj1 (count_occ_In rule_dec _ _) (proj2 (Hin r) Hr)). lia.
    + rewrite (proj1 (count_occ_not_In rule_dec _ _) Hr).
      apply count_occ_not_In. intros H. apply Hr, Hin, H.
Qed.

End DedupeTheorems.

(* ------------------------------------------------------------------ *)
(** ** The generators: properties of the specification *)
(* ------------------------------------------------------------------ *)

Module UserCSSTheorems.
Import PyStr Parser UserCSS Spec GroupFacts.

(** C3, as the code has it.  The blocks of the generated text are the
    groups of [css_groups], one per distinct declaration.  A selector
    stands in the block of a declaration as many times as the rule
    (selector, declaration) occurs in the input list, and in all blocks
    together as many times as it occurs as a selector in the input list.
    Hence, when no selector occurs twice in the input list, every
    selector of the list stands exactly once in exactly one block, and
    that is the block of its own declaration. *)
Theorem C3_selectors_in_blocks (rules : list Rule) (s d : string) :
  css_blocks rules = map css_block (css_groups rules)
  /\ NoDup (map fst (css_groups rules))
  /\ times_in_block s d (css_groups rules) = count_occ rule_dec rules (s, d)
  /\ times_in_blocks s (css_groups rules)
     = count_occ string_dec (map fst rules) s
  /\ (NoDup (map fst rules) -> In (s, d) rules ->
      times_in_blocks s (css_groups rules) = 1%nat
      /\ blocks_holding s (css_groups rules) = 1%nat
      /\ times_in_block s d (css_groups rules) = 1%nat).
Proof.
  split; [reflexivity|]. split; [apply css_groups_NoDup|].
  split; [apply times_in_block_total|].
  split; [apply times_in_blocks_total|].
  intros Hnd Hin.
  assert (H1 : times_in_blocks s (css_groups rules) = 1%nat).
  { rewrite times_in_blocks_total.
    pose proof (proj1 (NoDup_count_occ string_dec _) Hnd s) as Hle.
    assert (Hs : In s (map fst rules)) by (apply (in_map fst) in Hin; exact Hin).
    apply (count_occ_In string_dec) in Hs. lia. }
  split; [exact H1|]. split.
  - destruct (blocks_holding_bounds s (css_groups rules)) as [Hle Hpos]. lia.
  - rewrite times_in_block_total.
    assert (Hnd' : NoDup rules) by (eapply NoDup_map_inv; exact Hnd).
    pose proof (proj1 (NoDup_count_occ rule_dec _) Hnd' (s, d)) as Hle.
    apply (count_occ_In rule_dec) in Hin. lia.
Qed.

(** C3 as stated fails: with the rules ("a", "x") and ("a", "y") the
    selector [a] stands in two blocks. *)
Lemma C3_counterexample :
  In "a" (map fst [("a", "x"); ("a", "y")])
  /\ blocks_holding "a" (css_groups [("a", "x"); ("a", "y")]) = 2%nat
  /\ times_in_blocks "a" (css_groups [("a", "x"); ("a", "y")]) <> 1%nat.
Proof. split; [left; reflexivity|]. split; [reflexivity | discriminate]. Qed.

(** The theorem at work on three rules with distinct selectors. *)
Lemma C3_witness :
  times_in_blocks "b" (css_groups [("a", "x"); ("b", "x"); ("c", "y")]) = 1%nat
  /\ blocks_holding "b" (css_groups [("a", "x"); ("b", "x"); ("c", "y")]) = 1%nat
  /\ times_in_block "b" "x" (css_groups [("a", "x"); ("b", "x"); ("c", "y")]) = 1%nat.
Proof.
  apply (C3_selectors_in_blocks [("a", "x"); ("b", "x"); ("c", "y")] "b" "x").
  - simpl. repeat constructor; simpl; intuition discriminate.
  - simpl. right. left. reflexivity.
Defined.

(** C4. The body of the generated text groups the rules by identical
    declaration text, the groups in the order in which their declarations
    are first seen; each group gives one CSS rule: its selectors joined
    by a comma, a newline and four spaces, then the declaration text
    followed by [;] on a line of its own.  The rules are joined by a
    blank line, and wrapped in [@-moz-document domain("<name>") { ... }]
    unless [is_global] is true. *)
Theorem C4_usercss_body (name : string) (rules : list Rule) (is_global : bool) :
  css_groups rules = group_by_declaration rules
  /\ generate_usercss name rules is_global
     = header name ++
       let body :=
         join (NL ++ NL)
              (map (fun g => css_rule_text (fst g) (snd g))
                   (group_by_declaration rules)) in
       if is_global then body
       else "@-moz-document domain(" ++ QUOTE ++ name ++ QUOTE ++ ") {" ++ NL ++
            body ++ NL ++ "}".
Proof.
  split; [apply css_groups_spec|].
  unfold generate_usercss, all_rules, css_blocks. rewrite css_groups_spec.
  f_equal. cbv zeta.
  assert (E : map css_block (group_by_declaration rules)
              = map (fun g => css_rule_text (fst g) (snd g))
                    (group_by_declaration rules)).
  { apply map_ext. intros [d sels]. reflexivity. }
  rewrite E. reflexivity.
Qed.

End UserCSSTheorems.

Module SanitizeTheorems.
Import PyStr Sanitize Spec PyStrFacts SanitizeFacts.

(** C5, as the code has it.  [sanitize_filename] removes every occurrence
    of [www.] that a scan from left to right meets, then likewise every
    occurrence of [https://] in the result, then of [http://]; it keeps
    only the letters, digits, spaces and the characters [.], [_] and [-];
    and it trims the whitespace at the end. *)
Theorem C5_sanitize_removes_all (filename : string) :
  exists s1 s2 s3,
    RemovedAll "www." filename s1
    /\ RemovedAll "https://" s1 s2
    /\ RemovedAll "http://" s2 s3
    /\ sanitize_filename filename = rstrip (PyStr.filter keep s3)
    /\ all_chars (fun c => isalpha c || isdigit c
                           || Ascii.eqb c " " || Ascii.eqb c "."
                           || Ascii.eqb c "_" || Ascii.eqb c "-")
                 (sanitize_filename filename) = true
    /\ is_space_opt (last_char (sanitize_filename filename)) = false.
Proof.
  exists (replace "www." "" filename),
         (replace "https://" "" (replace "www." "" filename)),
         (replace "http://" "" (replace "https://" "" (replace "www." "" filename))).
  split; [apply replace_removes_all; discriminate|].
  split; [apply replace_removes_all; discriminate|].
  split; [apply replace_removes_all; discriminate|].
  split; [reflexivity|]. split.
  - unfold sanitize_filename.
    set (s3 := replace "http://" "" _).
    pose proof (rstrip_all_chars keep _ (filter_all_chars keep s3)) as H.
    revert H. generalize (rstrip (PyStr.filter keep s3)). clear.
    induction s as [|c s IH]; simpl; [reflexivity|].
    intros H. apply andb_true_iff in H. destruct H as [Hc Hs].
    rewrite (IH Hs), andb_true_r. revert Hc. unfold keep, is_safe_punct.
    rewrite !orb_assoc. auto.
  - apply rstrip_last.
Qed.

(** C5 as stated fails: of two occurrences of [www.] the code removes
    both, where removing the first occurrence only would leave the
    second in place. *)
Lemma C5_counterexample :
  sanitize_filename "www.www.a" = "a"
  /\ sanitize_first_only "www.www.a" = "www.a"
  /\ sanitize_filename "www.www.a" <> sanitize_first_only "www.www.a".
Proof. split; [reflexivity|]. split; [reflexivity | discriminate]. Qed.

End SanitizeTheorems.

Module StylusJsonTheorems.
Import PyStr Parser Dedupe UserCSS StylusJson Spec StylusJsonFacts.

(** C8. The export starts with the fixed settings object, followed by
    one style entry per key of the domain map, in the order of the keys,
    each named after its domain and numbered from the base identifier by
    its position, and, when there are global rules, by one final entry
    with the fixed name, without [domains] field, numbered past all the
    domain entries: [|domain_map| + (1 if global rules else 0)] style
    entries in all. *)
Theorem C8_stylus_export_entries (env : Env) (domain_map : ListDict Rule)
  (global_selectors : list Rule) (c : Calls) :
  exists entries,
    fst (generate_stylus_json env domain_map global_selectors c)
    = settings_obj :: entries
    /\ List.length entries
       = (List.length domain_map
          + match global_selectors with [] => 0 | _ :: _ => 1 end)%nat
    /\ (forall i domain rules,
          nth_error domain_map i = Some (domain, rules) ->
          exists e,
            nth_error entries i = Some e
            /\ entry_name e = Some domain
            /\ entry_id e = Some (base_id env c + Z.of_nat i)%Z
            /\ has_domains_field e = true)
    /\ match global_selectors with
       | [] => True
       | _ :: _ =>
           exists first_entries g,
             entries = (first_entries ++ [g])%list
             /\ List.length first_entries = List.length domain_map
             /\ entry_name g = Some GLOBAL_NAME
             /\ has_domains_field g = false
             /\ entry_id g
                = Some (base_id env c + Z.of_nat (List.length domain_map))%Z
       end.
Proof.
  unfold generate_stylus_json. fold (base_id env c).
  set (c0 := mkCalls (S (time_calls c)) (uuid_calls c)).
  pose proof (domain_entries_spec env (base_id env c) (enumerate domain_map 0) c0)
    as [Hlen Hnth].
  rewrite length_enumerate in Hlen.
  assert (Hdom : forall i domain rules,
             nth_error domain_map i = Some (domain, rules) ->
             exists e,
               nth_error (fst (domain_entries env (base_id env c)
                                 (enumerate domain_map 0) c0)) i = Some e
               /\ entry_name e = Some domain
               /\ entry_id e = Some (base_id env c + Z.of_nat i)%Z
               /\ has_domains_field e = true).
  { intros i domain rules Hi. apply (Hnth i i domain rules).
    rewrite nth_error_enumerate, Hi. reflexivity. }
  clear Hnth.
  destruct (domain_entries env (base_id env c) (enumerate domain_map 0) c0)
    as [des c1].
  cbn [fst] in *. destruct global_selectors as [|g0 gs].
  - exists des. split; [reflexivity|]. split; [lia|]. split; [exact Hdom | exact I].
  - pose proof (entry_name_created env GLOBAL_NAME (dedupe_rules (g0 :: gs)) None
                  (base_id env c + Z.of_nat (List.length domain_map)) true c1) as Hn.
    pose proof (entry_id_created env GLOBAL_NAME (dedupe_rules (g0 :: gs)) None
                  (base_id env c + Z.of_nat (List.length domain_map)) true c1) as Hi.
    pose proof (global_entry_no_domains env GLOBAL_NAME (dedupe_rules (g0 :: gs)) None
                  (base_id env c + Z.of_nat (List.length domain_map)) c1) as Hd.
    destruct (create_stylus_style_entry env GLOBAL_NAME (dedupe_rules (g0 :: gs))
                None (base_id env c + Z.of_nat (List.length domain_map)) true c1)
      as [g c2].
    cbn [fst] in *. exists (des ++ [g])%list.
    split; [reflexivity|]. split; [rewrite List.length_app; simpl; lia|].
    split.
    + intros i domain rules Hnth. destruct (Hdom i domain rules Hnth) as (e & He & Hrest).
      exists e. split; [|exact Hrest].
      rewrite nth_error_app1; [exact He|]. apply nth_error_Some. congruence.
    + exists des, g. auto.
Qed.

End StylusJsonTheorems.

(* ------------------------------------------------------------------ *)
(** ** The parser: further properties *)
(* ------------------------------------------------------------------ *)

Module ParserMore.
Import PyStr StyleRegex Parser Spec SpecMore.
Import PyStrFacts StyleRegexFacts ParserFacts LineFacts.

#[local] Arguments startswith : simpl never.
#[local] Arguments strip : simpl never.
#[local] Arguments contains : simpl never.
#[local] Arguments style_match : simpl never.

(** *** What one line does, in full *)

Lemma cosmetic_rule_full (line p0 p1 : string) :
  partition "##" line = Some (p0, p1) ->
  (exists reason, In reason invalid_reasons
      /\ forall n st,
           cosmetic_rule n line st = append_invalid (n, line, reason) st)
  \/ (exists rule,
        trimmed_nonempty (fst rule)
        /\ forall n st, cosmetic_rule n line st = store_rule (strip p0) rule st).
Proof.
  intros H.
  destruct (String.eqb (strip p1) "") eqn:E.
  { left. exists "Empty selector". split; [simpl; auto|]. intros n st.
    rewrite (cosmetic_rule_unfold _ _ _ _ _ H), E. reflexivity. }
  pose proof E as E'. apply String.eqb_neq in E'.
  destruct (contains ":style(" (strip p1)) eqn:Ec.
  - destruct (style_match (strip p1)) as [[g1 g2]|] eqn:Em.
    + right. exists (strip g1, strip g2). split.
      * simpl. apply strip_trimmed.
        apply style_match_head in Em. destruct Em as (c & g & r & -> & Hs).
        apply strip_nonspace_head.
        pose proof (strip_first p1) as Hf. rewrite Hs in Hf. exact Hf.
      * intros n st.
        rewrite (cosmetic_rule_unfold _ _ _ _ _ H), E, Ec, Em. reflexivity.
    + left. exists "Invalid :style() syntax". split; [simpl; auto|].
      intros n st.
      rewrite (cosmetic_rule_unfold _ _ _ _ _ H), E, Ec, Em. reflexivity.
  - right. exists (strip p1, HIDE). split.
    + simpl. apply strip_trimmed, E'.
    + intros n st.
      rewrite (cosmetic_rule_unfold _ _ _ _ _ H), E, Ec. reflexivity.
Qed.

Lemma process_line_full (raw : string) :
  if significant raw then
    (exists reason, In reason invalid_reasons
        /\ forall n st,
             process_line (n, raw) st
             = append_invalid (n, strip raw, reason) st)
    \/ (exists reason, In reason skipped_reasons
          /\ forall n st,
               process_line (n, raw) st
               = append_skipped (n, strip raw, reason) st)
    \/ (exists p0 p1 rule,
          partition "##" (strip raw) = Some (p0, p1)
          /\ contains "$" p0 = false
          /\ trimmed_nonempty (fst rule)
          /\ forall n st,
               process_line (n, raw) st = store_rule (strip p0) rule st)
  else forall n st, process_line (n, raw) st = (inr tt, st).
Proof.
  unfold process_line, significant. cbn [fst snd].
  set (line := strip raw).
  destruct (String.eqb line "" || startswith "!" line).
  { intros n st. reflexivity. }
  simpl negb. cbv iota.
  destruct (startswith "||" line || startswith "@@" line || startswith "/" line).
  { right. left. exists "Network filter". split; [simpl; auto|].
    intros n st. reflexivity. }
  destruct (contains "##" line) eqn:Eh.
  - destruct (contains_partition _ _ Eh) as (p0 & p1 & Hp).
    destruct (split_head "##" line p0 p1 ltac:(discriminate) Hp) as (rest & Hs).
    unfold py_split, index. rewrite Hs. cbv [bind ret nth_error].
    destruct (contains "$" p0) eqn:Ed.
    + right. left. exists "Network filter with options".
      split; [simpl; auto|]. intros n st. reflexivity.
    + destruct (cosmetic_rule_full line p0 p1 Hp)
        as [(reason & Hr & Hc)|(rule & Ht & Hc)].
      * left. exists reason. split; [exact Hr|]. intros n st.
        unfold bind, ret, guarded_rule, try_except. rewrite Hc. reflexivity.
      * right. right. exists p0, p1, rule.
        split; [exact Hp|]. split; [exact Ed|]. split; [exact Ht|].
        intros n st.
        unfold bind, ret, guarded_rule, try_except. rewrite Hc.
        destruct (store_rule_ok (strip p0) rule st) as (st' & -> & _).
        reflexivity.
  - destruct (contains "$" line || startswith "|" line).
    + right. left. exists "Network filter". split; [simpl; auto|].
      intros n st. reflexivity.
    + left. exists "Missing ## separator". split; [simpl; auto|].
      intros n st. reflexivity.
Qed.

(** *** The diagnostics *)

(** An entry of a diagnostic list made by the scan of [lines], numbered
    from [start]. *)
Lemma scan_diagnostics (lines : list string) (start : nat) (st st' : ParseState) :
  for_each process_line (enumerate lines start) st = (inr tt, st') ->
  exists inv sk,
    invalid_lines st' = (invalid_lines st ++ inv)%list
    /\ skipped_lines st' = (skipped_lines st ++ sk)%list
    /\ Forall (fun d => In (snd d) invalid_reasons) inv
    /\ Forall (fun d => In (snd d) skipped_reasons) sk
    /\ numbers_increase inv /\ numbers_increase sk
    /\ Forall (fun d => (start <= fst (fst d))%nat
                 /\ exists raw, nth_error lines (fst (fst d) - start) = Some raw
                      /\ snd (fst d) = strip raw
                      /\ significant raw = true) (inv ++ sk)%list.
Proof.
  revert start st. induction lines as [|raw lines IH]; intros start st.
  - simpl. unfold ret. intros [= <-]. exists [], [].
    rewrite !List.app_nil_r. repeat split; constructor.
  - simpl. unfold bind.
    assert (Hshift : forall l : list Diag,
               Forall (fun d => (S start <= fst (fst d))%nat
                 /\ exists raw0, nth_error lines (fst (fst d) - S start) = Some raw0
                      /\ snd (fst d) = strip raw0
                      /\ significant raw0 = true) l ->
               Forall (fun d => (start <= fst (fst d))%nat
                 /\ exists raw0, nth_error (raw :: lines) (fst (fst d) - start) = Some raw0
                      /\ snd (fst d) = strip raw0
                      /\ significant raw0 = true) l
               /\ Forall (fun d => (start < fst (fst d))%nat) l).
    { intros l Hl. split; eapply Forall_impl; try exact Hl; cbv beta.
      - intros d (Hle & raw0 & Hn & Hr). split; [lia|]. exists raw0.
        replace (fst (fst d) - start)%nat with (S (fst (fst d) - S start)) by lia.
        split; [exact Hn | exact Hr].
      - intros d (Hle & _). lia. }
    pose proof (process_line_full raw) as H.
    destruct (significant raw) eqn:Esig.
    + destruct H as [(reason & Hr & H)|[(reason & Hr & H)|(p0 & p1 & rule & _ & _ & _ & H)]];
        rewrite H.
      * cbn. intros Hrun. apply IH in Hrun.
        destruct Hrun as (inv & sk & Hi & Hs & Hri & Hrs & Hni & Hns & Hall).
        cbn in Hi, Hs. apply Hshift in Hall. destruct Hall as [Hall Hlt].
        apply Forall_app in Hall, Hlt.
        exists ((start, strip raw, reason) :: inv), sk.
        rewrite Hi, <- List.app_assoc. simpl.
        split; [reflexivity|]. split; [exact Hs|].
        split; [constructor; [exact Hr | exact Hri]|].
        split; [exact Hrs|].
        split; [constructor; [exact Hni | apply Hlt]|].
        split; [exact Hns|].
        constructor.
        -- simpl. split; [lia|]. exists raw. rewrite Nat.sub_diag. auto.
        -- apply Forall_app. exact Hall.
      * cbn. intros Hrun. apply IH in Hrun.
        destruct Hrun as (inv & sk & Hi & Hs & Hri & Hrs & Hni & Hns & Hall).
        cbn in Hi, Hs. apply Hshift in Hall. destruct Hall as [Hall Hlt].
        apply Forall_app in Hall, Hlt.
        exists inv, ((start, strip raw, reason) :: sk).
        rewrite Hs, <- List.app_assoc. simpl.
        split; [exact Hi|]. split; [reflexivity|].
        split; [exact Hri|].
        split; [constructor; [exact Hr | exact Hrs]|].
        split; [exact Hni|].
        split; [constructor; [exact Hns | apply Hlt]|].
        apply Forall_app. split; [apply Hall|]. constructor; [|apply Hall].
        simpl. split; [lia|]. exists raw. rewrite Nat.sub_diag. auto.
      * destruct (store_rule_ok (strip p0) rule st) as (st1 & -> & _ & Hi1 & Hs1 & _).
        intros Hrun. apply IH in Hrun.
        destruct Hrun as (inv & sk & Hi & Hs & Hri & Hrs & Hni & Hns & Hall).
        apply Hshift in Hall. destruct Hall as [Hall _].
        exists inv, sk. rewrite Hi, Hs, Hi1, Hs1. auto 10.
    + rewrite H. intros Hrun. apply IH in Hrun.
      destruct Hrun as (inv & sk & Hi & Hs & Hri & Hrs & Hni & Hns & Hall).
      apply Hshift in Hall. destruct Hall as [Hall _].
      exists inv, sk. auto 10.
Qed.

Lemma parse_filters_result (text : string) :
  exists st,
    parse_filters text = inr st
    /\ scan (splitlines (strip text)) empty_state = (inr tt, st).
Proof.
  destruct (scan_total (enumerate (splitlines (strip text)) 1) empty_state)
    as (st & Hrun).
  exists st. split; [|exact Hrun]. unfold parse_filters, scan. rewrite Hrun.
  reflexivity.
Qed.

(** X1. The reason of every entry of [invalid_lines] is one of the three
    texts the parser writes itself, and the reason of every entry of
    [skipped_lines] one of its two: the text of an exception never shows
    up as a reason. *)
Theorem X1_reasons_are_fixed (text : string) :
  exists st,
    parse_filters text = inr st
    /\ Forall (fun d => In (snd d) invalid_reasons) (invalid_lines st)
    /\ Forall (fun d => In (snd d) skipped_reasons) (skipped_lines st).
Proof.
  destruct (parse_filters_result text) as (st & Hp & Hrun).
  exists st. split; [exact Hp|].
  apply scan_diagnostics in Hrun.
  destruct Hrun as (inv & sk & Hi & Hs & Hri & Hrs & _).
  simpl in Hi, Hs. rewrite Hi, Hs. auto.
Qed.

(** X2. Every entry of [invalid_lines] and of [skipped_lines] carries the
    1-based number of a line of the input and that line trimmed, a line
    that is neither empty nor a comment; and within each list the line
    numbers strictly increase. *)
Theorem X2_diagnostics_point_at_lines (text : string) :
  exists st,
    parse_filters text = inr st
    /\ numbers_increase (invalid_lines st)
    /\ numbers_increase (skipped_lines st)
    /\ forall n line reason,
         In (n, line, reason) (invalid_lines st ++ skipped_lines st)%list ->
         (1 <= n)%nat
         /\ exists raw,
              nth_error (splitlines (strip text)) (n - 1) = Some raw
              /\ line = strip raw /\ significant raw = true.
Proof.
  destruct (parse_filters_result text) as (st & Hp & Hrun).
  exists st. split; [exact Hp|].
  apply scan_diagnostics in Hrun.
  destruct Hrun as (inv & sk & Hi & Hs & _ & _ & Hni & Hns & Hall).
  simpl in Hi, Hs. rewrite Hi, Hs. split; [exact Hni|]. split; [exact Hns|].
  intros n line reason Hin. rewrite Forall_forall in Hall.
  apply (Hall _ Hin).
Qed.

(** *** An empty result *)

Lemma scan_size (items : list (nat * string)) (st st' : ParseState) :
  for_each process_line items st = (inr tt, st') ->
  (state_size st + List.length (List.filter (fun x => significant (snd x)) items)
   <= state_size st')%nat.
Proof.
  revert st. induction items as [|[n raw] items IH]; intros st.
  - simpl. unfold ret. intros [= <-]. lia.
  - simpl. unfold bind.
    destruct (line_accounted n raw st) as (st1 & -> & Hacc).
    intros Hrun. apply IH in Hrun.
    destruct (significant raw).
    + simpl. destruct Hacc as [Hone _]. unfold state_size in *.
      destruct Hone as [((A1 & A2 & A3) & _)|[(_ & ((r & B1) & B2 & B3 & B4) & _)
                                            |(_ & _ & ((r & C1) & C2 & C3 & C4))]].
      * rewrite A2, A3 in Hrun. lia.
      * unfold rule_total in *. rewrite B1, B2, B3, B4, List.length_app in Hrun.
        simpl in Hrun. lia.
      * unfold rule_total in *. rewrite C1, C2, C3, C4, List.length_app in Hrun.
        simpl in Hrun. lia.
    + destruct Hacc as [-> _]. exact Hrun.
Qed.

Lemma scan_insignificant (items : list (nat * string)) (st : ParseState) :
  Forall (fun x => significant (snd x) = false) items ->
  for_each process_line items st = (inr tt, st).
Proof.
  induction 1 as [|[n raw] items Hx Hall IH]; [reflexivity|].
  simpl. unfold bind. destruct (line_accounted n raw st) as (st1 & -> & Hacc).
  simpl in Hx. rewrite Hx in Hacc. destruct Hacc as [-> _]. exact IH.
Qed.

Lemma filter_enumerate_nil {A} (f : A -> bool) (xs : list A) (start : nat) :
  List.filter (fun x => f (snd x)) (enumerate xs start) = [] ->
  Forall (fun x => f x = false) xs.
Proof.
  revert start. induction xs as [|x xs IH]; intros start; simpl; [constructor|].
  destruct (f x) eqn:E; [discriminate|]. intros H. constructor; eauto.
Qed.

Lemma enumerate_forall {A} (P : A -> Prop) (xs : list A) (start : nat) :
  Forall P xs -> Forall (fun x => P (snd x)) (enumerate xs start).
Proof.
  intros H. revert start. induction H; intros start; simpl; constructor; auto.
Qed.

(** X4. [parse_filters] returns four empty collections exactly when every
    line of the input is empty or a comment once trimmed; in particular
    for an empty or blank input. *)
Theorem X4_empty_result_iff_no_line (text : string) :
  parse_filters text = inr empty_state
  <-> Forall (fun raw => significant raw = false) (splitlines (strip text)).
Proof.
  destruct (parse_filters_result text) as (st & Hp & Hrun). rewrite Hp.
  split.
  - intros [= ->]. apply scan_size in Hrun.
    unfold state_size, rule_total, dict_total in Hrun. simpl in Hrun.
    apply (filter_enumerate_nil significant _ 1).
    destruct (List.filter _ _); [reflexivity | simpl in Hrun; lia].
  - intros Hall. unfold scan in Hrun.
    rewrite (scan_insignificant _ _ (enumerate_forall _ _ 1 Hall)) in Hrun.
    congruence.
Qed.

End ParserMore.

(* ------------------------------------------------------------------ *)
(** ** The domain map: further properties *)
(* ------------------------------------------------------------------ *)

Module DomainMapMore.
Import PyStr StyleRegex Parser Spec SpecMore.
Import PyStrFacts StyleRegexFacts ParserFacts LineFacts GroupFacts SanitizeFacts.
Import ParserMore.

#[local] Arguments startswith : simpl never.
#[local] Arguments strip : simpl never.

(** *** Lookup after insertion *)

Lemma dict_get_append {V} (k k' : string) (v : V) (d : ListDict V) :
  dict_get k' (dict_append k v d)
  = if String.eqb k' k
    then Some (match dict_get k d with
               | Some vs => vs ++ [v]
               | None => [v]
               end)%list
    else dict_get k' d.
Proof.
  induction d as [|[k0 vs] d IH]; simpl.
  - rewrite (String.eqb_sym k k'). reflexivity.
  - destruct (String.eqb_spec k0 k) as [->|Hne]; simpl.
    + rewrite (String.eqb_sym k k'). destruct (String.eqb k' k); reflexivity.
    + rewrite IH. destruct (String.eqb_spec k0 k') as [->|Hne'].
      * destruct (String.eqb_spec k' k); [congruence | reflexivity].
      * reflexivity.
Qed.

Lemma dict_get_keys {V} (k : string) (d : ListDict V) :
  existsb (String.eqb k) (map fst d)
  = match dict_get k d with Some _ => true | None => false end.
Proof.
  induction d as [|[k0 vs] d IH]; simpl; [reflexivity|].
  rewrite (String.eqb_sym k k0). destruct (String.eqb k0 k); simpl; auto.
Qed.

Lemma dict_append_keys_get {V} (k : string) (v : V) (d : ListDict V) :
  map fst (dict_append k v d)
  = match dict_get k d with
    | Some _ => map fst d
    | None => (map fst d ++ [k])%list
    end.
Proof.
  rewrite dict_append_keys, dict_get_keys. destruct (dict_get k d); reflexivity.
Qed.

Lemma dict_append_NoDup {V} (k : string) (v : V) (d : ListDict V) :
  NoDup (map fst d) -> NoDup (map fst (dict_append k v d)).
Proof.
  intros Hnd. rewrite dict_append_keys_get.
  destruct (dict_get k d) eqn:E; [exact Hnd|].
  apply NoDup_app; [exact Hnd | repeat constructor; simpl; tauto |].
  intros x Hx [Hk'|[]]. subst x.
  assert (Ex : existsb (String.eqb k) (map fst d) = true).
  { apply existsb_exists. exists k. split; [exact Hx | apply String.eqb_refl]. }
  rewrite dict_get_keys, E in Ex. discriminate.
Qed.

(** X6. The dictionary of lists behaves as [d[k].append(v)] on a
    [defaultdict(list)]: afterwards [d[k]] is the former list of [k]
    (empty when [k] was absent) followed by [v], every other key has the
    list it had, the keys keep their order with a new key at the end,
    and keys that were distinct stay distinct. *)
Theorem X6_dict_append_lookup {V} (k k' : string) (v : V) (d : ListDict V) :
  dict_get k' (dict_append k v d)
  = (if String.eqb k' k
     then Some (match dict_get k d with
                | Some vs => vs ++ [v]
                | None => [v]
                end)%list
     else dict_get k' d)
  /\ map fst (dict_append k v d)
     = match dict_get k d with
       | Some _ => map fst d
       | None => (map fst d ++ [k])%list
       end
  /\ (NoDup (map fst d) -> NoDup (map fst (dict_append k v d))).
Proof.
  split; [apply dict_get_append|]. split; [apply dict_append_keys_get|].
  apply dict_append_NoDup.
Qed.

(** The theorem at work: a second value under a key met before. *)
Lemma X6_witness :
  NoDup (map fst (dict_append "a" 2 [("a", [1]); ("b", [3])])).
Proof.
  apply (X6_dict_append_lookup "a" "a" 2 [("a", [1]); ("b", [3])]).
  simpl. repeat constructor; simpl; intuition discriminate.
Defined.

(** *** What storing a rule does to the state *)

Lemma domain_loop_fold (rule : Rule) (ds : list string) (st : ParseState) :
  for_each (fun domain => append_domain (strip domain) rule) ds st
  = (inr tt, mkState (store_domains rule ds (domain_map st))
                     (global_selectors st) (invalid_lines st) (skipped_lines st)).
Proof.
  revert st. induction ds as [|d ds IH]; intros st.
  - destruct st. reflexivity.
  - simpl. unfold bind. unfold append_domain at 1. unfold modify at 1.
    rewrite IH. reflexivity.
Qed.

Lemma store_rule_explicit (dp : string) (rule : Rule) (st : ParseState) :
  store_rule dp rule st
  = (inr tt,
     if String.eqb dp ""
     then mkState (domain_map st) (global_selectors st ++ [rule])%list
                  (invalid_lines st) (skipped_lines st)
     else mkState (store_domains rule (split "," dp) (domain_map st))
                  (global_selectors st) (invalid_lines st) (skipped_lines st)).
Proof.
  unfold store_rule. destruct (String.eqb dp "") eqn:E; [reflexivity|].
  unfold py_split. destruct dp as [|c dp]; [discriminate|].
  unfold bind at 1, ret at 1. apply domain_loop_fold.
Qed.

Lemma store_domains_total (rule : Rule) (ds : list string) (dm : ListDict Rule) :
  dict_total (store_domains rule ds dm) = (dict_total dm + List.length ds)%nat.
Proof.
  unfold store_domains. revert dm. induction ds as [|d ds IH]; intros dm; simpl.
  - lia.
  - rewrite IH, dict_append_total. lia.
Qed.

Lemma store_domains_keeps (rule : Rule) (ds : list string) (dm : ListDict Rule)
  (k : string) (vs : list Rule) :
  dict_get k dm = Some vs ->
  exists more, dict_get k (store_domains rule ds dm) = Some (vs ++ more)%list.
Proof.
  unfold store_domains. revert dm vs. induction ds as [|d ds IH]; intros dm vs H; simpl.
  - exists []. rewrite List.app_nil_r. exact H.
  - destruct (String.eqb_spec k (strip d)) as [->|Hne].
    + destruct (IH (dict_append (strip d) rule dm) (vs ++ [rule])%list) as [more Hm].
      { rewrite dict_get_append, String.eqb_refl, H. reflexivity. }
      exists (rule :: more). rewrite Hm, <- List.app_assoc. reflexivity.
    + apply IH. rewrite dict_get_append.
      destruct (String.eqb_spec k (strip d)); [congruence | exact H].
Qed.

Lemma store_domains_lookup (rule : Rule) (ds : list string) (dm : ListDict Rule)
  (d : string) :
  In d ds ->
  exists vs, dict_get (strip d) (store_domains rule ds dm) = Some vs /\ In rule vs.
Proof.
  revert dm. induction ds as [|d0 ds IH]; intros dm; simpl; [tauto|].
  intros [->|Hin].
  - destruct (store_domains_keeps rule ds (dict_append (strip d) rule dm) (strip d)
                (match dict_get (strip d) dm with
                 | Some vs => vs ++ [rule]
                 | None => [rule]
                 end)%list) as [more Hm].
    { rewrite dict_get_append, String.eqb_refl. reflexivity. }
    eexists. split; [exact Hm|]. apply in_or_app. left.
    destruct (dict_get (strip d) dm); [apply in_or_app; right|]; simpl; auto.
  - apply (IH _ Hin).
Qed.

(** X5. A rule with a domain part is stored once for each piece of the
    domain part between commas, pieces that occur twice included, under
    the piece trimmed, and the global list is not touched; a rule
    without domain part goes to the end of the global list and the
    domain map is not touched. *)
Theorem X5_rule_under_every_domain (dp : string) (rule : Rule) (st : ParseState) :
  exists st',
    store_rule dp rule st = (inr tt, st')
    /\ invalid_lines st' = invalid_lines st
    /\ skipped_lines st' = skipped_lines st
    /\ if String.eqb dp ""
       then domain_map st' = domain_map st
            /\ global_selectors st' = (global_selectors st ++ [rule])%list
       else global_selectors st' = global_selectors st
            /\ dict_total (domain_map st')
               = (dict_total (domain_map st) + List.length (split "," dp))%nat
            /\ (1 <= List.length (split "," dp))%nat
            /\ forall d, In d (split "," dp) ->
                 exists vs, dict_get (strip d) (domain_map st') = Some vs
                            /\ In rule vs.
Proof.
  rewrite store_rule_explicit. eexists. split; [reflexivity|].
  destruct (String.eqb dp ""); simpl; [auto|].
  split; [reflexivity|]. split; [reflexivity|]. split; [reflexivity|].
  split; [apply store_domains_total|]. split.
  - pose proof (split_n_not_nil "," (length dp) dp) as Hn. unfold split.
    destruct (split_n "," (length dp) dp); [congruence | simpl; lia].
  - intros d Hd. apply store_domains_lookup, Hd.
Qed.

(** *** The keys of the domain map *)

Lemma lacks_app (c : ascii) (a b : string) :
  lacks c (a ++ b) = lacks c a && lacks c b.
Proof. apply all_chars_app. Qed.

Lemma contains_char (c : ascii) (s : string) :
  contains (String c "") s = negb (lacks c s).
Proof.
  unfold lacks. induction s as [|x r IH].
  - reflexivity.
  - cbn [PyStr.contains all_chars]. rewrite IH.
    unfold startswith. simpl. rewrite (Ascii.eqb_sym x c).
    destruct (ascii_dec c x) as [->|Hne].
    + rewrite Ascii.eqb_refl. destruct r; reflexivity.
    + destruct (Ascii.eqb_spec c x); [congruence|]. reflexivity.
Qed.

Lemma partition_char_left (c : ascii) (s a b : string) :
  partition (String c "") s = Some (a, b) -> lacks c a = true.
Proof.
  revert a b. induction s as [|x r IH]; intros a b; cbn [PyStr.partition].
  - destruct (startswith (String c "") ""); [|discriminate].
    intros [= <- _]. reflexivity.
  - destruct (startswith (String c "") (String x r)) eqn:E.
    + intros [= <- _]. reflexivity.
    + destruct (partition (String c "") r) as [[a' b']|] eqn:P; [|discriminate].
      intros [= <- _]. unfold lacks. simpl. fold (lacks c a').
      rewrite (IH _ _ eq_refl), andb_true_r.
      unfold startswith in E. simpl in E.
      destruct (ascii_dec c x) as [->|Hne].
      * destruct r; discriminate.
      * destruct (Ascii.eqb_spec x c); [congruence | reflexivity].
Qed.

Lemma split_n_lacks_sep (c : ascii) (n : nat) (s : string) :
  (length s <= n)%nat ->
  Forall (fun p => lacks c p = true) (split_n (String c "") n s).
Proof.
  revert s. induction n as [|n IH]; intros s Hlen.
  - destruct s; [|simpl in Hlen; lia]. repeat constructor.
  - simpl. destruct (partition (String c "") s) as [[a b]|] eqn:P.
    + constructor; [eapply partition_char_left; exact P|].
      apply IH. assert (Hsep : String c "" <> "") by discriminate.
      pose proof (partition_shrinks _ _ _ _ Hsep P). lia.
    + constructor; [|constructor]. apply partition_none in P.
      rewrite contains_char in P. apply negb_false_iff in P. exact P.
Qed.

Lemma split_n_lacks (c : ascii) (sep : string) (n : nat) (s : string) :
  lacks c s = true -> Forall (fun p => lacks c p = true) (split_n sep n s).
Proof.
  revert s. induction n as [|n IH]; intros s Hs; simpl.
  - repeat constructor. exact Hs.
  - destruct (partition sep s) as [[a b]|] eqn:P.
    + apply partition_some in P. subst s. rewrite !lacks_app in Hs.
      repeat (apply andb_true_iff in Hs; destruct Hs as [? Hs]).
      constructor; [assumption | apply IH; assumption].
    + repeat constructor. exact Hs.
Qed.

Lemma strip_lacks (c : ascii) (s : string) :
  lacks c s = true -> lacks c (strip s) = true.
Proof.
  intros H. unfold strip.
  assert (Hl : lacks c (lstrip s) = true).
  { destruct (lstrip_suffix s) as [a Ha]. rewrite Ha, lacks_app in H.
    apply andb_true_iff in H. tauto. }
  destruct (rstrip_prefix (lstrip s)) as [b Hb].
  rewrite Hb, lacks_app in Hl. apply andb_true_iff in Hl. tauto.
Qed.

Lemma dict_append_ok (k : string) (rule : Rule) (dm : ListDict Rule) :
  dm_ok dm -> domain_key_ok k -> dm_ok (dict_append k rule dm).
Proof.
  intros [Hnd Hall] Hk. split; [apply dict_append_NoDup, Hnd|].
  clear Hnd. induction Hall as [|[k0 vs] dm [Hvs Hk0] Hall IH]; simpl.
  - constructor; [split; [discriminate | exact Hk] | constructor].
  - destruct (String.eqb k0 k).
    + constructor; [|exact Hall]. simpl. split; [|exact Hk0].
      destruct vs; discriminate.
    + constructor; [split; assumption | exact IH].
Qed.

Lemma store_domains_ok (rule : Rule) (ds : list string) (dm : ListDict Rule) :
  dm_ok dm -> Forall (fun d => domain_key_ok (strip d)) ds ->
  dm_ok (store_domains rule ds dm).
Proof.
  unfold store_domains. intros Hdm Hds. revert dm Hdm.
  induction Hds as [|d ds Hd Hds IH]; intros dm Hdm; simpl; [exact Hdm|].
  apply IH, dict_append_ok; assumption.
Qed.

Lemma domain_pieces_ok (p0 : string) :
  contains "$" p0 = false ->
  Forall (fun d => domain_key_ok (strip d)) (split "," (strip p0)).
Proof.
  intros Hd. rewrite contains_char in Hd. apply negb_false_iff in Hd.
  apply (strip_lacks "$") in Hd.
  pose proof (split_n_lacks_sep "," (length (strip p0)) (strip p0) (le_n _)) as H1.
  pose proof (split_n_lacks "$" "," (length (strip p0)) (strip p0) Hd) as H2.
  unfold split. rewrite Forall_forall in *. intros d Hin.
  repeat split.
  - apply strip_first.
  - apply strip_last.
  - apply strip_lacks, H1, Hin.
  - apply strip_lacks, H2, Hin.
Qed.

Lemma scan_dm_ok (items : list (nat * string)) (st st' : ParseState) :
  for_each process_line items st = (inr tt, st') ->
  dm_ok (domain_map st) -> dm_ok (domain_map st').
Proof.
  revert st. induction items as [|[n raw] items IH]; intros st.
  - simpl. unfold ret. intros [= <-]. auto.
  - simpl. unfold bind. pose proof (process_line_full raw) as H.
    destruct (significant raw).
    + destruct H as [(reason & _ & H)|[(reason & _ & H)
                     |(p0 & p1 & rule & _ & Hd & _ & H)]]; rewrite H.
      * cbn. intros Hrun Hok. apply (IH _ Hrun). exact Hok.
      * cbn. intros Hrun Hok. apply (IH _ Hrun). exact Hok.
      * rewrite store_rule_explicit. intros Hrun Hok. apply (IH _ Hrun).
        destruct (String.eqb (strip p0) ""); simpl; [exact Hok|].
        apply store_domains_ok; [exact Hok | apply domain_pieces_ok, Hd].
    + rewrite H. intros Hrun Hok. apply (IH _ Hrun), Hok.
Qed.

(** X3. In the domain map [parse_filters] returns, the keys are pairwise
    distinct, no key has an empty list of rules, and every key is
    trimmed and holds neither a comma nor a dollar sign (it may be the
    empty string). *)
Theorem X3_domain_map_well_formed (text : string) :
  exists st,
    parse_filters text = inr st
    /\ NoDup (map fst (domain_map st))
    /\ Forall (fun kv => snd kv <> [] /\ domain_key_ok (fst kv)) (domain_map st).
Proof.
  destruct (parse_filters_result text) as (st & Hp & Hrun).
  exists st. split; [exact Hp|].
  apply (scan_dm_ok _ _ _ Hrun). split; constructor.
Qed.

End DomainMapMore.

(* ------------------------------------------------------------------ *)
(** ** Deduplication and grouping: further properties *)
(* ------------------------------------------------------------------ *)

Module DedupeMore.
Import PyStr Parser Dedupe UserCSS Spec SpecMore DedupeFacts GroupFacts.

Lemma key_ltb_irrefl (k : bool * string) : key_ltb k k = false.
Proof.
  destruct (key_ltb k k) eqn:E; [|reflexivity].
  pose proof (key_ltb_asym _ _ E). congruence.
Qed.

Lemma same_key_eq (k : bool * string) (r : Rule) :
  same_key k r = true -> sort_key r = k.
Proof.
  unfold same_key. intros H. apply andb_true_iff in H. destruct H as [H1 H2].
  apply Bool.eqb_prop in H1. apply String.eqb_eq in H2.
  destruct (sort_key r), k. simpl in *. congruence.
Qed.

Lemma insert_by_key_stable (k : bool * string) (x : Rule) (l : list Rule) :
  List.filter (same_key k) (insert_by_key x l)
  = List.filter (same_key k) (x :: l).
Proof.
  induction l as [|y l IH]; [reflexivity|].
  cbn [insert_by_key]. destruct (key_ltb (sort_key y) (sort_key x)) eqn:E;
    [|reflexivity].
  cbn [List.filter] in *. rewrite IH.
  destruct (same_key k y) eqn:Ey, (same_key k x) eqn:Ex; try reflexivity.
  apply same_key_eq in Ey, Ex. rewrite Ey, Ex, key_ltb_irrefl in E. discriminate.
Qed.

Lemma sorted_by_key_stable (k : bool * string) (l : list Rule) :
  List.filter (same_key k) (sorted_by_key l) = List.filter (same_key k) l.
Proof.
  induction l as [|x l IH]; [reflexivity|].
  cbn [sorted_by_key]. rewrite insert_by_key_stable. cbn [List.filter].
  rewrite IH. reflexivity.
Qed.

(** X7. The sort of [dedupe_rules] is stable: the rules of equal sort
    key (the same selector, both hiding or both not) stand in the result
    in the order of their first occurrences in the input. *)
Theorem X7_dedupe_sort_is_stable (k : bool * string) (rules : list Rule) :
  List.filter (same_key k) (dedupe_rules rules)
  = List.filter (same_key k) (first_occurrences rule_eqb rules).
Proof. rewrite dedupe_rules_unfold. apply sorted_by_key_stable. Qed.

Lemma dedupe_rules_NoDup (x : list Rule) : NoDup (dedupe_rules x).
Proof.
  rewrite dedupe_rules_unfold.
  eapply Permutation_NoDup; [symmetry; apply sorted_by_key_perm|].
  apply first_occurrences_NoDup, rule_eqb_spec.
Qed.

(** X8. The lists [dedupe_rules] leaves as they are, are exactly the
    lists without repeated rule that are in the order of the sort key. *)
Theorem X8_dedupe_fixed_points (l : list Rule) :
  dedupe_rules l = l <-> NoDup l /\ Sorted key_le l.
Proof.
  split.
  - intros H. split.
    + rewrite <- H. apply dedupe_rules_NoDup.
    + rewrite <- H, dedupe_rules_unfold. apply sorted_by_key_sorted.
  - intros [Hnd Hs]. rewrite dedupe_rules_unfold.
    rewrite (first_occurrences_fixed rule_eqb rule_eqb_spec _ Hnd).
    apply sorted_by_key_fixed, Hs.
Qed.

Lemma first_occurrences_length {A} (eqb : A -> A -> bool) (l : list A) :
  (List.length (first_occurrences eqb l) <= List.length l)%nat.
Proof.
  induction l as [|x l IH]; simpl; [lia|].
  pose proof (filter_length_le (fun y => negb (eqb x y)) (first_occurrences eqb l)).
  lia.
Qed.

(** X9. [dedupe_rules] never returns more rules than it is given, and
    it returns as many exactly when no rule of the input is repeated. *)
Theorem X9_dedupe_length (x : list Rule) :
  (List.length (dedupe_rules x) <= List.length x)%nat
  /\ (List.length (dedupe_rules x) = List.length x <-> NoDup x).
Proof.
  assert (Hlen : List.length (dedupe_rules x)
                 = List.length (first_occurrences rule_eqb x)).
  { rewrite dedupe_rules_unfold. apply Permutation_length, sorted_by_key_perm. }
  rewrite Hlen. split; [apply first_occurrences_length|]. split.
  - intros H.
    apply (NoDup_incl_NoDup (first_occurrences_NoDup rule_eqb rule_eqb_spec x)).
    + lia.
    + intros r Hr. apply (first_occurrences_In rule_eqb rule_eqb_spec). exact Hr.
  - intros Hnd. rewrite (first_occurrences_fixed rule_eqb rule_eqb_spec _ Hnd).
    reflexivity.
Qed.

(** *** Grouping *)

Lemma css_groups_nonempty (rules : list Rule) :
  Forall (fun g => snd g <> []) (css_groups rules).
Proof.
  induction rules as [|r rules IH] using rev_ind; [constructor|].
  rewrite css_groups_snoc. induction IH as [|[k vs] G Hvs HG IHG]; simpl.
  - repeat constructor. discriminate.
  - destruct (String.eqb k (snd r)).
    + constructor; [|exact HG]. simpl. destruct vs; discriminate.
    + constructor; assumption.
Qed.

(** X10. Grouping loses and invents nothing: the selector lists of the
    groups hold as many selectors in all as there are rules, no group is
    empty, and there is one group per distinct declaration. *)
Theorem X10_groups_keep_every_selector (rules : list Rule) :
  dict_total (css_groups rules) = List.length rules
  /\ Forall (fun g => snd g <> []) (css_groups rules)
  /\ List.length (css_groups rules)
     = List.length (first_occurrences String.eqb (map snd rules))
  /\ (List.length (css_groups rules) <= List.length rules)%nat.
Proof.
  assert (Ht : dict_total (css_groups rules) = List.length rules).
  { induction rules as [|r rules IH] using rev_ind; [reflexivity|].
    rewrite css_groups_snoc, ParserFacts.dict_append_total, IH, List.length_app.
    simpl. lia. }
  assert (Hl : List.length (css_groups rules)
               = List.length (first_occurrences String.eqb (map snd rules))).
  { rewrite <- css_groups_keys, List.length_map. reflexivity. }
  split; [exact Ht|]. split; [apply css_groups_nonempty|]. split; [exact Hl|].
  rewrite Hl. pose proof (first_occurrences_length String.eqb (map snd rules)) as H.
  rewrite List.length_map in H. exact H.
Qed.

(** X11. After [dedupe_rules], as in every call of the generators, the
    selector of a rule of the input stands exactly once in the block of
    the declaration of that rule, and a pair that is no rule of the
    input stands in no block. *)
Theorem X11_deduped_rule_once_in_its_block (rules : list Rule) (s d : string) :
  times_in_block s d (css_groups (dedupe_rules rules))
  = if in_dec rule_dec (s, d) rules then 1%nat else 0%nat.
Proof.
  rewrite times_in_block_total.
  assert (Hin : In (s, d) (dedupe_rules rules) <-> In (s, d) rules).
  { rewrite dedupe_rules_unfold.
    rewrite <- (first_occurrences_In rule_eqb rule_eqb_spec rules (s, d)).
    split; apply Permutation_in;
      [apply sorted_by_key_perm | symmetry; apply sorted_by_key_perm]. }
  pose proof (proj1 (NoDup_count_occ rule_dec _) (dedupe_rules_NoDup rules) (s, d)).
  destruct (in_dec rule_dec (s, d) rules) as [Hr|Hr].
  - apply Hin in Hr. apply (count_occ_In rule_dec) in Hr. lia.
  - apply count_occ_not_In. intros H'. apply Hr, Hin, H'.
Qed.

(** X12. Rules that all have the same declaration, as a list of plain
    hide rules has, make one single block, with the selectors in the
    order of the rules. *)
Theorem X12_one_declaration_one_block (d : string) (rules : list Rule) :
  rules <> [] ->
  Forall (fun r => snd r = d) rules ->
  css_groups rules = [(d, map fst rules)].
Proof.
  induction rules as [|r rules IH] using rev_ind; [congruence|].
  intros _ Hall. apply Forall_app in Hall. destruct Hall as [Hall Hr].
  inversion Hr as [|? ? Hd _]; subst. rewrite css_groups_snoc.
  destruct rules as [|r0 rules].
  - reflexivity.
  - rewrite (IH ltac:(discriminate) Hall). simpl dict_append.
    rewrite String.eqb_refl, map_app. reflexivity.
Qed.

(** The theorem at work on two hide rules. *)
Lemma X12_witness :
  css_groups [(".ad", HIDE); (".banner", HIDE)]
  = [(HIDE, map fst [(".ad", HIDE); (".banner", HIDE)])].
Proof.
  apply (X12_one_declaration_one_block HIDE [(".ad", HIDE); (".banner", HIDE)]).
  - discriminate.
  - repeat constructor.
Defined.

End DedupeMore.

(* ------------------------------------------------------------------ *)
(** ** The Stylus export: further properties *)
(* ------------------------------------------------------------------ *)

Module StylusJsonMore.
Import PyStr Parser Dedupe UserCSS StylusJson Spec SpecMore StylusJsonFacts.

#[local] Arguments create_stylus_style_entry : simpl never.

Lemma map_fst_enumerate {A} (xs : list A) (start : nat) :
  map fst (enumerate xs start) = seq start (List.length xs).
Proof.
  revert start. induction xs as [|x xs IH]; intros start; simpl;
    [reflexivity | rewrite IH; reflexivity].
Qed.

Lemma domain_entries_ids (env : Env) (base : Z)
  (items : list (nat * (string * list Rule))) (c : Calls) :
  map entry_id (fst (domain_entries env base items c))
  = map (fun idx => Some (base + Z.of_nat idx)%Z) (map fst items).
Proof.
  revert c. induction items as [|[idx [d rules]] items IH]; intros c;
    [reflexivity|].
  cbn [domain_entries].
  match goal with
  | |- context [create_stylus_style_entry ?e ?n ?r ?ds ?i ?g ?cc] =>
      pose proof (entry_id_created e n r ds i g cc) as Hid;
      destruct (create_stylus_style_entry e n r ds i g cc) as [entry c']
  end.
  specialize (IH c'). destruct (domain_entries env base items c') as [es c''].
  cbn [fst map] in *. rewrite Hid, IH. reflexivity.
Qed.

Lemma ids_distinct (base : Z) (start n : nat) :
  NoDup (map (fun idx => Some (base + Z.of_nat idx)%Z) (seq start n)).
Proof.
  revert start. induction n as [|n IH]; intros start; simpl; constructor.
  - rewrite in_map_iff. intros (i & Hi & Hin). apply in_seq in Hin.
    injection Hi as Hi. lia.
  - apply IH.
Qed.

(** X13. The identifiers of the style entries of one export are the base
    identifier plus 0, 1, 2, ... in the order of the entries, the entry
    of the global rules included: no two entries of an export have the
    same [id]. *)
Theorem X13_export_ids_distinct (env : Env) (domain_map : ListDict Rule)
  (global_selectors : list Rule) (c : Calls) :
  exists entries,
    fst (generate_stylus_json env domain_map global_selectors c)
    = settings_obj :: entries
    /\ map entry_id entries
       = map (fun idx => Some (base_id env c + Z.of_nat idx)%Z)
             (seq 0 (List.length entries))
    /\ NoDup (map entry_id entries).
Proof.
  assert (H : exists entries,
             fst (generate_stylus_json env domain_map global_selectors c)
             = settings_obj :: entries
             /\ map entry_id entries
                = map (fun idx => Some (base_id env c + Z.of_nat idx)%Z)
                      (seq 0 (List.length entries))).
  { unfold generate_stylus_json. fold (base_id env c).
    set (c0 := mkCalls (S (time_calls c)) (uuid_calls c)).
    pose proof (domain_entries_ids env (base_id env c) (enumerate domain_map 0) c0)
      as Hids.
    pose proof (proj1 (domain_entries_spec env (base_id env c)
                         (enumerate domain_map 0) c0)) as Hlen.
    rewrite map_fst_enumerate in Hids. rewrite length_enumerate in Hlen.
    destruct (domain_entries env (base_id env c) (enumerate domain_map 0) c0)
      as [des c1].
    cbn [fst] in *. destruct global_selectors as [|g0 gs].
    - exists des. split; [reflexivity|]. rewrite Hlen. exact Hids.
    - match goal with
      | |- context [create_stylus_style_entry ?e ?n ?r ?ds ?i ?g ?cc] =>
          pose proof (entry_id_created e n r ds i g cc) as Hid;
          destruct (create_stylus_style_entry e n r ds i g cc) as [glob c2]
      end.
      cbn [fst] in *. exists (des ++ [glob])%list. split; [reflexivity|].
      rewrite map_app, List.length_app, Hids, Hlen. simpl.
      rewrite Nat.add_1_r, seq_S, map_app, Hid. reflexivity. }
  destruct H as (entries & H1 & H2). exists entries.
  split; [exact H1|]. split; [exact H2|]. rewrite H2. apply ids_distinct.
Qed.

Lemma created_stamps env name rules domains style_id is_global c :
  let e := fst (create_stylus_style_entry env name rules domains style_id
                  is_global c) in
  entry_string "_id" e = Some (uuid4 env (uuid_calls c))
  /\ entry_int "installDate" e = Some (now_ms env (time_calls c))
  /\ entry_int "updateDate" e = Some (now_ms env (time_calls c))
  /\ entry_int "_rev" e = Some (now_ms env (time_calls c)).
Proof. repeat split; reflexivity. Qed.

Lemma created_calls env name rules domains style_id is_global c :
  snd (create_stylus_style_entry env name rules domains style_id is_global c)
  = mkCalls (S (time_calls c)) (S (uuid_calls c)).
Proof. reflexivity. Qed.

Lemma domain_entries_calls (env : Env) (base : Z)
  (items : list (nat * (string * list Rule))) (c : Calls) :
  snd (domain_entries env base items c)
  = mkCalls (time_calls c + List.length items) (uuid_calls c + List.length items)
  /\ forall i e,
       nth_error (fst (domain_entries env base items c)) i = Some e ->
       entry_string "_id" e = Some (uuid4 env (uuid_calls c + i))
       /\ entry_int "installDate" e = Some (now_ms env (time_calls c + i))
       /\ entry_int "updateDate" e = Some (now_ms env (time_calls c + i))
       /\ entry_int "_rev" e = Some (now_ms env (time_calls c + i)).
Proof.
  revert c. induction items as [|[idx [d rules]] items IH]; intros c.
  - split; [destruct c; simpl; rewrite !Nat.add_0_r; reflexivity|].
    intros [|i] e; discriminate.
  - cbn [domain_entries].
    match goal with
    | |- context [create_stylus_style_entry ?e ?n ?r ?ds ?i ?g ?cc] =>
        pose proof (created_stamps e n r ds i g cc) as Hst;
        pose proof (created_calls e n r ds i g cc) as Hc;
        destruct (create_stylus_style_entry e n r ds i g cc) as [entry c']
    end.
    specialize (IH c'). destruct (domain_entries env base items c') as [es c''].
    cbn [fst snd] in *. subst c'. cbn [time_calls uuid_calls] in IH.
    destruct IH as [IHc IHn]. split.
    + rewrite IHc. simpl. f_equal; lia.
    + intros [|i] e; simpl.
      * intros [= <-]. rewrite !Nat.add_0_r. exact Hst.
      * intros Hn. apply IHn in Hn.
        replace (uuid_calls c + S i)%nat with (S (uuid_calls c) + i)%nat by lia.
        replace (time_calls c + S i)%nat with (S (time_calls c) + i)%nat by lia.
        exact Hn.
Qed.

(** X14. One export reads the clock once for the base identifier and
    once more for every style entry, and draws one identifier from
    [uuid4] for every style entry.  The entry at position [i] has the
    i-th of these identifiers as its [_id], and its [installDate],
    [updateDate] and [_rev] are all the (i+1)-th of these clock
    readings. *)
Theorem X14_export_stamps (env : Env) (domain_map : ListDict Rule)
  (global_selectors : list Rule) (c : Calls) :
  exists entries,
    fst (generate_stylus_json env domain_map global_selectors c)
    = settings_obj :: entries
    /\ snd (generate_stylus_json env domain_map global_selectors c)
       = mkCalls (time_calls c + 1 + List.length entries)
                 (uuid_calls c + List.length entries)
    /\ forall i e,
         nth_error entries i = Some e ->
         entry_string "_id" e = Some (uuid4 env (uuid_calls c + i))
         /\ entry_int "installDate" e = Some (now_ms env (time_calls c + 1 + i))
         /\ entry_int "updateDate" e = Some (now_ms env (time_calls c + 1 + i))
         /\ entry_int "_rev" e = Some (now_ms env (time_calls c + 1 + i)).
Proof.
  unfold generate_stylus_json.
  set (base := (now_ms env (time_calls c) mod 1000000)%Z).
  set (c0 := mkCalls (S (time_calls c)) (uuid_calls c)).
  pose proof (domain_entries_calls env base (enumerate domain_map 0) c0)
    as [Hc Hn].
  pose proof (proj1 (domain_entries_spec env base (enumerate domain_map 0) c0))
    as Hlen.
  rewrite length_enumerate in Hc, Hlen.
  destruct (domain_entries env base (enumerate domain_map 0) c0) as [des c1].
  cbn [fst snd time_calls uuid_calls c0] in *.
  assert (Hn' : forall i e, nth_error des i = Some e ->
             entry_string "_id" e = Some (uuid4 env (uuid_calls c + i))
             /\ entry_int "installDate" e = Some (now_ms env (time_calls c + 1 + i))
             /\ entry_int "updateDate" e = Some (now_ms env (time_calls c + 1 + i))
             /\ entry_int "_rev" e = Some (now_ms env (time_calls c + 1 + i))).
  { intros i e Hi. apply Hn in Hi.
    replace (time_calls c + 1 + i)%nat with (S (time_calls c) + i)%nat by lia.
    exact Hi. }
  clear Hn. destruct global_selectors as [|g0 gs].
  - exists des. split; [reflexivity|]. split; [|exact Hn'].
    cbn [snd]. rewrite Hc, Hlen. f_equal; lia.
  - match goal with
    | |- context [create_stylus_style_entry ?e ?n ?r ?ds ?i ?g ?cc] =>
        pose proof (created_stamps e n r ds i g cc) as Hst;
        pose proof (created_calls e n r ds i g cc) as Hcc;
        destruct (create_stylus_style_entry e n r ds i g cc) as [glob c2]
    end.
    cbn [fst snd] in *. subst c1 c2. cbn [time_calls uuid_calls] in Hst.
    exists (des ++ [glob])%list. split; [reflexivity|]. split.
    + rewrite List.length_app, Hlen. simpl. f_equal; lia.
    + intros i e Hi.
      destruct (Nat.lt_ge_cases i (List.length des)) as [Hlt|Hge].
      * rewrite nth_error_app1 in Hi by exact Hlt. apply Hn', Hi.
      * rewrite nth_error_app2 in Hi by exact Hge.
        destruct (i - List.length des)%nat as [|j] eqn:Ej.
        -- simpl in Hi. injection Hi as <-.
           assert (i = List.length domain_map) by lia. subst i.
           replace (time_calls c + 1 + List.length domain_map)%nat
             with (S (time_calls c) + List.length domain_map)%nat by lia.
           exact Hst.
        -- simpl in Hi. destruct j; discriminate.
Qed.

End StylusJsonMore.

(* ------------------------------------------------------------------ *)
(** ** File names and exported files: further properties *)
(* ------------------------------------------------------------------ *)

Module FilesMore.
Import PyStr Parser Dedupe UserCSS Sanitize Files Spec SpecMore.
Import PyStrFacts SanitizeFacts.

#[local] Arguments startswith : simpl never.
#[local] Arguments sanitize_filename : simpl never.
#[local] Arguments generate_usercss : simpl never.
#[local] Arguments dedupe_rules : simpl never.

(** *** [replace] *)

(** Any count that is at least the length of the string gives the same
    result. *)
Lemma replace_n_fuel (old new : string) (n m : nat) (s : string) :
  old <> "" -> (length s <= n)%nat -> (length s <= m)%nat ->
  replace_n old new n s = replace_n old new m s.
Proof.
  intros Hold. revert m s. induction n as [|n IH]; intros m s Hn Hm.
  - destruct s; [|simpl in Hn; lia]. destruct m; [reflexivity|].
    cbn [replace_n].
    destruct (partition old "") as [[a b]|] eqn:P; [|reflexivity].
    pose proof (partition_shrinks _ _ _ _ Hold P) as H. simpl in H. lia.
  - destruct m as [|m].
    + destruct s; [|simpl in Hm; lia]. cbn [replace_n].
      destruct (partition old "") as [[a b]|] eqn:P; [|reflexivity].
      pose proof (partition_shrinks _ _ _ _ Hold P) as H. simpl in H. lia.
    + cbn [replace_n]. destruct (partition old s) as [[a b]|] eqn:P; [|reflexivity].
      pose proof (partition_shrinks _ _ _ _ Hold P) as H.
      rewrite (IH m b); [reflexivity | lia | lia].
Qed.

(** An occurrence at the very start is removed, and the rest is treated
    as if it stood alone. *)
Lemma replace_hit (old d : string) :
  old <> "" -> replace old "" (old ++ d) = replace old "" d.
Proof.
  intros Hold. unfold replace.
  destruct (length (old ++ d)) as [|n] eqn:E.
  { rewrite str_length_app in E. destruct old; [congruence | simpl in E; lia]. }
  simpl.
  assert (P : partition old (old ++ d) = Some ("", d)).
  { destruct (old ++ d) eqn:Es.
    - destruct old; [congruence | discriminate].
    - rewrite <- Es. cbn [partition]. rewrite Es. cbn [partition].
      rewrite <- Es, startswith_app, drop_app. reflexivity. }
  rewrite P. simpl. apply replace_n_fuel; [exact Hold | | lia].
  rewrite str_length_app in E. destruct old; [congruence|]. simpl in E. lia.
Qed.

(** A first character at which no occurrence starts is kept. *)
Lemma replace_skip (old : string) (c : ascii) (s : string) :
  startswith old (String c s) = false ->
  replace old "" (String c s) = String c (replace old "" s).
Proof.
  intros Hs.
  assert (Hold : old <> "") by (intros ->; discriminate).
  unfold replace. cbn [length replace_n partition]. rewrite Hs.
  destruct (partition old s) as [[a b]|] eqn:P.
  - pose proof (partition_shrinks _ _ _ _ Hold P) as Hlen.
    rewrite (replace_n_fuel old "" (length s) (length b) b Hold) by lia.
    destruct (length s) as [|n] eqn:E; [lia|].
    cbn [replace_n]. rewrite P.
    rewrite (replace_n_fuel old "" n (length b) b Hold) by lia.
    reflexivity.
  - f_equal. destruct (length s); cbn [replace_n]; [|rewrite P]; reflexivity.
Qed.

(** X15. A name that starts with [www.], [https://] or [http://] is
    sanitized to the same file name as the name without that start: the
    file of a domain and the file of its [www.] form coincide. *)
Theorem X15_sanitize_ignores_leading_prefix (d : string) :
  sanitize_filename ("www." ++ d) = sanitize_filename d
  /\ sanitize_filename ("https://" ++ d) = sanitize_filename d
  /\ sanitize_filename ("http://" ++ d) = sanitize_filename d.
Proof.
  unfold sanitize_filename. split; [|split].
  - rewrite (replace_hit "www." d) by discriminate. reflexivity.
  - assert (E : replace "www." "" ("https://" ++ d)
                = "https://" ++ replace "www." "" d).
    { cbn [append]. repeat (rewrite replace_skip by reflexivity). reflexivity. }
    rewrite E, (replace_hit "https://") by discriminate. reflexivity.
  - assert (E : replace "www." "" ("http://" ++ d)
                = "http://" ++ replace "www." "" d).
    { cbn [append]. repeat (rewrite replace_skip by reflexivity). reflexivity. }
    rewrite E.
    assert (E2 : forall x, replace "https://" "" ("http://" ++ x)
                           = "http://" ++ replace "https://" "" x).
    { intros x. cbn [append]. repeat (rewrite replace_skip by reflexivity).
      reflexivity. }
    rewrite E2, (replace_hit "http://") by discriminate. reflexivity.
Qed.

(** *** The members of the archive *)

Lemma sanitize_safe (d : string) : all_chars keep (sanitize_filename d) = true.
Proof.
  unfold sanitize_filename. apply rstrip_all_chars, filter_all_chars.
Qed.

Lemma fold_writestr {A} (f : A -> string * string) (xs : list A) (zf : Archive) :
  fold_left (fun zf x => writestr (fst (f x)) (snd (f x)) zf) xs zf
  = (zf ++ map f xs)%list.
Proof.
  revert zf. induction xs as [|x xs IH]; intros zf; simpl.
  - rewrite List.app_nil_r. reflexivity.
  - rewrite IH. unfold writestr. rewrite <- List.app_assoc.
    destruct (f x). reflexivity.
Qed.

Lemma zip_members_closed (dm : ListDict Rule) (gs : list Rule) :
  zip_members dm gs
  = List.app
      (map (fun kv => (sanitize_filename (fst kv) ++ ".user.css",
                       generate_usercss (fst kv) (dedupe_rules (snd kv)) false)) dm)
      match gs with
      | [] => []
      | _ :: _ => [("Global_Rules.user.css",
                    generate_usercss "Global Rules" (dedupe_rules gs) true)]
      end.
Proof.
  unfold zip_members.
  rewrite (fold_writestr
             (fun kv => (sanitize_filename (fst kv) ++ ".user.css",
                         generate_usercss (fst kv) (dedupe_rules (snd kv)) false))).
  destruct gs; [rewrite List.app_nil_r|]; reflexivity.
Qed.

(** X16. The archive of [export_as_zip] has as many members as the
    count the export reports: one per key of the domain map, in order,
    named by the sanitized domain and holding the UserCSS of its
    deduplicated rules, then, when there are global rules and only then,
    the member [Global_Rules.user.css] holding the global UserCSS of the
    deduplicated global rules; and every member is named by safe
    characters only (letters, digits, spaces, [.], [_], [-]) followed by
    [.user.css]. *)
Theorem X16_zip_members (dm : ListDict Rule) (gs : list Rule) :
  List.length (zip_members dm gs) = file_count dm gs
  /\ Forall (fun m => exists stem,
                 fst m = stem ++ ".user.css" /\ all_chars keep stem = true)
            (zip_members dm gs)
  /\ (forall i domain rules,
        nth_error dm i = Some (domain, rules) ->
        nth_error (zip_members dm gs) i
        = Some (sanitize_filename domain ++ ".user.css",
                generate_usercss domain (dedupe_rules rules) false))
  /\ nth_error (zip_members dm gs) (List.length dm)
     = match gs with
       | [] => None
       | _ :: _ =>
           Some ("Global_Rules.user.css",
                 generate_usercss "Global Rules" (dedupe_rules gs) true)
       end.
Proof.
  rewrite zip_members_closed. split; [|split; [|split]].
  - unfold file_count. rewrite List.length_app, List.length_map.
    destruct gs; reflexivity.
  - apply Forall_app. split.
    + apply Forall_forall. intros m Hm. apply in_map_iff in Hm.
      destruct Hm as (kv & <- & _). exists (sanitize_filename (fst kv)).
      split; [reflexivity | apply sanitize_safe].
    + destruct gs; constructor; [|constructor].
      exists "Global_Rules". split; reflexivity.
  - intros i domain rules Hi.
    rewrite nth_error_app1.
    + rewrite nth_error_map, Hi. reflexivity.
    + rewrite List.length_map. apply nth_error_Some. congruence.
  - rewrite nth_error_app2 by (rewrite List.length_map; lia).
    rewrite List.length_map, Nat.sub_diag. destruct gs; reflexivity.
Qed.

(** *** The folder *)

Lemma read_write (name name' content : string) (dir : Archive) :
  read_file name' (write_file name content dir)
  = if String.eqb name' name then Some content else read_file name' dir.
Proof.
  induction dir as [|[n c] dir IH]; simpl.
  - rewrite (String.eqb_sym name name'). reflexivity.
  - destruct (String.eqb_spec n name) as [->|Hne]; simpl.
    + rewrite (String.eqb_sym name name'). destruct (String.eqb name' name); reflexivity.
    + rewrite IH. destruct (String.eqb_spec n name') as [->|Hne'].
      * destruct (String.eqb_spec name' name); [congruence | reflexivity].
      * reflexivity.
Qed.


Lemma read_after_writes (name : string) (ms dir : Archive) :
  read_file name (fold_left (fun d m => write_file (fst m) (snd m) d) ms dir)
  = match last_written name ms with
    | Some c => Some c
    | None => read_file name dir
    end.
Proof.
  revert dir. induction ms as [|[n c] ms IH]; intros dir; simpl; [reflexivity|].
  rewrite IH. destruct (last_written name ms); [reflexivity|].
  rewrite read_write, (String.eqb_sym name n).
  destruct (String.eqb n name); reflexivity.
Qed.

Lemma save_fold_written {A} (f : A -> string * string) (g : A -> nat)
  (xs : list A) (st : SaveState) :
  fold_left (fun st x => save_file (fun _ => Written) (fst (f x)) (snd (f x)) (g x) st)
            xs st
  = mkSave (fold_left (fun d m => write_file (fst m) (snd m) d) (map f xs) (folder st))
           (attempts st + List.length xs)
           (files_created st + List.length xs)
           (total_rules st + list_sum (map g xs)).
Proof.
  revert st. induction xs as [|x xs IH]; intros st; simpl.
  - destruct st. simpl. rewrite !Nat.add_0_r. reflexivity.
  - rewrite IH. unfold save_file. simpl. f_equal; lia.
Qed.

(** X17. When every file can be written, [convert_and_save] reports one
    file per member of the archive [export_as_zip] would make, and the
    rules it counts are the deduplicated rules of all of them; in the
    folder, a name holds the content of the LAST member of that name (an
    earlier member of the same name is overwritten), and a file of
    another name is left as it was. *)
Theorem X17_folder_is_archive_last_wins (dm : ListDict Rule) (gs : list Rule)
  (dir : Archive) (name : string) :
  files_created (save_all (fun _ => Written) dm gs dir) = file_count dm gs
  /\ total_rules (save_all (fun _ => Written) dm gs dir)
     = (list_sum (map (fun kv => List.length (dedupe_rules (snd kv))) dm)
        + match gs with [] => 0 | _ :: _ => List.length (dedupe_rules gs) end)%nat
  /\ read_file name (folder (save_all (fun _ => Written) dm gs dir))
     = match last_written name (zip_members dm gs) with
       | Some c => Some c
       | None => read_file name dir
       end.
Proof.
  unfold save_all.
  rewrite (save_fold_written
             (fun kv => (sanitize_filename (fst kv) ++ ".user.css",
                         generate_usercss (fst kv) (dedupe_rules (snd kv)) false))
             (fun kv => List.length (dedupe_rules (snd kv)))).
  rewrite zip_members_closed. cbn [folder files_created total_rules].
  set (ms := map _ dm).
  destruct gs as [|g0 gs].
  - cbn [folder files_created total_rules]. unfold file_count.
    rewrite List.app_nil_r, read_after_writes.
    split; [lia|]. split; [lia | reflexivity].
  - unfold save_file. cbn [folder files_created total_rules]. unfold file_count.
    split; [lia|]. split; [lia|].
    rewrite <- (read_after_writes name (ms ++ [_])%list dir), fold_left_app.
    reflexivity.
Qed.





End FilesMore.

(* ------------------------------------------------------------------ *)
(** ** The live statistics: properties *)
(* ------------------------------------------------------------------ *)

Module LiveStatsMore.
Import PyStr StyleRegex Parser LiveStats Spec SpecMore.
Import PyStrFacts StyleRegexFacts ParserFacts LineFacts GroupFacts.
Import ParserMore DomainMapMore.

#[local] Arguments startswith : simpl never.
#[local] Arguments strip : simpl never.
#[local] Arguments contains : simpl never.
#[local] Arguments style_match : simpl never.

Ltac run_stats :=
  cbv [StateExn.st_bind StateExn.st_ret StateExn.st_raise StateExn.st_modify
       StateExn.st_try_except incr_invalid incr_skipped incr_global incr_total
       incr_style add_domain].

(** *** One line *)

Lemma stats_domain_loop (ds : list string) (s : Stats) :
  StateExn.st_for_each (fun d => add_domain (strip d)) ds s
  = (inr tt, mkStats (count_domains ds (domains s)) (global_count s)
                     (total_valid s) (style_count s) (skipped_count s)
                     (invalid_count s)).
Proof.
  revert s. induction ds as [|d ds IH]; intros s.
  - destruct s. reflexivity.
  - cbn [StateExn.st_for_each]. unfold StateExn.st_bind. unfold add_domain at 1.
    unfold StateExn.st_modify at 1. rewrite IH. reflexivity.
Qed.

Lemma count_rule_unfold (line p0 p1 : string) (s : Stats) :
  partition "##" line = Some (p0, p1) ->
  count_rule line s =
  if String.eqb (strip p1) "" then incr_invalid s
  else (inr tt, count_valid (strip p0) (strip p1) s).
Proof.
  intros H. unfold count_rule, StateExn.st_split, StateExn.st_index.
  unfold StateExn.st_bind at 1 2 3. unfold StateExn.st_ret at 1.
  rewrite (split_once _ _ _ H). cbn [nth_error]. unfold StateExn.st_ret at 1 2.
  destruct (String.eqb (strip p1) ""); [reflexivity|].
  unfold count_valid.
  destruct (contains ":style(" (strip p1)); destruct (String.eqb (strip p0) "") eqn:E;
    try (run_stats; reflexivity).
  - apply String.eqb_neq in E. destruct (strip p0) as [|c dp] eqn:Edp; [congruence|].
    unfold StateExn.st_bind at 1 2 3. unfold incr_style, StateExn.st_modify at 1.
    unfold StateExn.st_ret at 1. rewrite stats_domain_loop. reflexivity.
  - apply String.eqb_neq in E. destruct (strip p0) as [|c dp] eqn:Edp; [congruence|].
    unfold StateExn.st_bind at 1 2 3. unfold StateExn.st_ret at 1 2.
    rewrite stats_domain_loop. reflexivity.
Qed.

Lemma split_whole (sep line : string) :
  contains sep line = false -> split sep line = [line].
Proof.
  intros H. apply partition_none in H. unfold split.
  destruct (length line); simpl; [|rewrite H]; reflexivity.
Qed.

(** What the parser and the statistics do with the same line. *)
Lemma line_joint (raw : string) :
  if significant raw then
    ((exists reason, In reason skipped_reasons
        /\ forall n st, process_line (n, raw) st
                        = append_skipped (n, strip raw, reason) st)
     /\ (forall s, count_line raw s = incr_skipped s)
     /\ pipe_only raw = false)
    \/ ((forall n st, process_line (n, raw) st
                      = append_skipped (n, strip raw, "Network filter") st)
        /\ (forall s, count_line raw s = incr_invalid s)
        /\ pipe_only raw = true)
    \/ ((exists reason, String.eqb reason "Invalid :style() syntax" = false
           /\ forall n st, process_line (n, raw) st
                           = append_invalid (n, strip raw, reason) st)
        /\ (forall s, count_line raw s = incr_invalid s)
        /\ pipe_only raw = false)
    \/ (exists p0 p1,
          (forall n st, process_line (n, raw) st
                        = append_invalid (n, strip raw, "Invalid :style() syntax") st)
          /\ (forall s, count_line raw s
                        = (inr tt, count_valid (strip p0) (strip p1) s))
          /\ pipe_only raw = false)
    \/ (exists p0 p1 rule,
          contains "$" p0 = false
          /\ (forall n st, process_line (n, raw) st
                           = store_rule (strip p0) rule st)
          /\ (forall s, count_line raw s
                        = (inr tt, count_valid (strip p0) (strip p1) s))
          /\ pipe_only raw = false)
  else (forall n st, process_line (n, raw) st = (inr tt, st))
       /\ (forall s, count_line raw s = (inr tt, s))
       /\ pipe_only raw = false.
Proof.
  unfold process_line, count_line, pipe_only, significant. cbn [fst snd].
  set (line := strip raw).
  destruct (String.eqb line "" || startswith "!" line) eqn:Ec.
  { repeat split; intros; reflexivity. }
  assert (Ec' : negb (String.eqb line "") && negb (startswith "!" line) = true).
  { apply orb_false_iff in Ec. destruct Ec as [-> ->]. reflexivity. }
  rewrite Ec'. clear Ec Ec'.
  simpl negb. cbv iota.
  destruct (startswith "||" line || startswith "@@" line || startswith "/" line).
  { left. split; [|split; [|reflexivity]].
    - exists "Network filter". split; [simpl; auto|]. intros n st. reflexivity.
    - intros s. reflexivity. }
  cbn [negb andb].
  destruct (contains "##" line) eqn:Eh.
  - cbn [negb andb].
    destruct (contains_partition _ _ Eh) as (p0 & p1 & Hp).
    destruct (split_head "##" line p0 p1 ltac:(discriminate) Hp) as (rest & Hs).
    unfold py_split, index, StateExn.st_split, StateExn.st_index.
    rewrite Hs. cbv [bind ret nth_error StateExn.st_bind StateExn.st_ret].
    destruct (contains "$" p0) eqn:Ed.
    + left. split; [|split; [|reflexivity]].
      * exists "Network filter with options". split; [simpl; auto|].
        intros n st. reflexivity.
      * intros s. reflexivity.
    + unfold guarded_rule, try_except, StateExn.st_try_except.
      destruct (String.eqb (strip p1) "") eqn:Ee.
      { right. right. left. split; [|split; [|reflexivity]].
        - exists "Empty selector". split; [reflexivity|]. intros n st.
          rewrite (cosmetic_rule_unfold _ _ _ _ _ Hp), Ee. reflexivity.
        - intros s. rewrite (count_rule_unfold _ _ _ _ Hp), Ee. reflexivity. }
      destruct (contains ":style(" (strip p1)) eqn:Est.
      * destruct (style_match (strip p1)) as [[g1 g2]|] eqn:Em.
        -- right. right. right. right.
           exists p0, p1, (strip g1, strip g2).
           split; [exact Ed|]. split; [|split; [|reflexivity]].
           ++ intros n st.
              rewrite (cosmetic_rule_unfold _ _ _ _ _ Hp), Ee, Est, Em.
              destruct (store_rule_ok (strip p0) (strip g1, strip g2) st)
                as (st' & -> & _). reflexivity.
           ++ intros s. rewrite (count_rule_unfold _ _ _ _ Hp), Ee. reflexivity.
        -- right. right. right. left. exists p0, p1.
           split; [|split; [|reflexivity]].
           ++ intros n st.
              rewrite (cosmetic_rule_unfold _ _ _ _ _ Hp), Ee, Est, Em. reflexivity.
           ++ intros s. rewrite (count_rule_unfold _ _ _ _ Hp), Ee. reflexivity.
      * right. right. right. right. exists p0, p1, (strip p1, HIDE).
        split; [exact Ed|]. split; [|split; [|reflexivity]].
        -- intros n st.
           rewrite (cosmetic_rule_unfold _ _ _ _ _ Hp), Ee, Est.
           destruct (store_rule_ok (strip p0) (strip p1, HIDE) st)
             as (st' & -> & _). reflexivity.
        -- intros s. rewrite (count_rule_unfold _ _ _ _ Hp), Ee. reflexivity.
  - cbn [negb andb].
    unfold StateExn.st_split, StateExn.st_index. rewrite (split_whole _ _ Eh).
    cbv [bind ret nth_error StateExn.st_bind StateExn.st_ret].
    destruct (contains "$" line) eqn:Ed.
    + left. split; [|split; [|reflexivity]].
      * exists "Network filter". split; [simpl; auto|]. intros n st. reflexivity.
      * intros s. reflexivity.
    + cbn [orb negb andb]. destruct (startswith "|" line) eqn:Ep.
      * right. left. split; [|split; [|reflexivity]].
        -- intros n st. reflexivity.
        -- intros s. reflexivity.
      * right. right. left. split; [|split; [|reflexivity]].
        -- exists "Missing ## separator". split; [reflexivity|].
           intros n st. reflexivity.
        -- intros s. reflexivity.
Qed.

(** *** The whole text *)

Lemma contributes_stored (raw dp : string) (rule : Rule) :
  (forall n st, process_line (n, raw) st = store_rule dp rule st) ->
  contributes_rule raw = true.
Proof.
  intros H. unfold contributes_rule. rewrite H.
  destruct (store_rule_ok dp rule empty_state) as (st' & -> & Hlt & _).
  apply Nat.ltb_lt. simpl. lia.
Qed.

Lemma contributes_invalid (raw : string) (d : nat -> Diag) :
  (forall n st, process_line (n, raw) st = append_invalid (d n) st) ->
  contributes_rule raw = false.
Proof. intros H. unfold contributes_rule. rewrite H. reflexivity. Qed.

Lemma contributes_skipped (raw : string) (d : nat -> Diag) :
  (forall n st, process_line (n, raw) st = append_skipped (d n) st) ->
  contributes_rule raw = false.
Proof. intros H. unfold contributes_rule. rewrite H. reflexivity. Qed.

Lemma contributes_ignored (raw : string) :
  (forall n st, process_line (n, raw) st = (inr tt, st)) ->
  contributes_rule raw = false.
Proof. intros H. unfold contributes_rule. rewrite H. reflexivity. Qed.

Lemma style_invalid_reason (n : nat) (line reason : string) :
  style_invalid (n, line, reason) = String.eqb reason "Invalid :style() syntax".
Proof. reflexivity. Qed.

Lemma filter_snoc_length {A} (f : A -> bool) (l : list A) (x : A) :
  List.length (List.filter f (l ++ [x])%list)
  = (List.length (List.filter f l) + if f x then 1 else 0)%nat.
Proof.
  rewrite filter_app, List.length_app. simpl. destruct (f x); reflexivity.
Qed.

(** The counters of the statistics against the result of the parser,
    over the same lines. *)
Lemma joint_counts (lines : list string) (start : nat) (st : ParseState) (s : Stats) :
  exists st' s',
    for_each process_line (enumerate lines start) st = (inr tt, st')
    /\ StateExn.st_for_each count_line lines s = (inr tt, s')
    /\ (style_invalid_count st <= style_invalid_count st')%nat
    /\ (total_valid s' + style_invalid_count st
        = total_valid s + List.length (List.filter contributes_rule lines)
          + style_invalid_count st')%nat
    /\ (skipped_count s' + List.length (List.filter pipe_only lines)
        + List.length (skipped_lines st)
        = skipped_count s + List.length (skipped_lines st'))%nat
    /\ (invalid_count s' + style_invalid_count st' + List.length (invalid_lines st)
        = invalid_count s + style_invalid_count st
          + List.length (invalid_lines st')
          + List.length (List.filter pipe_only lines))%nat
    /\ (total_valid s' + invalid_count s' + skipped_count s'
        = total_valid s + invalid_count s + skipped_count s
          + List.length (List.filter significant lines))%nat
    /\ (style_count s' + total_valid s <= style_count s + total_valid s')%nat
    /\ (global_count s' + total_valid s <= global_count s + total_valid s')%nat
    /\ (List.length (global_selectors st') + global_count s
        <= global_count s' + List.length (global_selectors st))%nat
    /\ (global_count s' + List.length (global_selectors st) + style_invalid_count st
        <= global_count s + List.length (global_selectors st')
           + style_invalid_count st')%nat.
Proof.
  revert start st s. induction lines as [|raw lines IH]; intros start st s.
  - exists st, s. repeat split; simpl; lia.
  - cbn [enumerate for_each StateExn.st_for_each List.filter].
    unfold bind, StateExn.st_bind.
    pose proof (line_joint raw) as H.
    destruct (significant raw).
    + destruct H as [((reason & _ & Hp) & Hc & Hpipe)
                    |[(Hp & Hc & Hpipe)
                    |[((reason & Hr & Hp) & Hc & Hpipe)
                    |[(p0 & p1 & Hp & Hc & Hpipe)
                    |(p0 & p1 & rule & _ & Hp & Hc & Hpipe)]]]];
        rewrite Hp, Hc, Hpipe.
      * rewrite (contributes_skipped raw (fun n => (n, strip raw, reason)) Hp).
        cbv iota.
        cbn [append_skipped modify incr_skipped StateExn.st_modify].
        match goal with
        | |- context [for_each process_line _ ?st1] =>
            match goal with
            | |- context [StateExn.st_for_each count_line lines ?s1] =>
                destruct (IH (S start) st1 s1)
                  as (st' & s' & -> & -> & H1 & H2 & H3 & H4 & H5 & H6 & H7 & H8 & H9)
            end
        end.
        exists st', s'. unfold style_invalid_count in *.
        cbn [invalid_lines skipped_lines global_selectors total_valid
             skipped_count invalid_count style_count global_count] in *.
        rewrite List.length_app in *. cbn [List.length] in *.
        repeat split; lia.
      * rewrite (contributes_skipped raw (fun n => (n, strip raw, "Network filter")) Hp).
        cbv iota.
        cbn [append_skipped modify incr_invalid StateExn.st_modify].
        match goal with
        | |- context [for_each process_line _ ?st1] =>
            match goal with
            | |- context [StateExn.st_for_each count_line lines ?s1] =>
                destruct (IH (S start) st1 s1)
                  as (st' & s' & -> & -> & H1 & H2 & H3 & H4 & H5 & H6 & H7 & H8 & H9)
            end
        end.
        exists st', s'. unfold style_invalid_count in *.
        cbn [invalid_lines skipped_lines global_selectors total_valid
             skipped_count invalid_count style_count global_count] in *.
        rewrite List.length_app in *. cbn [List.length] in *.
        repeat split; lia.
      * rewrite (contributes_invalid raw (fun n => (n, strip raw, reason)) Hp).
        cbv iota.
        cbn [append_invalid modify incr_invalid StateExn.st_modify].
        match goal with
        | |- context [for_each process_line _ ?st1] =>
            match goal with
            | |- context [StateExn.st_for_each count_line lines ?s1] =>
                destruct (IH (S start) st1 s1)
                  as (st' & s' & -> & -> & H1 & H2 & H3 & H4 & H5 & H6 & H7 & H8 & H9)
            end
        end.
        exists st', s'. unfold style_invalid_count in *.
        cbn [invalid_lines skipped_lines global_selectors total_valid
             skipped_count invalid_count style_count global_count] in *.
        rewrite filter_snoc_length, style_invalid_reason in *. rewrite Hr in *.
        rewrite List.length_app in *. cbn [List.length] in *.
        repeat split; lia.
      * rewrite (contributes_invalid raw
                   (fun n => (n, strip raw, "Invalid :style() syntax")) Hp).
        cbv iota.
        cbn [append_invalid modify].
        match goal with
        | |- context [for_each process_line _ ?st1] =>
            destruct (IH (S start) st1 (count_valid (strip p0) (strip p1) s))
              as (st' & s' & -> & -> & H1 & H2 & H3 & H4 & H5 & H6 & H7 & H8 & H9)
        end.
        exists st', s'. unfold style_invalid_count, count_valid in *.
        cbn [invalid_lines skipped_lines global_selectors total_valid
             skipped_count invalid_count style_count global_count] in *.
        rewrite filter_snoc_length, style_invalid_reason in *.
        rewrite String.eqb_refl in *.
        rewrite List.length_app in *. cbn [List.length] in *.
        destruct (contains ":style(" (strip p1)), (String.eqb (strip p0) "");
          repeat split; lia.
      * rewrite (contributes_stored raw _ _ Hp). cbv iota.
        rewrite DomainMapMore.store_rule_explicit.
        match goal with
        | |- context [for_each process_line _ ?st1] =>
            destruct (IH (S start) st1 (count_valid (strip p0) (strip p1) s))
              as (st' & s' & -> & -> & H1 & H2 & H3 & H4 & H5 & H6 & H7 & H8 & H9)
        end.
        exists st', s'. unfold style_invalid_count, count_valid in *.
        destruct (contains ":style(" (strip p1)), (String.eqb (strip p0) "");
          cbn [invalid_lines skipped_lines global_selectors total_valid
               skipped_count invalid_count style_count global_count] in *;
          rewrite ?List.length_app in *; cbn [List.length] in *;
          repeat split; lia.
    + destruct H as (Hp & Hc & Hpipe). rewrite Hp, Hc, Hpipe.
      rewrite (contributes_ignored raw Hp). cbv iota.
      destruct (IH (S start) st s)
        as (st' & s' & -> & -> & H1 & H2 & H3 & H4 & H5 & H6 & H7 & H8 & H9).
      exists st', s'. repeat split; lia.
Qed.

(** *** The domains *)

Lemma in_dict_append_keys {V} (x k : string) (v : V) (d : ListDict V) :
  In x (map fst (dict_append k v d)) <-> In x (map fst d) \/ x = k.
Proof.
  rewrite dict_append_keys.
  destruct (existsb (String.eqb k) (map fst d)) eqn:E.
  - apply existsb_exists in E. destruct E as (y & Hy & E).
    apply String.eqb_eq in E. subst y. intuition congruence.
  - rewrite in_app_iff. simpl. intuition congruence.
Qed.

Lemma in_store_domains (x : string) (rule : Rule) (ds : list string)
  (dm : ListDict Rule) :
  In x (map fst (store_domains rule ds dm))
  <-> In x (map fst dm) \/ In x (map strip ds).
Proof.
  unfold store_domains. revert dm. induction ds as [|d ds IH]; intros dm; simpl.
  - tauto.
  - rewrite IH, in_dict_append_keys. intuition congruence.
Qed.

Lemma in_set_add (x k : string) (s : list string) :
  In x (set_add k s) <-> In x s \/ x = k.
Proof.
  unfold set_add. destruct (existsb (String.eqb k) s) eqn:E.
  - apply existsb_exists in E. destruct E as (y & Hy & E).
    apply String.eqb_eq in E. subst y. intuition congruence.
  - rewrite in_app_iff. simpl. intuition congruence.
Qed.

Lemma set_add_NoDup (k : string) (s : list string) :
  NoDup s -> NoDup (set_add k s).
Proof.
  intros H. unfold set_add. destruct (existsb (String.eqb k) s) eqn:E; [exact H|].
  apply NoDup_app; [exact H | repeat constructor; simpl; tauto|].
  intros x Hx [Hk|[]]. subst x.
  assert (E' : existsb (String.eqb k) s = true).
  { apply existsb_exists. exists k. split; [exact Hx | apply String.eqb_refl]. }
  congruence.
Qed.

Lemma in_count_domains (x : string) (ds seen : list string) :
  In x (count_domains ds seen) <-> In x seen \/ In x (map strip ds).
Proof.
  unfold count_domains. revert seen. induction ds as [|d ds IH]; intros seen; simpl.
  - tauto.
  - rewrite IH, in_set_add. intuition congruence.
Qed.

Lemma count_domains_NoDup (ds seen : list string) :
  NoDup seen -> NoDup (count_domains ds seen).
Proof.
  unfold count_domains. revert seen. induction ds as [|d ds IH]; intros seen H;
    simpl; [exact H|]. apply IH, set_add_NoDup, H.
Qed.

Lemma count_valid_domains (dp sel : string) (s : Stats) (x : string) :
  In x (domains s) -> In x (domains (count_valid dp sel s)).
Proof.
  unfold count_valid. cbn [domains]. destruct (String.eqb dp ""); [auto|].
  intros H. apply in_count_domains. auto.
Qed.

Lemma count_valid_NoDup (dp sel : string) (s : Stats) :
  NoDup (domains s) -> NoDup (domains (count_valid dp sel s)).
Proof.
  unfold count_valid. cbn [domains]. destruct (String.eqb dp ""); [auto|].
  apply count_domains_NoDup.
Qed.

(** The set of domains of the statistics against the keys of the domain
    map, over the same lines. *)
Lemma joint_domains (lines : list string) (start : nat)
  (st st' : ParseState) (s s' : Stats) :
  for_each process_line (enumerate lines start) st = (inr tt, st') ->
  StateExn.st_for_each count_line lines s = (inr tt, s') ->
  (incl (map fst (domain_map st)) (domains s) ->
   incl (map fst (domain_map st')) (domains s'))
  /\ (NoDup (domains s) -> NoDup (domains s'))
  /\ (style_invalid_count st' = style_invalid_count st ->
      incl (domains s) (map fst (domain_map st)) ->
      incl (domains s') (map fst (domain_map st'))).
Proof.
  revert start st s. induction lines as [|raw lines IH]; intros start st s.
  - simpl. unfold ret, StateExn.st_ret. intros [= <-] [= <-]. auto.
  - cbn [enumerate for_each StateExn.st_for_each].
    unfold bind, StateExn.st_bind.
    pose proof (line_joint raw) as H.
    destruct (significant raw).
    + destruct H as [((reason & _ & Hp) & Hc & _)
                    |[(Hp & Hc & _)
                    |[((reason & Hr & Hp) & Hc & _)
                    |[(p0 & p1 & Hp & Hc & _)
                    |(p0 & p1 & rule & _ & Hp & Hc & _)]]]];
        rewrite Hp, Hc.
      * cbn [append_skipped modify incr_skipped StateExn.st_modify].
        intros R1 R2. apply (IH _ _ _ R1 R2).
      * cbn [append_skipped modify incr_invalid StateExn.st_modify].
        intros R1 R2. apply (IH _ _ _ R1 R2).
      * cbn [append_invalid modify incr_invalid StateExn.st_modify].
        intros R1 R2. destruct (IH _ _ _ R1 R2) as (I1 & I2 & I3).
        split; [exact I1|]. split; [exact I2|].
        unfold style_invalid_count in *. cbn [invalid_lines domain_map domains] in *.
        rewrite filter_snoc_length, style_invalid_reason, Hr, Nat.add_0_r in I3.
        exact I3.
      * cbn [append_invalid modify].
        intros R1 R2. destruct (IH _ _ _ R1 R2) as (I1 & I2 & I3).
        cbn [domain_map] in *.
        split; [|split].
        -- intros Hi. apply I1. intros x Hx. apply count_valid_domains, Hi, Hx.
        -- intros Hn. apply I2, count_valid_NoDup, Hn.
        -- intros Hy. exfalso.
           destruct (joint_counts lines (S start)
                       (mkState (domain_map st) (global_selectors st)
                          (invalid_lines st
                           ++ [(start, strip raw, "Invalid :style() syntax")])%list
                          (skipped_lines st))
                       (count_valid (strip p0) (strip p1) s))
             as (st2 & s2 & R1' & _ & Hmono & _).
           pose proof (eq_trans (eq_sym R1') R1) as E. injection E as ->.
           unfold style_invalid_count in *. cbn [invalid_lines] in Hmono.
           rewrite filter_snoc_length, style_invalid_reason, String.eqb_refl in Hmono.
           lia.
      * rewrite DomainMapMore.store_rule_explicit.
        intros R1 R2. destruct (IH _ _ _ R1 R2) as (I1 & I2 & I3).
        unfold count_valid in *. unfold style_invalid_count in *.
        destruct (String.eqb (strip p0) "");
          cbn [invalid_lines domain_map domains] in *.
        -- auto.
        -- split; [|split].
           ++ intros Hi. apply I1. intros x Hx.
              apply in_store_domains in Hx. apply in_count_domains.
              destruct Hx as [Hx|Hx]; [left; apply Hi, Hx | right; exact Hx].
           ++ intros Hn. apply I2, count_domains_NoDup, Hn.
           ++ intros Hy Hi. apply (I3 Hy). intros x Hx.
              apply in_count_domains in Hx. apply in_store_domains.
              destruct Hx as [Hx|Hx]; [left; apply Hi, Hx | right; exact Hx].
    + destruct H as (Hp & Hc & _). rewrite Hp, Hc.
      intros R1 R2. apply (IH _ _ _ R1 R2).
Qed.

(** *** The labels *)

Lemma stats_run (text : string) :
  exists s,
    StateExn.st_for_each count_line (splitlines (strip text)) zero_stats = (inr tt, s)
    /\ update_live_stats text = inr (labels_of s).
Proof.
  destruct (joint_counts (splitlines (strip text)) 1 empty_state zero_stats)
    as (st & s & _ & Hs & _).
  exists s. split; [exact Hs|]. unfold update_live_stats.
  destruct (String.eqb_spec (strip text) "") as [E|E].
  - rewrite E in Hs. simpl in Hs. injection Hs as <-. reflexivity.
  - rewrite Hs. reflexivity.
Qed.

(** X19. The live statistics never fail, and they count every line that
    is neither empty nor a comment exactly once, as a rule, as invalid
    or as a network filter: the three numbers add up to the number of
    such lines.  The numbers of style rules and of global rules are each
    at most the number of rules. *)
Theorem X19_live_stats_partition (text : string) :
  exists lbl,
    update_live_stats text = inr lbl
    /\ (lbl_total lbl + lbl_invalid lbl + lbl_skipped lbl
        = List.length (List.filter significant (splitlines (strip text))))%nat
    /\ (lbl_styles lbl <= lbl_total lbl)%nat
    /\ (lbl_global lbl <= lbl_total lbl)%nat.
Proof.
  destruct (stats_run text) as (s & Hs & Hu).
  destruct (joint_counts (splitlines (strip text)) 1 empty_state zero_stats)
    as (st & s2 & _ & Hs2 & _ & _ & _ & _ & H5 & H6 & H7 & _).
  rewrite Hs in Hs2. injection Hs2 as <-.
  exists (labels_of s). split; [exact Hu|]. simpl in *. repeat split; lia.
Qed.

(** X20. The live statistics against the conversion of the same text.
    With [y] the number of lines the parser rejects for a malformed
    [:style()] clause and [p] the number of lines it skips only because
    they start with [|]: the statistics count the [y] lines as rules and
    the [p] lines as invalid, and agree otherwise.  So the rule count
    shown is the number of rule lines plus [y], the network count plus
    [p] is the length of [skipped_lines], the invalid count plus [y] is
    the length of [invalid_lines] plus [p]; the global count is between
    the number of global rules and that number plus [y]; and the domain
    count is at least the number of keys of the domain map, and equal to
    it when [y] is 0. *)
Theorem X20_live_stats_against_parser (text : string) :
  exists lbl st,
    update_live_stats text = inr lbl
    /\ parse_filters text = inr st
    /\ (lbl_total lbl
        = List.length (List.filter contributes_rule (splitlines (strip text)))
          + style_invalid_count st)%nat
    /\ (lbl_skipped lbl
        + List.length (List.filter pipe_only (splitlines (strip text)))
        = List.length (skipped_lines st))%nat
    /\ (lbl_invalid lbl + style_invalid_count st
        = List.length (invalid_lines st)
          + List.length (List.filter pipe_only (splitlines (strip text))))%nat
    /\ (List.length (global_selectors st) <= lbl_global lbl
        <= List.length (global_selectors st) + style_invalid_count st)%nat
    /\ (List.length (domain_map st) <= lbl_domains lbl)%nat
    /\ (style_invalid_count st = 0%nat ->
        lbl_domains lbl = List.length (domain_map st)).
Proof.
  destruct (stats_run text) as (s & Hs & Hu).
  destruct (joint_counts (splitlines (strip text)) 1 empty_state zero_stats)
    as (st & s2 & Hst & Hs2 & H1 & H2 & H3 & H4 & H5 & H6 & H7 & H8 & H9).
  rewrite Hs in Hs2. injection Hs2 as <-.
  destruct (joint_domains _ _ _ _ _ _ Hst Hs) as (D1 & D2 & D3).
  assert (Hkeys : NoDup (map fst (domain_map st))).
  { apply (DomainMapMore.scan_dm_ok _ _ _ Hst). split; constructor. }
  exists (labels_of s), st. split; [exact Hu|].
  split; [unfold parse_filters; fold (scan (splitlines (strip text)));
          unfold scan; rewrite Hst; reflexivity|].
  unfold style_invalid_count in *. simpl in *.
  rewrite <- (List.length_map fst (domain_map st)).
  repeat split; try lia.
  - apply NoDup_incl_length; [exact Hkeys|]. apply D1. intros x [].
  - intros Hy. apply Nat.le_antisymm.
    + apply NoDup_incl_length; [apply D2; constructor|].
      apply D3; [exact Hy | intros x []].
    + apply NoDup_incl_length; [exact Hkeys|]. apply D1. intros x [].
Qed.

End LiveStatsMore.
